(** * AI-Vertical-Video-Enhancer: frame extension and keyframe interpolation

    A shallow embedding of [backend/ai_extender.py] (class [AIImageExtender])
    and [backend/video_processing.py] (class [VideoProcessor]), followed by
    the properties of the frame-extension and temporal-coherence engine.

    Conventions of the embedding:
    - Python integers are [Z]; [//] and [%] are [Z.div] and [Z.modulo] (both
      floor, the remainder taking the sign of the divisor, as in Python),
      with the zero divisor raising.
    - A Python float is the rational number it denotes; every operation on
      floats returns the exact result rounded to the nearest binary64
      number, ties to even (module [float]); [int(x)] truncates.  Where a
      quotient of two integers is truncated at once ([int(width * 16 / 9)],
      the mean colour of a strip) its fraction is a multiple of the inverse
      of the divisor and the rounding cannot reach the next integer: the
      result is written [Z.quot].
    - A raised exception is a value of [exn]; a call that may raise returns a
      [result].  Methods of [AIImageExtender] thread the object explicitly
      and return the mutated object also when they raise.
    - An image is its size together with a total pixel function; only the
      coordinates inside the size are meaningful.  Channels are bytes.
    - Pixel arithmetic done inside Pillow and OpenCV whose exact rounding is
      not part of this repository (Gaussian blur, masked paste, resize, the
      JPEG codec, the weighted sum of [cv2.addWeighted]) is a field of the
      class [Imaging]; the geometry of those calls is modelled here. *)

From Stdlib Require Import ZArith List String Ascii Bool Lia Lqa QArith Qround.
From Stdlib Require Import Qpower Qabs Qreduction.
From Stdlib Require Import Strings.Byte.
From Stdlib Require Import DecimalString DecimalPos DecimalZ.
Import ListNotations.
Local Open Scope Z_scope.

(* ================================================================= *)
(** ** Python values: exceptions, results, ranges, dictionaries *)

Module Py.

Inductive exn : Type :=
| ValueError
| KeyError
| IndexError
| ZeroDivisionError
| NameError
| OSError
| Exception_ (msg : string)
| cv2_error.

Inductive result (A : Type) : Type :=
| Ok (a : A)
| Raise (e : exn).
Arguments Ok {A} a.
Arguments Raise {A} e.

Definition bind {A B} (r : result A) (k : A -> result B) : result B :=
  match r with
  | Ok a => k a
  | Raise e => Raise e
  end.

(** [try: body  except Exception: handler] *)
Definition try_except {A} (body : result A) (handler : exn -> result A)
  : result A :=
  match body with
  | Ok a => Ok a
  | Raise e => handler e
  end.

Definition is_ok {A} (r : result A) : bool :=
  match r with Ok _ => true | Raise _ => false end.

(** [range(n)] *)
Definition range (n : Z) : list Z :=
  List.map Z.of_nat (List.seq 0 (Z.to_nat n)).

(** [range(start, stop, step)]: raises [ValueError] on a zero step; with a
    negative step and [start <= stop] it is empty. *)
Definition range3 (start stop step : Z) : result (list Z) :=
  if step =? 0 then Raise ValueError
  else if 0 <? step then
    let count := (stop - start + step - 1) / step in
    Ok (List.map (fun k => start + Z.of_nat k * step)
                 (List.seq 0 (Z.to_nat count)))
  else
    let count := (start - stop - step - 1) / (- step) in
    Ok (List.map (fun k => start + Z.of_nat k * step)
                 (List.seq 0 (Z.to_nat count))).

(** [a // b] and [a % b] *)
Definition floordiv (a b : Z) : result Z :=
  if b =? 0 then Raise ZeroDivisionError else Ok (a / b).

Definition mod_ (a b : Z) : result Z :=
  if b =? 0 then Raise ZeroDivisionError else Ok (a mod b).

(** [str(n)] for an integer *)
Definition str (n : Z) : string := NilZero.string_of_int (Z.to_int n).

End Py.
Export Py.

Declare Scope py_scope.
Delimit Scope py_scope with py.
Notation "x <- r ;; k" := (Py.bind r (fun x => k))
  (at level 61, r at next level, right associativity) : py_scope.

(** A [dict]: keys in insertion order, no key twice.  Assigning to a key that
  is present keeps its position; a new key goes last. *)
Module Dict.
Section WithKey.
Context {K V : Type} (eqb : K -> K -> bool).

Definition t := list (K * V).

Fixpoint get (k : K) (d : t) : option V :=
  match d with
  | [] => None
  | (k', v) :: d' => if eqb k k' then Some v else get k d'
  end.

(** [k in d] *)
Definition mem (k : K) (d : t) : bool :=
  match get k d with Some _ => true | None => false end.

(** [d[k] = v] *)
Fixpoint set (k : K) (v : V) (d : t) : t :=
  match d with
  | [] => [(k, v)]
  | (k', v') :: d' =>
      if eqb k k' then (k', v) :: d' else (k', v') :: set k v d'
  end.

(** [del d[k]] for a key that is present *)
Fixpoint del (k : K) (d : t) : t :=
  match d with
  | [] => []
  | (k', v') :: d' => if eqb k k' then d' else (k', v') :: del k d'
  end.

(** [list(d.keys())] *)
Definition keys (d : t) : list K := List.map fst d.

(** [len(d)] *)
Definition len (d : t) : Z := Z.of_nat (List.length d).

(** [d[k]], raising [KeyError] *)
Definition getitem (k : K) (d : t) : result V :=
  match get k d with
  | Some v => Ok v
  | None => Raise KeyError
  end.
End WithKey.
End Dict.

(* ================================================================= *)
(** ** Python floats *)

(** A float is an IEEE 754 binary64 number, here the rational it denotes.
    The result of an operation is the exact result rounded to the nearest
    number [m * 2^e] with [|m| < 2^53] and [e >= -1074], ties to the even
    [m].  Overflow is left out: the floats of this program lie between 0
    and 255. *)
Module float.

(** Rounding to the nearest integer, ties to even. *)
Definition round_half_even (q : Q) : Z :=
  let f := Qfloor q in
  match Qcompare (q - inject_Z f) (1 # 2) with
  | Lt => f
  | Gt => f + 1
  | Eq => if Z.even f then f else f + 1
  end.

(** [floor(log2(x))] for a positive [x]. *)
Definition ilog2 (x : Q) : Z :=
  let k := Z.log2 (Qnum x) - Z.log2 (Z.pos (Qden x)) in
  if Qle_bool (2 ^ k) x then k else k - 1.

(** The exponent of the last place of [x]: 53 significant bits, and no
    exponent below that of the subnormal numbers. *)
Definition exponent (x : Q) : Z := Z.max (ilog2 (Qabs x) - 52) (-1074).

(** The binary64 number nearest to [x]. *)
Definition round (x : Q) : Q :=
  if Qeq_bool x 0 then 0%Q
  else
    let e := exponent x in
    Qred (inject_Z (round_half_even (x / 2 ^ e)) * 2 ^ e).

(** [a / b] on two integers, for a divisor that is not 0. *)
Definition truediv (a b : Z) : Q := round (inject_Z a / inject_Z b).

(** [x - y] and [x * y] *)
Definition sub (x y : Q) : Q := round (x - y).

Definition mul (x y : Q) : Q := round (x * y).

(** [int(x)]: truncation towards 0. *)
Definition int (x : Q) : Z := Z.quot (Qnum x) (Z.pos (Qden x)).

End float.


(* ================================================================= *)
(** ** Pixels and images *)

(** A [uint8] sample. *)
Definition u8 : Type := byte.

Definition u8_val (b : u8) : Z := Z.of_N (Byte.to_N b).

(** Cast with saturation ([saturate_cast<uchar>], and Pillow's clipping of
    integer colours). *)
Definition saturate_u8 (z : Z) : u8 :=
  match Byte.of_N (Z.to_N (Z.max 0 (Z.min 255 z))) with
  | Some b => b
  | None => x00
  end.

Definition pixel : Type := (u8 * u8 * u8)%type.

Definition black : pixel := (x00, x00, x00).

(** Channels of a pixel in array order. *)
Definition channels (p : pixel) : list u8 :=
  let '(a, b, c) := p in [a; b; c].

(** A three-band image ([PIL.Image] in mode RGB, or an [H x W x 3] array of
    [uint8]): pixel [getpixel x y] is column [x] of row [y]. *)
Record Image : Type := mkImage {
  width : Z;
  height : Z;
  getpixel : Z -> Z -> pixel
}.

(** A one-band image (mode L), used as a mask or alpha band. *)
Record Band : Type := mkBand {
  band_width : Z;
  band_height : Z;
  band_get : Z -> Z -> u8
}.

(** A mode RGBA image: the colour bands and the alpha band. *)
Record ImageA : Type := mkImageA {
  rgb : Image;
  alpha : Band
}.

Definition inside (w h x y : Z) : bool :=
  (0 <=? x) && (x <? w) && (0 <=? y) && (y <? h).

Module PIL.

(** [Image.new("RGB", (w, h), color)] *)
Definition new (w h : Z) (color : pixel) : result Image :=
  if (w <? 0) || (h <? 0) then Raise ValueError
  else Ok (mkImage w h (fun _ _ => color)).

(** [Image.new('L', (w, h), v)] *)
Definition new_L (w h : Z) (v : u8) : result Band :=
  if (w <? 0) || (h <? 0) then Raise ValueError
  else Ok (mkBand w h (fun _ _ => v)).

(** [im.crop((left, upper, right, lower))]: the box may leave the image,
    what lies outside is black. *)
Definition crop (im : Image) (left upper right lower : Z) : result Image :=
  if (right <? left) || (lower <? upper) then Raise ValueError
  else Ok (mkImage (right - left) (lower - upper)
             (fun x y =>
                if inside (width im) (height im) (x + left) (y + upper)
                then getpixel im (x + left) (y + upper)
                else black)).

Definition crop_L (m : Band) (left upper right lower : Z) : Band :=
  mkBand (right - left) (lower - upper)
    (fun x y =>
       if inside (band_width m) (band_height m) (x + left) (y + upper)
       then band_get m (x + left) (y + upper)
       else x00).

(** [crop] of an RGBA image crops every band. *)
Definition crop_A (im : ImageA) (left upper right lower : Z) : result ImageA :=
  bind (crop (rgb im) left upper right lower) (fun c =>
  Ok (mkImageA c (crop_L (alpha im) left upper right lower))).

(** [dst.paste(src, (x0, y0))]: the part of [src] that falls inside [dst]
    replaces what was there; the size of [dst] does not change. *)
Definition paste (dst src : Image) (x0 y0 : Z) : Image :=
  mkImage (width dst) (height dst)
    (fun x y =>
       if inside (width src) (height src) (x - x0) (y - y0)
       then getpixel src (x - x0) (y - y0)
       else getpixel dst x y).

(** [im.transpose(Image.Transpose.FLIP_TOP_BOTTOM)] *)
Definition transpose_FLIP_TOP_BOTTOM (im : Image) : Image :=
  mkImage (width im) (height im)
    (fun x y => getpixel im x (height im - 1 - y)).

(** [m.putpixel((x, y), v)] *)
Definition putpixel_L (m : Band) (x y : Z) (v : u8) : result Band :=
  if inside (band_width m) (band_height m) x y
  then Ok (mkBand (band_width m) (band_height m)
             (fun x' y' =>
                if (x' =? x) && (y' =? y) then v else band_get m x' y'))
  else Raise IndexError.

(** [im.putalpha(m)]: the band must have the size of the image. *)
Definition putalpha (im : Image) (m : Band) : result ImageA :=
  if (band_width m =? width im) && (band_height m =? height im)
  then Ok (mkImageA im m)
  else Raise ValueError.

(** [im.getchannel('A')] *)
Definition getchannel_A (im : ImageA) : Band := alpha im.

End PIL.

(** Pixel arithmetic of the imaging libraries that this repository calls
    and does not define. *)
Class Imaging : Type := {
  (** a pixel of [im.filter(ImageFilter.GaussianBlur(radius))] *)
  gaussian_blur_px : Z -> Image -> Z -> Z -> pixel;
  (** a pixel of a paste under an L mask, from the pixel below, the pasted
      pixel and the mask sample *)
  composite_px : pixel -> pixel -> u8 -> pixel;
  (** a pixel of [cv2.resize(img, (w, h))] *)
  resize_px : Image -> Z -> Z -> Z -> Z -> pixel;
  (** a pixel of an image written as JPEG and read back *)
  jpeg_px : Image -> Z -> Z -> pixel;
  (** a pixel of [Image.resize((w, h), LANCZOS)] *)
  lanczos_px : Image -> Z -> Z -> Z -> Z -> pixel;
  (** a sample of [cv2.addWeighted(src1, alpha, src2, beta, gamma)] on
      8-bit arrays, from the two samples, the weights and the offset: the
      library evaluates [src1*alpha + src2*beta + gamma] in floating point
      and casts the result to 8 bits with [saturate_cast] *)
  add_weighted_px : u8 -> Q -> u8 -> Q -> Q -> u8;
  (** what that evaluation guarantees: for weights between 0 and 1 and no
      offset, when the exact weighted sum needs no saturation, the sample
      is an integer nearest to it, up to the rounding errors of the
      floating-point evaluation, which stay below 1/1024 *)
  add_weighted_accurate :
    forall (a b : u8) (alpha beta : Q),
      (0 <= alpha <= 1)%Q -> (0 <= beta <= 1)%Q ->
      (inject_Z (u8_val a) * alpha + inject_Z (u8_val b) * beta
       <= 255 + (1 # 4))%Q ->
      (Qabs (inject_Z (u8_val (add_weighted_px a alpha b beta 0))
             - (inject_Z (u8_val a) * alpha + inject_Z (u8_val b) * beta))
       <= (1 # 2) + (1 # 1024))%Q
}.

Section ImagingOps.
Context {IM : Imaging}.

(** [im.filter(ImageFilter.GaussianBlur(radius=r))]: same size. *)
Definition filter_GaussianBlur (r : Z) (im : Image) : Image :=
  mkImage (width im) (height im) (gaussian_blur_px r im).

(** [dst.paste(src, (x0, y0), mask)]: inside the box the pixel below and
    the pasted pixel are mixed by the mask sample; the mask must have the
    size of [src]. *)
Definition paste_mask (dst : Image) (src : ImageA) (x0 y0 : Z) (mask : Band)
  : result Image :=
  if (band_width mask =? width (rgb src))
     && (band_height mask =? height (rgb src))
  then Ok (mkImage (width dst) (height dst)
             (fun x y =>
                if inside (width (rgb src)) (height (rgb src)) (x - x0) (y - y0)
                then composite_px (getpixel dst x y)
                       (getpixel (rgb src) (x - x0) (y - y0))
                       (band_get mask (x - x0) (y - y0))
                else getpixel dst x y))
  else Raise ValueError.

(** [cv2.resize(img, (w, h))] *)
Definition cv2_resize (im : Image) (w h : Z) : Image :=
  mkImage w h (resize_px im w h).

(** [im.save(path)] as JPEG followed by reading the file: same size. *)
Definition jpeg_roundtrip (im : Image) : Image :=
  mkImage (width im) (height im) (jpeg_px im).

(** [im.resize((w, h), Image.Resampling.LANCZOS)] *)
Definition resize_LANCZOS (im : Image) (w h : Z) : result Image :=
  if (w <? 0) || (h <? 0) then Raise ValueError
  else Ok (mkImage w h (lanczos_px im w h)).

End ImagingOps.

Module np.

(** [np.array(im).reshape(-1, 3)]: the pixels, row after row. *)
Definition reshape_pixels (im : Image) : list pixel :=
  List.flat_map
    (fun y => List.map (fun x => getpixel im x y) (range (width im)))
    (range (height im)).

(** [np.array(im).sum()]: the sum of all samples (accumulated in 64 bits). *)
Definition sum (im : Image) : Z :=
  List.fold_right
    (fun p acc =>
       List.fold_right (fun c a => u8_val c + a) 0 (channels p) + acc)
    0 (reshape_pixels im).

Definition channel_sum (sel : pixel -> u8) (ps : list pixel) : Z :=
  List.fold_right (fun p acc => u8_val (sel p) + acc) 0 ps.

Definition chan0 (p : pixel) : u8 := fst (fst p).
Definition chan1 (p : pixel) : u8 := snd (fst p).
Definition chan2 (p : pixel) : u8 := snd p.

(** [tuple(map(int, np.mean(pixels, axis=0)))]: the mean of no pixel is
    NaN, and [int(nan)] raises [ValueError]; otherwise the mean of bytes is
    truncated, which on non-negative values is the floor of sum/count. *)
Definition int_mean_axis0 (ps : list pixel) : result (Z * Z * Z) :=
  let n := Z.of_nat (List.length ps) in
  if n =? 0 then Raise ValueError
  else Ok (Z.quot (channel_sum chan0 ps) n,
           Z.quot (channel_sum chan1 ps) n,
           Z.quot (channel_sum chan2 ps) n).

End np.

Module cv2.

(** [cv2.cvtColor(a, COLOR_BGR2RGB)] and [COLOR_RGB2BGR]: the first and the
    third channel change places; the two conversions are the same map. *)
Definition swap_rb (p : pixel) : pixel :=
  let '(a, b, c) := p in (c, b, a).

Definition cvtColor (im : Image) : Image :=
  mkImage (width im) (height im) (fun x y => swap_rb (getpixel im x y)).

Section Blend.
Context {IM : Imaging}.

(** One pixel of [addWeighted]: every channel is weighted by the library. *)
Definition blend_pixel (p : pixel) (alpha : Q) (q : pixel) (beta gamma : Q)
  : pixel :=
  let '(p0, p1, p2) := p in
  let '(q0, q1, q2) := q in
  (add_weighted_px p0 alpha q0 beta gamma,
   add_weighted_px p1 alpha q1 beta gamma,
   add_weighted_px p2 alpha q2 beta gamma).

(** [cv2.addWeighted(src1, alpha, src2, beta, gamma)]: the two arrays must
    have the same shape. *)
Definition addWeighted (src1 : Image) (alpha : Q) (src2 : Image)
  (beta gamma : Q) : result Image :=
  if (width src1 =? width src2) && (height src1 =? height src2)
  then Ok (mkImage (width src1) (height src1)
             (fun x y =>
                blend_pixel (getpixel src1 x y) alpha
                            (getpixel src2 x y) beta gamma))
  else Raise cv2_error.

End Blend.

End cv2.

(* ================================================================= *)
(** ** ai_extender.py: class AIImageExtender *)

Inductive position : Type := top | bottom.

Definition position_str (p : position) : string :=
  match p with
  | top => "top"
  | bottom => "bottom"
  end.

(** The object.  [generation_calls] is not an attribute of the Python class:
    it counts the calls of [_stable_diffusion_outpaint] made so far, the call
    counter of a stubbed generator. *)
Record AIImageExtender : Type := mkExtender {
  api_token : option string;
  extension_cache : list (string * Image);
  cache_hits : Z;
  cache_misses : Z;
  generation_calls : nat
}.

(** [AIImageExtender(api_token)] *)
Definition __init__ (token : option string) : AIImageExtender :=
  mkExtender token [] 0 0 0.

(** Truth value of [self.api_token]: [None] and the empty string are false. *)
Definition token_set (self : AIImageExtender) : bool :=
  match api_token self with
  | None => false
  | Some s => negb (String.eqb s EmptyString)
  end.

Definition with_cache (self : AIImageExtender) (c : list (string * Image))
  : AIImageExtender :=
  mkExtender (api_token self) c (cache_hits self) (cache_misses self)
             (generation_calls self).

Definition count_hit (self : AIImageExtender) : AIImageExtender :=
  mkExtender (api_token self) (extension_cache self) (cache_hits self + 1)
             (cache_misses self) (generation_calls self).

Definition count_miss (self : AIImageExtender) : AIImageExtender :=
  mkExtender (api_token self) (extension_cache self) (cache_hits self)
             (cache_misses self + 1) (generation_calls self).

Definition count_generation (self : AIImageExtender) : AIImageExtender :=
  mkExtender (api_token self) (extension_cache self) (cache_hits self)
             (cache_misses self) (S (generation_calls self)).

(** [target_height = int(width * 16 / 9)] *)
Definition target_height_of (w : Z) : Z := Z.quot (w * 16) 9.

(** Nearest integer to [a / b] for [0 <= a] and [0 < b]: what the word
    "round" of the specification denotes (no tie arises for [b = 9]). *)
Definition round_div (a b : Z) : Z := (2 * a + b) / (2 * b).

(** The cache fingerprint
    [f"{position}_{width}_{extension_height}_{edge_hash}"]. *)
Definition cache_key_of (p : position) (w eh edge_sum : Z) : string :=
  (position_str p ++ "_" ++ str w ++ "_" ++ str eh ++ "_" ++ str edge_sum)%string.

(** Lines 144-147: when more than 50 entries are held, delete the keys
    [list(cache.keys())[:10]]. *)
Definition limit_cache_size (c : list (string * Image)) : list (string * Image) :=
  if 50 <? Dict.len c
  then
    let oldest_keys := List.firstn 10 (Dict.keys c) in
    List.fold_left (fun d key => Dict.del String.eqb key d) oldest_keys c
  else c.

(** Lines 141-147: store, then limit the size. *)
Definition cache_put (key : string) (extension : Image)
  (c : list (string * Image)) : list (string * Image) :=
  limit_cache_size (Dict.set String.eqb key extension c).

Section Extender.
Context {IM : Imaging}.

Local Open Scope py_scope.

(** [int(255 * (1 - y / edge_height))], line 258: a division, a
    subtraction and a product of floats, then the truncation.  The line runs
    for [y] in [range(edge_height)] only, so the divisor is not 0. *)
Definition gradient_alpha (y edge_height : Z) : Z :=
  float.int (float.mul 255 (float.sub 1 (float.truediv y edge_height))).

(** Lines 256-260: the gradient mask, written sample by sample. *)
Definition gradient_mask (w edge_height : Z) : result Band :=
  mask <- PIL.new_L w edge_height x00 ;;
  List.fold_left
    (fun acc y =>
       List.fold_left
         (fun acc' x =>
            m <- acc' ;;
            PIL.putpixel_L m x y (saturate_u8 (gradient_alpha y edge_height)))
         (range w) acc)
    (range edge_height) (Ok mask).

(** [_fallback_extension(self, image, position, width, extension_height)]:
    it reads and writes no attribute of [self]. *)
Definition _fallback_extension (image : Image) (pos : position)
  (w extension_height : Z) : result Image :=
  let edge_height := Z.min (extension_height * 2) (height image / 3) in
  edge <- (match pos with
           | bottom => PIL.crop image 0 (height image - edge_height)
                                w (height image)
           | top => PIL.crop image 0 0 w edge_height
           end) ;;
  let reflection := PIL.transpose_FLIP_TOP_BOTTOM edge in
  let reflection := filter_GaussianBlur 3 reflection in
  mask <- gradient_mask w edge_height ;;
  reflection <- PIL.putalpha reflection mask ;;
  let pixels := np.reshape_pixels edge in
  avg <- np.int_mean_axis0 pixels ;;
  let '(c0, c1, c2) := avg in
  let avg_color := (saturate_u8 c0, saturate_u8 c1, saturate_u8 c2) in
  extension <- PIL.new w extension_height avg_color ;;
  if edge_height <? extension_height then
    let y_offset := (extension_height - edge_height) / 2 in
    paste_mask extension reflection 0 y_offset (PIL.getchannel_A reflection)
  else
    reflection <- PIL.crop_A reflection 0 0 w extension_height ;;
    paste_mask extension reflection 0 0 (PIL.getchannel_A reflection).

(** The method [_stable_diffusion_outpaint] as [_generate_ai_extension] sees
    it: the number of calls made before, the arguments, and either the image
    it returns or the exception it raises.  The method of the repository is
    [_stable_diffusion_outpaint] below; a test double is any other value. *)
Definition generator : Type :=
  nat -> Image -> position -> Z -> Z -> result Image.

Variable outpaint : generator.

(** Line 120: the strip of the image that is fingerprinted, its last 20 rows
    for a bottom extension and its first 20 rows otherwise. *)
Definition edge_region_of (image : Image) (pos : position) (w : Z)
  : result Image :=
  match pos with
  | bottom => PIL.crop image 0 (Z.max 0 (height image - 20)) w (height image)
  | top => PIL.crop image 0 0 w (Z.min 20 (height image))
  end.

(** Lines 120-122: the cache key of a request. *)
Definition request_key (image : Image) (pos : position)
  (w extension_height : Z) : result string :=
  edge_region <- edge_region_of image pos w ;;
  Ok (cache_key_of pos w extension_height (np.sum edge_region)).

(** [_generate_ai_extension(self, image, position, width, extension_height)].
    The object is returned as the call leaves it, also when the call raises. *)
Definition _generate_ai_extension (self : AIImageExtender) (image : Image)
  (pos : position) (w extension_height : Z)
  : result Image * AIImageExtender :=
  if (extension_height <=? 0) || (w <=? 0) then
    (PIL.new w (Z.max 1 extension_height) black, self)
  else
    match request_key image pos w extension_height with
    | Raise e => (Raise e, self)
    | Ok cache_key =>
        match Dict.get String.eqb cache_key (extension_cache self) with
        | Some cached => (Ok cached, count_hit self)
        | None =>
            let self := count_miss self in
            if negb (token_set self) then
              (* the [return] inside [try]; what it raises is caught *)
              (try_except
                 (_fallback_extension image pos w extension_height)
                 (fun _ => _fallback_extension image pos w extension_height),
               self)
            else
              let n := generation_calls self in
              let self := count_generation self in
              match outpaint n image pos w extension_height with
              | Ok extension =>
                  (Ok extension,
                   with_cache self
                     (cache_put cache_key extension (extension_cache self)))
              | Raise _ =>
                  (_fallback_extension image pos w extension_height, self)
              end
        end
    end.

(** An extension request, and a run of requests against one extender, each
    caller going on whatever the previous request returned or raised. *)
Record request : Type := mkRequest {
  req_image : Image;
  req_position : position;
  req_width : Z;
  req_height : Z
}.

Definition serve_one (self : AIImageExtender) (r : request)
  : result Image * AIImageExtender :=
  _generate_ai_extension self (req_image r) (req_position r) (req_width r)
                         (req_height r).

Definition serve (self : AIImageExtender) (rs : list request)
  : AIImageExtender :=
  List.fold_left (fun s r => snd (serve_one s r)) rs self.

(** [analyze_frame_and_extend(self, image)] *)
Definition analyze_frame_and_extend (self : AIImageExtender) (image : Image)
  : result Image * AIImageExtender :=
  let w := width image in
  let h := height image in
  let target_width := w in
  let target_height := target_height_of w in
  let total_extension := target_height - h in
  let top_extension := total_extension / 2 in
  let bottom_extension := total_extension - top_extension in
  match PIL.new target_width target_height black with
  | Raise e => (Raise e, self)
  | Ok new_img =>
      let y_offset := top_extension in
      let new_img := PIL.paste new_img image 0 y_offset in
      match _generate_ai_extension self image top target_width top_extension with
      | (Raise e, self) => (Raise e, self)
      | (Ok top_ext, self) =>
          let new_img := PIL.paste new_img top_ext 0 0 in
          match _generate_ai_extension self image bottom target_width
                                       bottom_extension with
          | (Raise e, self) => (Raise e, self)
          | (Ok bottom_ext, self) =>
              let new_img := PIL.paste new_img bottom_ext 0 (y_offset + h) in
              (Ok new_img, self)
          end
      end
  end.

End Extender.

(** *** The hosted generator *)

(** What [replicate.run] returns: an object with a [url] method, a list of
    URLs, or anything else. *)
Inductive sd_output : Type :=
| FileOutput (url : string)
| UrlList (urls : list string)
| OtherOutput.

(** The network, as far as [_stable_diffusion_outpaint] uses it: the model
    call (by call number and prompt), the download of a URL, and the decoding
    of the downloaded bytes into an image. *)
Record Network : Type := mkNetwork {
  replicate_run : nat -> string -> result sd_output;
  requests_get : string -> result (list byte);
  Image_open : list byte -> result Image
}.

(** [_generate_prompt_from_image]: the channel means are compared, which for
    one image is the comparison of the channel sums. *)
Definition _generate_prompt_from_image (image : Image) (pos : position)
  : string :=
  let ps := np.reshape_pixels image in
  let r := np.channel_sum np.chan0 ps in
  let g := np.channel_sum np.chan1 ps in
  let b := np.channel_sum np.chan2 ps in
  match pos with
  | top =>
      if (r <? b) && (g <? b) then
        "beautiful sky, fluffy white clouds, atmospheric lighting, cinematic, photorealistic"
      else if (r <? g) && (b <? g) then
        "lush green landscape, rolling hills, natural environment, cinematic, photorealistic"
      else
        "natural landscape extension, seamless continuation, photorealistic, cinematic quality"
  | bottom =>
      if (r <? g) && (b <? g) then
        "lush green grass, natural ground, earth tones, photorealistic, cinematic"
      else if (g <? r) && (b <? r) then
        "natural earth, ground texture, warm tones, photorealistic, cinematic"
      else
        "natural ground extension, seamless continuation, photorealistic, cinematic quality"
  end.

(** [io.BytesIO(content)] at lines 186 and 190.  The module binds [os],
    [replicate], [np], [Image], [ImageFilter], [cv2] and [time]; [io] is
    imported inside [_pil_to_bytes] only, where it is a local name of that
    function.  Evaluating the name [io] in [_stable_diffusion_outpaint]
    therefore raises [NameError]. *)
Definition io_BytesIO (content : list byte) : result (list byte) :=
  Raise NameError.

Section Hosted.
Context {IM : Imaging}.
Variable net : Network.
Local Open Scope py_scope.

(** [_stable_diffusion_outpaint(self, image, position, width,
    extension_height)], for an object whose token has truth value
    [token_ok], at its call number [n].  The PNG bytes of line 163 are
    computed and not used. *)
Definition _stable_diffusion_outpaint (token_ok : bool) (n : nat)
  (image : Image) (pos : position) (w extension_height : Z) : result Image :=
  if negb token_ok then Raise (Exception_ "No API token provided")
  else
    let prompt := _generate_prompt_from_image image pos in
    output <- replicate_run net n prompt ;;
    generated_image <-
      (match output with
       | FileOutput image_url =>
           response <- requests_get net image_url ;;
           buffer <- io_BytesIO response ;;
           Image_open net buffer
       | UrlList (first :: _) =>
           response <- requests_get net first ;;
           buffer <- io_BytesIO response ;;
           Image_open net buffer
       | _ => Raise (Exception_ "No output from Stable Diffusion")
       end) ;;
    resize_LANCZOS generated_image w extension_height.

End Hosted.

(* ================================================================= *)
(** ** video_processing.py: class VideoProcessor *)

(** The two entry points are modelled from the decoded frames to the frames
    handed to the video writer.  Opening the capture and the writer (both
    raise [ValueError] when they fail), file names, the frame rate and the
    final transcoding by ffmpeg, whose failure is only logged, are input and
    output around that and are left out. *)

(** A decoded video: the frame size reported by the capture and the frames
    read from it, each an array of that size in BGR order. *)
Record Video : Type := mkVideo {
  frame_width : Z;
  frame_height : Z;
  frame_data : list (Z -> Z -> pixel)
}.

Definition original_frames (v : Video) : list Image :=
  List.map (mkImage (frame_width v) (frame_height v)) (frame_data v).

(** How the second pass of the keyframe mode produced a frame. *)
Inductive branch : Type :=
| Keyframe
| Blended
| NearestFallback.

(** [video_writer.write(frame)]: a writer opened for one frame size takes
    frames of that size and drops any other. *)
Definition writer_write {A} (w h : Z) (written : list (A * Image))
  (tag : A) (frame : Image) : list (A * Image) :=
  if (width frame =? w) && (height frame =? h)
  then written ++ [(tag, frame)]
  else written.

Section VideoProcessor.
Context {IM : Imaging}.
Variable outpaint : generator.
Local Open Scope py_scope.

(** The temporary directory of [process_video]: the file
    [frame_{frame_idx:06d}.jpg] is named by its frame index and holds the
    picture that reading it gives. *)
Definition tempdir : Type := list (Z * Image).

(** The loop of lines 46-63 from one frame on: the frame paths appended so
    far, the files, and the extender. *)
Fixpoint process_frames (sample_rate : Z) (items : list (Z * Image))
  (processed_frames : list Z) (files : tempdir) (ext : AIImageExtender)
  : result (list Z * tempdir) * AIImageExtender :=
  match items with
  | [] => (Ok (processed_frames, files), ext)
  | (frame_idx, frame) :: rest =>
      match mod_ frame_idx sample_rate with
      | Raise e => (Raise e, ext)
      | Ok r =>
          if r =? 0 then
            let pil_frame := cv2.cvtColor frame in
            match analyze_frame_and_extend outpaint ext pil_frame with
            | (Raise e, ext) => (Raise e, ext)
            | (Ok extended_frame, ext) =>
                let files :=
                  Dict.set Z.eqb frame_idx (jpeg_roundtrip extended_frame)
                           files in
                process_frames sample_rate rest
                  (processed_frames ++ [frame_idx]) files ext
            end
          else
            match List.last (List.map Some processed_frames) None with
            | Some last_frame_path =>
                match Dict.get Z.eqb last_frame_path files with
                | None => (Raise OSError, ext)
                | Some content =>
                    let files := Dict.set Z.eqb frame_idx content files in
                    process_frames sample_rate rest
                      (processed_frames ++ [frame_idx]) files ext
                end
            | None => process_frames sample_rate rest processed_frames files ext
            end
      end
  end.

(** [_frames_to_video(frame_paths, output_path, fps, dimensions)]: the
    frames handed to the writer, in order. *)
Fixpoint _frames_to_video (frame_paths : list Z) (files : tempdir)
  (w h : Z) : list Image :=
  match frame_paths with
  | [] => []
  | frame_path :: rest =>
      match Dict.get Z.eqb frame_path files with
      | None => _frames_to_video rest files w h
      | Some picture =>
          let img := cv2.cvtColor picture in
          let img :=
            if negb ((height img =? h) && (width img =? w))
            then cv2_resize img w h else img in
          img :: _frames_to_video rest files w h
      end
  end.

(** [process_video(self, video_path, fps, sample_rate)] on an opened video:
    the frames of the output video. *)
Definition process_video (ext : AIImageExtender) (v : Video)
  (sample_rate : Z) : result (list Image) * AIImageExtender :=
  let w := frame_width v in
  let target_height := target_height_of w in
  let frames := original_frames v in
  let items := List.combine (range (Z.of_nat (List.length frames))) frames in
  match process_frames sample_rate items [] [] ext with
  | (Raise e, ext) => (Raise e, ext)
  | (Ok (processed_frames, files), ext) =>
      (Ok (_frames_to_video processed_frames files w target_height), ext)
  end.

(** First pass of [process_video_keyframes], lines 157-167. *)
Fixpoint process_keyframes (all_frames : list Image) (indices : list Z)
  (keyframes : list (Z * Image)) (ext : AIImageExtender)
  : result (list (Z * Image)) * AIImageExtender :=
  match indices with
  | [] => (Ok keyframes, ext)
  | frame_idx :: rest =>
      match List.nth_error all_frames (Z.to_nat frame_idx) with
      | None => (Raise IndexError, ext)
      | Some frame =>
          let pil_frame := cv2.cvtColor frame in
          match analyze_frame_and_extend outpaint ext pil_frame with
          | (Raise e, ext) => (Raise e, ext)
          | (Ok extended_frame, ext) =>
              process_keyframes all_frames rest
                (Dict.set Z.eqb frame_idx (cv2.cvtColor extended_frame)
                          keyframes) ext
          end
      end
  end.

(** [prev_keyframe_idx] and [next_keyframe_idx] of lines 177-182. *)
Definition prev_keyframe_idx (frame_idx keyframe_interval : Z) : Z :=
  (frame_idx / keyframe_interval) * keyframe_interval.

Definition next_keyframe_idx (frame_idx keyframe_interval total_frames : Z)
  : Z :=
  let prev := prev_keyframe_idx frame_idx keyframe_interval in
  let next := prev + keyframe_interval in
  if next >=? total_frames then prev else next.

(** [blend_factor] of lines 189-192: the float quotient of two integers,
    or the integer 0. *)
Definition blend_factor (frame_idx prev next : Z) : Q :=
  if next >? prev
  then float.truediv (frame_idx - prev) (next - prev)
  else 0%Q.

(** The body of the second loop, lines 173-200: the frame written for
    [frame_idx] and the branch that produced it. *)
Definition output_frame (keyframes : list (Z * Image))
  (keyframe_interval total_frames frame_idx : Z) : result (branch * Image) :=
  if Dict.mem Z.eqb frame_idx keyframes then
    f <- Dict.getitem Z.eqb frame_idx keyframes ;;
    Ok (Keyframe, f)
  else
    _ <- floordiv frame_idx keyframe_interval ;;
    let prev := prev_keyframe_idx frame_idx keyframe_interval in
    let next := next_keyframe_idx frame_idx keyframe_interval total_frames in
    if Dict.mem Z.eqb prev keyframes && Dict.mem Z.eqb next keyframes then
      prev_frame <- Dict.getitem Z.eqb prev keyframes ;;
      next_frame <- Dict.getitem Z.eqb next keyframes ;;
      let t := blend_factor frame_idx prev next in
      blended_frame <-
        cv2.addWeighted prev_frame (float.sub 1 t) next_frame t 0%Q ;;
      Ok (Blended, blended_frame)
    else
      let nearest_keyframe :=
        if Dict.mem Z.eqb prev keyframes then prev else next in
      f <- Dict.getitem Z.eqb nearest_keyframe keyframes ;;
      Ok (NearestFallback, f).

(** Second pass, lines 172-200: what the writer, opened for [w] by [h], has
    taken after the loop ran over [indices]. *)
Fixpoint write_frames (keyframes : list (Z * Image))
  (keyframe_interval total_frames w h : Z) (indices : list Z)
  (written : list (branch * Image)) : result (list (branch * Image)) :=
  match indices with
  | [] => Ok written
  | frame_idx :: rest =>
      r <- output_frame keyframes keyframe_interval total_frames frame_idx ;;
      write_frames keyframes keyframe_interval total_frames w h rest
        (writer_write w h written (fst r) (snd r))
  end.

(** [process_video_keyframes(self, video_path, keyframe_interval)] on an
    opened video: the frames of the output video, each with the branch of
    the second pass that wrote it. *)
Definition process_video_keyframes (ext : AIImageExtender) (v : Video)
  (keyframe_interval : Z) : result (list (branch * Image)) * AIImageExtender :=
  let w := frame_width v in
  let target_height := target_height_of w in
  let all_frames := original_frames v in
  let total_frames := Z.of_nat (List.length all_frames) in
  match range3 0 total_frames keyframe_interval with
  | Raise e => (Raise e, ext)
  | Ok indices =>
      match process_keyframes all_frames indices [] ext with
      | (Raise e, ext) => (Raise e, ext)
      | (Ok keyframes, ext) =>
          (write_frames keyframes keyframe_interval total_frames w
             target_height (range total_frames) [], ext)
      end
  end.

End VideoProcessor.

(** The generator of a running [AIImageExtender]: [_generate_ai_extension]
    calls the method only when the token is true, so the method finds it
    true as well. *)
Definition repository_generator {IM : Imaging} (net : Network) : generator :=
  _stable_diffusion_outpaint net true.

(* ================================================================= *)
(** ** main.py: the upload filter *)

(** File names are strings of code points below 256. *)
Module main.

(** [ALLOWED_EXTENSIONS] *)
Definition ALLOWED_EXTENSIONS : list string :=
  ["mp4"%string; "mov"%string; "avi"%string; "webm"%string].

(** [c in s] for a one-character string [c] *)
Fixpoint contains (c : ascii) (s : string) : bool :=
  match s with
  | EmptyString => false
  | String a rest => Ascii.eqb a c || contains c rest
  end.

(** The split of [s.rsplit(sep, 1)] at the last occurrence of [sep], if
    there is one. *)
Fixpoint rsplit_once (sep : ascii) (s : string) : option (string * string) :=
  match s with
  | EmptyString => None
  | String a rest =>
      match rsplit_once sep rest with
      | Some (before, after) => Some (String a before, after)
      | None => if Ascii.eqb a sep then Some (EmptyString, rest) else None
      end
  end.

(** [s.rsplit(sep, 1)] *)
Definition rsplit (sep : ascii) (s : string) : list string :=
  match rsplit_once sep s with
  | Some (before, after) => [before; after]
  | None => [s]
  end.

(** [l[i]] *)
Definition getitem {A} (l : list A) (i : nat) : result A :=
  match List.nth_error l i with
  | Some a => Ok a
  | None => Raise IndexError
  end.

(** [str.lower()]: below 256 the upper-case letters are A to Z and the
    code points 192 to 222 without the multiplication sign 215. *)
Definition lower_char (c : ascii) : ascii :=
  let n := N_of_ascii c in
  if ((65 <=? n) && (n <=? 90)
      || (192 <=? n) && (n <=? 222) && negb (n =? 215))%N
  then ascii_of_N (n + 32)
  else c.

Fixpoint lower (s : string) : string :=
  match s with
  | EmptyString => EmptyString
  | String a rest => String (lower_char a) (lower rest)
  end.

(** [allowed_file(filename)] *)
Definition allowed_file (filename : string) : result bool :=
  if contains "."%char filename then
    Py.bind (getitem (rsplit "."%char filename) 1) (fun ext =>
    Ok (List.existsb (String.eqb (lower ext)) ALLOWED_EXTENSIONS))
  else Ok false.

End main.

(* ================================================================= *)
(** ** Invariants and predicates used by the properties *)

(** The extension cache holds distinct keys and at most 50 entries. *)
Definition cache_inv (c : list (string * Image)) : Prop :=
  NoDup (Dict.keys c) /\ Dict.len c <= 50.

(** A request that asks for a patch of positive size. *)
Definition positive_request (r : request) : bool :=
  (0 <? req_width r) && (0 <? req_height r).

(** Every frame path appended so far names a file of the directory. *)
Definition files_cover (processed : list Z) (files : list (Z * Image)) : Prop :=
  Forall (fun p => Dict.get Z.eqb p files <> None) processed.

(** Every stored keyframe has the output size. *)
Definition keyframes_sized (w h : Z) (keyframes : list (Z * Image)) : Prop :=
  forall k f, Dict.get Z.eqb k keyframes = Some f ->
              width f = w /\ height f = h.

(** The keys are the multiples of the interval below the frame count. *)
Definition keyframes_at_multiples (keyframe_interval total_frames : Z)
  (keyframes : list (Z * Image)) : Prop :=
  forall k, Dict.mem Z.eqb k keyframes = true
            <-> 0 <= k < total_frames /\ k mod keyframe_interval = 0.

(* ================================================================= *)
(** ** Test doubles *)

Module Fixtures.

(** A weighted sum evaluated without rounding error and cast to 8 bits with
    ties to even. *)
Definition plain_add_weighted (a : u8) (alpha : Q) (b : u8) (beta gamma : Q)
  : u8 :=
  saturate_u8
    (float.round_half_even
       (inject_Z (u8_val a) * alpha + inject_Z (u8_val b) * beta + gamma)%Q).

Definition plain_add_weighted_accurate (a b : u8) (alpha beta : Q) :
  (0 <= alpha <= 1)%Q -> (0 <= beta <= 1)%Q ->
  (inject_Z (u8_val a) * alpha + inject_Z (u8_val b) * beta
   <= 255 + (1 # 4))%Q ->
  (Qabs (inject_Z (u8_val (plain_add_weighted a alpha b beta 0))
         - (inject_Z (u8_val a) * alpha + inject_Z (u8_val b) * beta))
   <= (1 # 2) + (1 # 1024))%Q.
Proof.
  intros [A0 A1] [B0 B1] Hv. unfold plain_add_weighted.
  assert (Ha : (0 <= inject_Z (u8_val a))%Q)
    by (rewrite <- (Zle_Qle 0); apply N2Z.is_nonneg).
  assert (Hb : (0 <= inject_Z (u8_val b))%Q)
    by (rewrite <- (Zle_Qle 0); apply N2Z.is_nonneg).
  assert (Pa : (0 <= inject_Z (u8_val a) * alpha)%Q)
    by (apply Qmult_le_0_compat; assumption).
  assert (Pb : (0 <= inject_Z (u8_val b) * beta)%Q)
    by (apply Qmult_le_0_compat; assumption).
  set (u := (inject_Z (u8_val a) * alpha + inject_Z (u8_val b) * beta)%Q)
    in *.
  assert (U0 : (0 <= u)%Q) by (unfold u; lra).
  clearbody u.
  set (r := float.round_half_even (u + 0)).
  assert (Hnear : (inject_Z r - (1 # 2) <= u /\ u <= inject_Z r + (1 # 2))%Q).
  { unfold r, float.round_half_even.
    pose proof (Qfloor_le (u + 0)) as F1. pose proof (Qlt_floor (u + 0)) as F2.
    rewrite inject_Z_plus in F2. change (inject_Z 1) with 1%Q in F2.
    destruct (Qcompare_spec (u + 0 - inject_Z (Qfloor (u + 0))) (1 # 2))
      as [E|L|G].
    - destruct (Z.even (Qfloor (u + 0)));
        [|rewrite inject_Z_plus; change (inject_Z 1) with 1%Q]; split; lra.
    - split; lra.
    - rewrite inject_Z_plus. change (inject_Z 1) with 1%Q. split; lra. }
  destruct Hnear as [N1 N2].
  assert (Hr : 0 <= r <= 255).
  { split.
    - assert (L : (inject_Z (-1) < inject_Z r)%Q)
        by (change (inject_Z (-1)) with (-1 # 1)%Q; lra).
      rewrite <- Zlt_Qlt in L. lia.
    - assert (L : (inject_Z r < inject_Z 256)%Q)
        by (change (inject_Z 256) with (256 # 1)%Q; lra).
      rewrite <- Zlt_Qlt in L. lia. }
  assert (E : u8_val (saturate_u8 r) = r).
  { unfold saturate_u8, u8_val.
    rewrite Z.min_r, Z.max_r by lia.
    destruct (Byte.of_N (Z.to_N r)) as [c|] eqn:Ec.
    - apply Byte.to_of_N in Ec. rewrite Ec. lia.
    - apply Byte.of_N_None_iff in Ec. lia. }
  rewrite E. apply Qabs_Qle_condition. split; lra.
Qed.

(** An imaging back end with the simplest pixel arithmetic: no blur, a mask
    that selects the pasted pixel from 128 on, nearest-neighbour resizing, a
    lossless codec and an exact weighted sum. *)
#[export] Instance plain_imaging : Imaging := {
  gaussian_blur_px := fun _ im x y => getpixel im x y;
  composite_px := fun below pasted m =>
                    if 128 <=? u8_val m then pasted else below;
  resize_px := fun im w h x y =>
                 getpixel im (x * width im / Z.max 1 w)
                             (y * height im / Z.max 1 h);
  jpeg_px := fun im x y => getpixel im x y;
  lanczos_px := fun im w h x y =>
                  getpixel im (x * width im / Z.max 1 w)
                              (y * height im / Z.max 1 h);
  add_weighted_px := plain_add_weighted;
  add_weighted_accurate := plain_add_weighted_accurate
}.

(** A generator that raises at every call. *)
Definition failing_generator : generator :=
  fun _ _ _ _ _ => Raise (Exception_ "backend unavailable").

(** A generator that returns a black patch of the requested size. *)
Definition stub_generator : generator :=
  fun _ _ _ w h => PIL.new w h black.

(** A frame of one colour. *)
Definition flat (w h : Z) (v : u8) : Image :=
  mkImage w h (fun _ _ => (v, v, v)).

(** A video of flat frames, one per sample value. *)
Definition flat_video (w h : Z) (vs : list u8) : Video :=
  mkVideo w h (List.map (fun v => fun _ _ => (v, v, v)) vs).

(** A network on which every call succeeds: the model answers with one
    URL, the download gives bytes, and the bytes decode to a black
    1024 by 1024 picture. *)
Definition friendly_network : Network :=
  mkNetwork (fun _ _ => Ok (FileOutput "https://example.invalid/out.png"))
            (fun _ => Ok [x89; x50; x4e; x47])
            (fun _ => PIL.new 1024 1024 black).

(** Fifty requests with fifty different keys: the same 4 by 3 frame, bottom
    patches of heights 1 to 50. *)
Definition fifty_requests : list request :=
  List.map (fun k => mkRequest (flat 4 3 x80) bottom 4 (Z.of_nat k))
           (List.seq 1 50).

(** A video of fifty 9 by 3 frames, frame [j] of sample value [j]. *)
Definition fifty_frames : Video :=
  flat_video 9 3 (List.map (fun j => saturate_u8 (Z.of_nat j)) (List.seq 0 50)).

(** A video of five 9 by 3 frames. *)
Definition five_frames : Video :=
  flat_video 9 3 [x00; x20; x40; x60; x80].

(** The branch that wrote frame [i] of an output and its pixel at column [x]
    of row [y]. *)
Definition pixel_at (r : result (list (branch * Image))) (i : nat) (x y : Z)
  : option (branch * pixel) :=
  match r with
  | Ok out =>
      match List.nth_error out i with
      | Some (b, f) => Some (b, getpixel f x y)
      | None => None
      end
  | Raise _ => None
  end.

End Fixtures.

(* ================================================================= *)
(** ** Properties *)

(** *** Integers, ranges *)

Lemma target_height_floor (w : Z) :
  0 <= w -> target_height_of w = w * 16 / 9.
Proof.
  intros Hw. unfold target_height_of. apply Z.quot_div_nonneg; lia.
Qed.

(** [round_div a b] is an integer nearest to [a / b]. *)
Lemma round_div_nearest (a b : Z) :
  0 <= a -> 0 < b -> Z.abs (2 * (b * round_div a b - a)) <= b.
Proof.
  intros Ha Hb. unfold round_div.
  pose proof (Z.div_mod (2 * a + b) (2 * b) ltac:(lia)) as E.
  pose proof (Z.mod_pos_bound (2 * a + b) (2 * b) ltac:(lia)) as B.
  nia.
Qed.

Lemma range_In (n x : Z) : In x (range n) <-> 0 <= x < n.
Proof.
  unfold range. rewrite in_map_iff. split.
  - intros (k & <- & Hk). apply in_seq in Hk. lia.
  - intros Hx. exists (Z.to_nat x). split; [lia|]. apply in_seq. lia.
Qed.

Lemma range_length (n : Z) : List.length (range n) = Z.to_nat n.
Proof. unfold range. now rewrite length_map, length_seq. Qed.

Lemma range_nth_error (n : Z) (i : nat) :
  (i < Z.to_nat n)%nat -> nth_error (range n) i = Some (Z.of_nat i).
Proof.
  intros Hi. unfold range. rewrite nth_error_map.
  rewrite (nth_error_nth' _ 0%nat) by now rewrite length_seq.
  rewrite seq_nth by assumption. reflexivity.
Qed.

(** For a positive step, [range(0, stop, step)] is the multiples of the step
    below [stop]. *)
Lemma range3_In (stop step : Z) (l : list Z) (x : Z) :
  0 < step -> range3 0 stop step = Ok l ->
  (In x l <-> 0 <= x < stop /\ x mod step = 0).
Proof.
  intros Hs. unfold range3.
  destruct (Z.eqb_spec step 0) as [|_]; [lia|].
  destruct (Z.ltb_spec 0 step) as [_|]; [|lia].
  intros [= <-]. rewrite in_map_iff. split.
  - intros (k & <- & Hk). apply in_seq in Hk.
    assert (Hc : Z.of_nat k < (stop - 0 + step - 1) / step) by
      (destruct (Z.le_gt_cases ((stop - 0 + step - 1) / step) 0); lia).
    assert (Z.of_nat k * step < stop).
    { apply Z.lt_le_pred in Hc.
      assert (step * (Z.of_nat k + 1) <= stop - 0 + step - 1).
      { etransitivity; [|apply (Z.mul_div_le _ step); lia].
        apply Z.mul_le_mono_nonneg_l; lia. }
      lia. }
    split; [split; [lia|lia]|].
    replace (0 + Z.of_nat k * step) with (Z.of_nat k * step) by lia.
    apply Z.mod_mul. lia.
  - intros (Hx & Hm). exists (Z.to_nat (x / step)).
    apply Z.mod_divide in Hm; [|lia]. destruct Hm as (q & ->).
    rewrite Z.div_mul by lia.
    assert (0 <= q) by nia.
    split; [lia|]. apply in_seq. split; [lia|].
    assert (q + 1 <= (stop - 0 + step - 1) / step).
    { apply Z.div_le_lower_bound; [lia|]. nia. }
    lia.
Qed.

(** *** Floats *)

Section FloatFacts.
Local Open Scope Q_scope.

Lemma pow2_pos (k : Z) : 0 < 2 ^ k.
Proof. apply Qpower_0_lt. reflexivity. Qed.

Lemma pow2_succ (k : Z) : 2 ^ (k + 1) == 2 * 2 ^ k.
Proof. rewrite Qpower_plus by discriminate. rewrite Qpower_1_r. ring. Qed.

Lemma pow2_Z (n : Z) : (0 <= n)%Z -> inject_Z (2 ^ n) == 2 ^ n.
Proof. intros H. rewrite Zpower_Qpower by exact H. reflexivity. Qed.

(** [ilog2 x] is the exponent of the power of two at or below [x]. *)
Lemma ilog2_spec (x : Q) :
  0 < x -> 2 ^ float.ilog2 x <= x /\ x < 2 ^ (float.ilog2 x + 1).
Proof.
  intros Hx. destruct x as [n d].
  assert (Hn : (0 < n)%Z) by (unfold Qlt in Hx; simpl in Hx; lia).
  unfold float.ilog2. cbn [Qnum Qden].
  set (a := Z.log2 n). set (b := Z.log2 (Z.pos d)).
  destruct (Z.log2_spec n Hn) as [Ha1 Ha2]. fold a in Ha1, Ha2.
  destruct (Z.log2_spec (Z.pos d) ltac:(lia)) as [Hb1 Hb2].
  fold b in Hb1, Hb2.
  assert (Ha0 : (0 <= a)%Z) by apply Z.log2_nonneg.
  assert (Hb0 : (0 <= b)%Z) by apply Z.log2_nonneg.
  pose proof (pow2_pos a) as PA. pose proof (pow2_pos b) as PB.
  pose proof (pow2_pos (a - b)) as PK.
  assert (EK : 2 ^ (a - b) * 2 ^ b == 2 ^ a).
  { rewrite <- Qpower_plus by discriminate.
    now replace (a - b + b)%Z with a by lia. }
  assert (N1 : 2 ^ a <= inject_Z n)
    by (rewrite <- pow2_Z by lia; rewrite <- Zle_Qle; exact Ha1).
  assert (N2 : inject_Z n < 2 * 2 ^ a).
  { rewrite <- pow2_succ, <- pow2_Z by lia. rewrite <- Zlt_Qlt.
    now replace (a + 1)%Z with (Z.succ a) by lia. }
  assert (D1 : 2 ^ b <= inject_Z (Z.pos d))
    by (rewrite <- pow2_Z by lia; rewrite <- Zle_Qle; exact Hb1).
  assert (D2 : inject_Z (Z.pos d) < 2 * 2 ^ b).
  { rewrite <- pow2_succ, <- pow2_Z by lia. rewrite <- Zlt_Qlt.
    now replace (b + 1)%Z with (Z.succ b) by lia. }
  assert (EX : (n # d) * inject_Z (Z.pos d) == inject_Z n).
  { rewrite (Qmake_Qdiv n d). field. discriminate. }
  set (x := n # d) in *. set (N := inject_Z n) in *.
  set (D := inject_Z (Z.pos d)) in *.
  set (A := 2 ^ a) in *. set (B := 2 ^ b) in *. set (K := 2 ^ (a - b)) in *.
  destruct (Qle_bool K x) eqn:E.
  - apply Qle_bool_iff in E. split; [exact E|].
    rewrite pow2_succ. fold K.
    destruct (Qlt_le_dec x (2 * K)) as [|G]; [assumption|exfalso]. nra.
  - assert (L : x < K).
    { destruct (Qlt_le_dec x K) as [|G]; [assumption|].
      apply Qle_bool_iff in G. congruence. }
    replace (a - b - 1 + 1)%Z with (a - b)%Z by lia. split; [|exact L].
    assert (EK' : 2 * 2 ^ (a - b - 1) == K).
    { rewrite <- pow2_succ. unfold K.
      now replace (a - b - 1 + 1)%Z with (a - b)%Z by lia. }
    pose proof (pow2_pos (a - b - 1)) as PK'.
    set (K' := 2 ^ (a - b - 1)) in *.
    destruct (Qlt_le_dec x K') as [G|]; [exfalso|assumption]. nra.
Qed.

Lemma ilog2_unique (x : Q) (k : Z) :
  2 ^ k <= x -> x < 2 ^ (k + 1) -> float.ilog2 x = k.
Proof.
  intros H1 H2.
  assert (Hx : 0 < x) by (pose proof (pow2_pos k); lra).
  destruct (ilog2_spec x Hx) as [S1 S2].
  assert (L1 : (float.ilog2 x < k + 1)%Z).
  { apply (Qpower_lt_compat_l_inv 2); [lra|reflexivity]. }
  assert (L2 : (k < float.ilog2 x + 1)%Z).
  { apply (Qpower_lt_compat_l_inv 2); [lra|reflexivity]. }
  lia.
Qed.

Lemma ilog2_comp (x y : Q) : 0 < x -> x == y -> float.ilog2 x = float.ilog2 y.
Proof.
  intros Hx E. symmetry. destruct (ilog2_spec x Hx) as [S1 S2].
  apply ilog2_unique; rewrite <- E; assumption.
Qed.

Lemma ilog2_mono (x y : Q) :
  0 < x -> x <= y -> (float.ilog2 x <= float.ilog2 y)%Z.
Proof.
  intros Hx Hxy.
  destruct (ilog2_spec x Hx) as [S1 _].
  destruct (ilog2_spec y ltac:(lra)) as [_ T2].
  assert (L : (float.ilog2 x < float.ilog2 y + 1)%Z).
  { apply (Qpower_lt_compat_l_inv 2); [lra|reflexivity]. }
  lia.
Qed.

(** Rounding to an integer. *)
Lemma round_half_even_comp (q q' : Q) :
  q == q' -> float.round_half_even q = float.round_half_even q'.
Proof.
  intros E. unfold float.round_half_even. rewrite (Qfloor_comp _ _ E).
  assert (E' : q - inject_Z (Qfloor q') == q' - inject_Z (Qfloor q'))
    by (rewrite E; reflexivity).
  rewrite (Qcompare_comp _ _ E' (1 # 2) (1 # 2) (Qeq_refl _)).
  reflexivity.
Qed.

Lemma round_half_even_near (v : Q) :
  inject_Z (float.round_half_even v) - (1 # 2) <= v
  /\ v <= inject_Z (float.round_half_even v) + (1 # 2).
Proof.
  unfold float.round_half_even.
  pose proof (Qfloor_le v) as F1. pose proof (Qlt_floor v) as F2.
  rewrite inject_Z_plus in F2. change (inject_Z 1) with 1 in F2.
  destruct (Qcompare_spec (v - inject_Z (Qfloor v)) (1 # 2)) as [E|L|G].
  - destruct (Z.even (Qfloor v));
      [|rewrite inject_Z_plus; change (inject_Z 1) with 1]; split; lra.
  - split; lra.
  - rewrite inject_Z_plus. change (inject_Z 1) with 1. split; lra.
Qed.

Lemma round_half_even_between (v : Q) (lo hi : Z) :
  inject_Z lo <= v -> v <= inject_Z hi ->
  (lo <= float.round_half_even v <= hi)%Z.
Proof.
  intros Hlo Hhi. unfold float.round_half_even.
  assert (Hf1 : (lo <= Qfloor v)%Z).
  { rewrite <- (Qfloor_Z lo). now apply Qfloor_resp_le. }
  assert (Hf2 : (Qfloor v <= hi)%Z).
  { rewrite <- (Qfloor_Z hi). now apply Qfloor_resp_le. }
  destruct (Qcompare_spec (v - inject_Z (Qfloor v)) (1 # 2)) as [E|L|G];
    try lia.
  - assert (Hlt : (Qfloor v < hi)%Z).
    { destruct (Z.eq_dec (Qfloor v) hi) as [Eq|]; [|lia].
      exfalso. rewrite Eq in E. lra. }
    destruct (Z.even (Qfloor v)); lia.
  - assert (Hlt : (Qfloor v < hi)%Z).
    { destruct (Z.eq_dec (Qfloor v) hi) as [Eq|]; [|lia].
      exfalso. rewrite Eq in G. lra. }
    lia.
Qed.

Lemma round_half_even_mono (u v : Q) :
  u <= v -> (float.round_half_even u <= float.round_half_even v)%Z.
Proof.
  intros Huv.
  assert (Hf : (Qfloor u <= Qfloor v)%Z) by now apply Qfloor_resp_le.
  destruct (Z.eq_dec (Qfloor u) (Qfloor v)) as [E|N].
  - unfold float.round_half_even. rewrite E.
    destruct (Qcompare_spec (u - inject_Z (Qfloor v)) (1 # 2)) as [E1|L1|G1];
      destruct (Qcompare_spec (v - inject_Z (Qfloor v)) (1 # 2)) as [E2|L2|G2];
      try lia; try (exfalso; lra); destruct (Z.even (Qfloor v)); lia.
  - assert (H1 : (float.round_half_even u <= Qfloor u + 1)%Z).
    { apply round_half_even_between with (lo := Qfloor u).
      - apply Qfloor_le.
      - apply Qlt_le_weak, Qlt_floor. }
    assert (H2 : (Qfloor v <= float.round_half_even v)%Z).
    { apply round_half_even_between with (hi := (Qfloor v + 1)%Z).
      - apply Qfloor_le.
      - apply Qlt_le_weak, Qlt_floor. }
    lia.
Qed.

(** Rounding to binary64. *)
Lemma round_value (x : Q) :
  ~ x == 0 ->
  float.round x
  == inject_Z (float.round_half_even (x / 2 ^ float.exponent x))
     * 2 ^ float.exponent x.
Proof.
  intros Hx. unfold float.round.
  destruct (Qeq_bool x 0) eqn:E; [apply Qeq_bool_iff in E; contradiction|].
  cbv zeta. apply Qred_correct.
Qed.

Lemma round_0 (x : Q) : x == 0 -> float.round x = 0.
Proof.
  intros Hx. unfold float.round.
  destruct (Qeq_bool x 0) eqn:E; [reflexivity|].
  apply Qeq_bool_iff in Hx. congruence.
Qed.

Lemma Qabs_nonzero (x : Q) : ~ x == 0 -> 0 < Qabs x.
Proof.
  intros Hx. destruct (Qlt_le_dec 0 x) as [P|N].
  - rewrite Qabs_pos by lra. exact P.
  - rewrite Qabs_neg by exact N.
    destruct (Qeq_dec x 0); [contradiction|]. lra.
Qed.

Lemma exponent_comp (x y : Q) :
  ~ x == 0 -> x == y -> float.exponent x = float.exponent y.
Proof.
  intros Hx E. unfold float.exponent. f_equal. f_equal.
  apply ilog2_comp; [now apply Qabs_nonzero|now rewrite E].
Qed.

(** Equal rationals round to the same float, whatever their fractions. *)
Lemma round_comp (x y : Q) : x == y -> float.round x = float.round y.
Proof.
  intros E. destruct (Qeq_dec x 0) as [Z|NZ].
  - rewrite (round_0 x Z). symmetry. apply round_0. now rewrite <- E.
  - unfold float.round.
    destruct (Qeq_bool x 0) eqn:E1; [apply Qeq_bool_iff in E1; contradiction|].
    destruct (Qeq_bool y 0) eqn:E2;
      [apply Qeq_bool_iff in E2; rewrite <- E in E2; contradiction|].
    cbv zeta. rewrite <- (exponent_comp x y NZ E).
    apply Qred_complete.
    rewrite (round_half_even_comp (x / 2 ^ float.exponent x)
               (y / 2 ^ float.exponent x))
      by (unfold Qdiv; apply Qmult_comp; [exact E|reflexivity]).
    reflexivity.
Qed.

Lemma exponent_pos (x : Q) :
  0 < x -> float.exponent x = Z.max (float.ilog2 x - 52) (-1074).
Proof.
  intros Hx. unfold float.exponent. f_equal. f_equal.
  apply ilog2_comp; [rewrite Qabs_pos by lra; exact Hx|apply Qabs_pos; lra].
Qed.

Lemma scaled_error (M s p x : Q) :
  0 < p -> M - (1 # 2) <= s -> s <= M + (1 # 2) -> s * p == x ->
  Qabs (M * p - x) <= p / 2.
Proof.
  intros Hp H1 H2 E.
  assert (A1 : 0 <= (M + (1 # 2) - s) * p)
    by (apply Qmult_le_0_compat; lra).
  assert (A2 : 0 <= (s - (M - (1 # 2))) * p)
    by (apply Qmult_le_0_compat; lra).
  assert (E1 : (M + (1 # 2) - s) * p == M * p - s * p + p / 2) by field.
  assert (E2 : (s - (M - (1 # 2))) * p == p / 2 - (M * p - s * p)) by field.
  rewrite E1 in A1. rewrite E2 in A2.
  apply Qabs_Qle_condition. rewrite <- E. split; lra.
Qed.

Section Positive.
Variable x : Q.
Hypothesis Hx : 0 < x.

Lemma round_pos_value :
  float.round x
  == inject_Z (float.round_half_even (x / 2 ^ float.exponent x))
     * 2 ^ float.exponent x.
Proof. apply round_value. lra. Qed.

(** A float at or below a power of two is rounded at or below it. *)
Lemma round_pos_upper (j : Z) :
  (float.exponent x <= j)%Z -> x <= 2 ^ j -> float.round x <= 2 ^ j.
Proof.
  intros Hj Hxj. rewrite round_pos_value.
  pose proof (pow2_pos (float.exponent x)) as Pe.
  set (e := float.exponent x) in *.
  assert (Hs : x / 2 ^ e <= inject_Z (2 ^ (j - e))).
  { rewrite pow2_Z by lia. rewrite Qpower_minus by discriminate.
    apply Qmult_le_compat_r; [exact Hxj|]. apply Qinv_le_0_compat. lra. }
  assert (Hm : (float.round_half_even (x / 2 ^ e) <= 2 ^ (j - e))%Z).
  { apply (round_half_even_between _ (Qfloor (x / 2 ^ e)) _);
      [apply Qfloor_le|exact Hs]. }
  rewrite Zle_Qle in Hm. rewrite pow2_Z in Hm by lia.
  assert (E : 2 ^ (j - e) * 2 ^ e == 2 ^ j).
  { rewrite <- Qpower_plus by discriminate.
    now replace (j - e + e)%Z with j by lia. }
  rewrite <- E. apply Qmult_le_compat_r; [exact Hm|lra].
Qed.

Lemma round_pos_lower (j : Z) :
  (float.exponent x <= j)%Z -> 2 ^ j <= x -> 2 ^ j <= float.round x.
Proof.
  intros Hj Hxj. rewrite round_pos_value.
  pose proof (pow2_pos (float.exponent x)) as Pe.
  set (e := float.exponent x) in *.
  assert (Hs : inject_Z (2 ^ (j - e)) <= x / 2 ^ e).
  { rewrite pow2_Z by lia. rewrite Qpower_minus by discriminate.
    apply Qmult_le_compat_r; [exact Hxj|]. apply Qinv_le_0_compat. lra. }
  assert (Hm : (2 ^ (j - e) <= float.round_half_even (x / 2 ^ e))%Z).
  { apply (round_half_even_between _ _ (Qfloor (x / 2 ^ e) + 1));
      [exact Hs|apply Qlt_le_weak, Qlt_floor]. }
  rewrite Zle_Qle in Hm. rewrite pow2_Z in Hm by lia.
  assert (E : 2 ^ (j - e) * 2 ^ e == 2 ^ j).
  { rewrite <- Qpower_plus by discriminate.
    now replace (j - e + e)%Z with j by lia. }
  rewrite <- E. apply Qmult_le_compat_r; [exact Hm|lra].
Qed.

Lemma round_pos_nonneg : 0 <= float.round x.
Proof.
  rewrite round_pos_value.
  pose proof (pow2_pos (float.exponent x)) as Pe.
  set (e := float.exponent x) in *.
  assert (Hm : (0 <= float.round_half_even (x / 2 ^ e))%Z).
  { apply (round_half_even_between _ _ (Qfloor (x / 2 ^ e) + 1));
      [|apply Qlt_le_weak, Qlt_floor].
    apply Qle_shift_div_l; [exact Pe|]. change (inject_Z 0) with 0. lra. }
  rewrite Zle_Qle in Hm. apply Qmult_le_0_compat; [exact Hm|lra].
Qed.

(** The rounding error is at most half a unit in the last place. *)
Lemma round_pos_error :
  Qabs (float.round x - x) <= 2 ^ float.exponent x / 2.
Proof.
  rewrite round_pos_value.
  pose proof (pow2_pos (float.exponent x)) as Pe.
  destruct (round_half_even_near (x / 2 ^ float.exponent x)) as [N1 N2].
  assert (Ex : x / 2 ^ float.exponent x * 2 ^ float.exponent x == x)
    by (field; apply Qpower_not_0; discriminate).
  exact (scaled_error _ _ _ _ Pe N1 N2 Ex).
Qed.

End Positive.

Lemma round_nonneg (x : Q) : 0 <= x -> 0 <= float.round x.
Proof.
  intros Hx. destruct (Qeq_dec x 0) as [Z|NZ].
  - rewrite (round_0 x Z). lra.
  - apply round_pos_nonneg. lra.
Qed.

(** Rounding keeps the order. *)
Lemma round_mono (x y : Q) :
  0 <= x -> x <= y -> float.round x <= float.round y.
Proof.
  intros Hx Hxy. destruct (Qeq_dec x 0) as [Z|NZ].
  { rewrite (round_0 x Z). apply round_nonneg. lra. }
  assert (Px : 0 < x) by lra. assert (Py : 0 < y) by lra.
  pose proof (ilog2_mono x y Px Hxy) as Hk.
  pose proof (exponent_pos x Px) as Ex. pose proof (exponent_pos y Py) as Ey.
  destruct (ilog2_spec x Px) as [X1 X2]. destruct (ilog2_spec y Py) as [Y1 Y2].
  destruct (Z.eq_dec (float.exponent x) (float.exponent y)) as [E|N].
  - rewrite (round_pos_value x Px), (round_pos_value y Py), <- E.
    pose proof (pow2_pos (float.exponent x)) as Pe.
    apply Qmult_le_compat_r; [|lra]. rewrite <- Zle_Qle.
    apply round_half_even_mono.
    apply Qmult_le_compat_r; [exact Hxy|]. apply Qinv_le_0_compat. lra.
  - apply Qle_trans with (2 ^ float.ilog2 y).
    + apply round_pos_upper; [exact Px|lia|].
      apply Qle_trans with (2 ^ (float.ilog2 x + 1)); [lra|].
      apply Qpower_le_compat_l; [lia|lra].
    + apply round_pos_lower; [exact Py|lia|exact Y1].
Qed.

Lemma round_1 : float.round 1 = 1.
Proof. reflexivity. Qed.

Lemma round_255 : float.round 255 = 255.
Proof. reflexivity. Qed.

Lemma round_unit (x : Q) : 0 <= x <= 1 -> 0 <= float.round x <= 1.
Proof.
  intros [H0 H1]. split; [now apply round_nonneg|].
  apply Qle_trans with (float.round 1); [now apply round_mono|].
  rewrite round_1. lra.
Qed.

(** Between 0 and 1 the rounding error is at most [2^-53]. *)
Lemma round_unit_error (x : Q) :
  0 <= x <= 1 -> Qabs (float.round x - x) <= 1 # 9007199254740992.
Proof.
  intros [H0 H1]. destruct (Qeq_dec x 0) as [Z|NZ].
  { rewrite (round_0 x Z). rewrite Z. discriminate. }
  assert (Px : 0 < x) by lra.
  eapply Qle_trans; [apply round_pos_error; exact Px|].
  destruct (ilog2_spec x Px) as [X1 _].
  assert (Hk : (float.ilog2 x <= 0)%Z).
  { apply (Qpower_le_compat_l_inv 2); [|reflexivity].
    rewrite Qpower_0_r. lra. }
  assert (He : (float.exponent x <= -52)%Z)
    by (rewrite exponent_pos by exact Px; lia).
  assert (Hp : 2 ^ float.exponent x <= 2 ^ (-52))
    by (apply Qpower_le_compat_l; [exact He|lra]).
  assert (E52 : 2 ^ (-52) == 1 # 4503599627370496) by reflexivity.
  rewrite E52 in Hp.
  set (p := 2 ^ float.exponent x) in *.
  apply Qle_shift_div_r; [reflexivity|].
  eapply Qle_trans; [exact Hp|]. discriminate.
Qed.

(** On a float that is not negative [int] is the floor. *)
Lemma int_nonneg (x : Q) : 0 <= x -> float.int x = Qfloor x.
Proof.
  intros Hx. destruct x as [n d]. unfold float.int, Qfloor. cbn [Qnum Qden].
  apply Z.quot_div_nonneg; [|lia].
  unfold Qle in Hx. simpl in Hx. lia.
Qed.

End FloatFacts.

(** *** Dictionaries *)

Section DictFacts.
Context {K V : Type} (eqb : K -> K -> bool).
Hypothesis eqb_spec : forall a b, reflect (a = b) (eqb a b).

Lemma dict_get_None (k : K) (d : list (K * V)) :
  Dict.get eqb k d = None <-> ~ In k (Dict.keys d).
Proof.
  induction d as [|[k' v'] d IH]; simpl.
  - tauto.
  - destruct (eqb_spec k k') as [->|Hne].
    + split; [discriminate|]. intros H. exfalso. apply H. now left.
    + rewrite IH. split; [intros H [E|I]; [congruence|tauto]|tauto].
Qed.

Lemma dict_get_In (k : K) (v : V) (d : list (K * V)) :
  Dict.get eqb k d = Some v -> In (k, v) d.
Proof.
  induction d as [|[k' v'] d IH]; simpl; [discriminate|].
  destruct (eqb_spec k k') as [->|Hne].
  - intros [= ->]. now left.
  - intros H. right. auto.
Qed.

Lemma dict_get_set_same (k : K) (v : V) (d : list (K * V)) :
  Dict.get eqb k (Dict.set eqb k v d) = Some v.
Proof.
  induction d as [|[k' v'] d IH]; simpl.
  - destruct (eqb_spec k k); congruence.
  - destruct (eqb_spec k k') as [->|Hne]; simpl.
    + destruct (eqb_spec k' k'); congruence.
    + destruct (eqb_spec k k'); congruence.
Qed.

Lemma dict_get_set_other (k k0 : K) (v : V) (d : list (K * V)) :
  k0 <> k -> Dict.get eqb k0 (Dict.set eqb k v d) = Dict.get eqb k0 d.
Proof.
  intros Hne. induction d as [|[k' v'] d IH]; simpl.
  - destruct (eqb_spec k0 k); congruence.
  - destruct (eqb_spec k k') as [->|Hne']; simpl.
    + destruct (eqb_spec k0 k'); congruence.
    + destruct (eqb_spec k0 k'); congruence.
Qed.

Lemma dict_set_absent (k : K) (v : V) (d : list (K * V)) :
  Dict.get eqb k d = None -> Dict.set eqb k v d = d ++ [(k, v)].
Proof.
  induction d as [|[k' v'] d IH]; simpl; [reflexivity|].
  destruct (eqb_spec k k'); [discriminate|]. intros H. now rewrite IH.
Qed.

Lemma dict_keys_set_present (k : K) (v : V) (d : list (K * V)) :
  Dict.get eqb k d <> None ->
  Dict.keys (Dict.set eqb k v d) = Dict.keys d.
Proof.
  induction d as [|[k' v'] d IH]; simpl; [congruence|].
  destruct (eqb_spec k k') as [->|Hne]; simpl; [reflexivity|].
  intros H. f_equal. auto.
Qed.

Lemma dict_mem_set (k k0 : K) (v : V) (d : list (K * V)) :
  Dict.mem eqb k0 (Dict.set eqb k v d) = eqb k0 k || Dict.mem eqb k0 d.
Proof.
  unfold Dict.mem. destruct (eqb_spec k0 k) as [->|Hne]; simpl.
  - now rewrite dict_get_set_same.
  - now rewrite dict_get_set_other.
Qed.

(** Deleting the first [n] keys, oldest first, drops the first [n]
    entries. *)
Lemma dict_del_oldest (n : nat) (d : list (K * V)) :
  NoDup (Dict.keys d) ->
  List.fold_left (fun c key => Dict.del eqb key c)
                 (List.firstn n (Dict.keys d)) d
  = List.skipn n d.
Proof.
  revert d. induction n as [|n IH]; intros d Hnd; [reflexivity|].
  destruct d as [|[k v] d]; [reflexivity|]. simpl.
  destruct (eqb_spec k k); [|congruence].
  apply IH. now inversion Hnd.
Qed.

End DictFacts.

(** *** The extension cache, lines 141-147 *)

Lemma limit_cache_size_eq (c : list (string * Image)) :
  NoDup (Dict.keys c) ->
  limit_cache_size c = if 50 <? Dict.len c then List.skipn 10 c else c.
Proof.
  intros Hnd. unfold limit_cache_size.
  destruct (50 <? Dict.len c); [|reflexivity].
  now apply (dict_del_oldest String.eqb String.eqb_spec).
Qed.

Lemma keys_app {K V} (a b : list (K * V)) :
  Dict.keys (a ++ b) = Dict.keys a ++ Dict.keys b.
Proof. unfold Dict.keys. apply map_app. Qed.

Lemma NoDup_keys_snoc (key : string) (v : Image) (c : list (string * Image)) :
  NoDup (Dict.keys c) -> Dict.get String.eqb key c = None ->
  NoDup (Dict.keys (c ++ [(key, v)])).
Proof.
  intros Hnd Hget. rewrite keys_app. simpl.
  apply (dict_get_None String.eqb String.eqb_spec) in Hget.
  apply NoDup_app; repeat split; auto.
  - constructor; [intros []|constructor].
  - intros a Ha [<-|[]]. contradiction.
Qed.

(** A new key: the entry goes last, and when that makes 51 entries or more
    the first ten go. *)
Lemma cache_put_new (key : string) (v : Image) (c : list (string * Image)) :
  NoDup (Dict.keys c) -> Dict.get String.eqb key c = None ->
  cache_put key v c =
    if 50 <? Dict.len c + 1 then List.skipn 10 (c ++ [(key, v)])
    else c ++ [(key, v)].
Proof.
  intros Hnd Hget. unfold cache_put.
  rewrite (dict_set_absent String.eqb String.eqb_spec) by assumption.
  rewrite limit_cache_size_eq by now apply NoDup_keys_snoc.
  unfold Dict.len. rewrite length_app. simpl.
  replace (Z.of_nat (List.length c + 1)) with (Z.of_nat (List.length c) + 1)
    by lia.
  reflexivity.
Qed.

Lemma NoDup_keys_skipn {K V} (n : nat) (c : list (K * V)) :
  NoDup (Dict.keys c) -> NoDup (Dict.keys (List.skipn n c)).
Proof.
  revert c. induction n as [|n IH]; intros c H; [assumption|].
  destruct c as [|e c]; [assumption|]. simpl. apply IH. now inversion H.
Qed.

Lemma cache_put_inv (key : string) (v : Image) (c : list (string * Image)) :
  cache_inv c -> cache_inv (cache_put key v c).
Proof.
  intros [Hnd Hlen].
  destruct (Dict.get String.eqb key c) as [old|] eqn:Hget.
  - unfold cache_put.
    assert (Hk : Dict.keys (Dict.set String.eqb key v c) = Dict.keys c)
      by (apply (dict_keys_set_present String.eqb String.eqb_spec); congruence).
    assert (Hl : Dict.len (Dict.set String.eqb key v c) = Dict.len c).
    { unfold Dict.len. f_equal.
      rewrite <- (length_map fst (Dict.set String.eqb key v c)).
      rewrite <- (length_map fst c). unfold Dict.keys in Hk. now rewrite Hk. }
    unfold limit_cache_size. rewrite Hl.
    destruct (Z.ltb_spec 50 (Dict.len c)); [lia|].
    split; [now rewrite Hk | now rewrite Hl].
  - rewrite cache_put_new by assumption.
    pose proof (NoDup_keys_snoc key v c Hnd Hget) as Hnd'.
    destruct (Z.ltb_spec 50 (Dict.len c + 1)).
    + split; [now apply NoDup_keys_skipn|].
      unfold Dict.len in *. rewrite length_skipn, length_app. simpl. lia.
    + split; [assumption|].
      unfold Dict.len in *. rewrite length_app. simpl. lia.
Qed.




(** *** Bytes *)

Lemma u8_val_range (b : u8) : 0 <= u8_val b <= 255.
Proof.
  unfold u8_val. pose proof (Byte.to_N_bounded b) as H. lia.
Qed.

Lemma saturate_u8_val (b : u8) : saturate_u8 (u8_val b) = b.
Proof.
  unfold saturate_u8. pose proof (u8_val_range b) as R.
  rewrite Z.min_r, Z.max_r by lia. unfold u8_val.
  rewrite N2Z.id, Byte.of_to_N. reflexivity.
Qed.

Lemma u8_val_saturate (z : Z) : 0 <= z <= 255 -> u8_val (saturate_u8 z) = z.
Proof.
  intros Hz. unfold saturate_u8, u8_val.
  rewrite Z.min_r, Z.max_r by lia.
  destruct (Byte.of_N (Z.to_N z)) as [b|] eqn:E.
  - apply Byte.to_of_N in E. rewrite E. lia.
  - apply Byte.of_N_None_iff in E. lia.
Qed.

Lemma u8_val_inj (a b : u8) : u8_val a = u8_val b -> a = b.
Proof.
  intros H. rewrite <- (saturate_u8_val a), <- (saturate_u8_val b).
  now rewrite H.
Qed.

(** *** Image operations *)

Lemma PIL_new_ok (w h : Z) (c : pixel) :
  0 <= w -> 0 <= h -> PIL.new w h c = Ok (mkImage w h (fun _ _ => c)).
Proof.
  intros Hw Hh. unfold PIL.new.
  destruct (Z.ltb_spec w 0); [lia|]. destruct (Z.ltb_spec h 0); [lia|].
  reflexivity.
Qed.

Lemma PIL_new_size (w h : Z) (c : pixel) (im : Image) :
  PIL.new w h c = Ok im -> width im = w /\ height im = h.
Proof.
  unfold PIL.new. destruct ((w <? 0) || (h <? 0)); [discriminate|].
  intros [= <-]. now split.
Qed.

Lemma PIL_crop_ok (im : Image) (l u r b : Z) :
  l <= r -> u <= b ->
  exists c, PIL.crop im l u r b = Ok c /\ width c = r - l /\ height c = b - u.
Proof.
  intros Hlr Hub. unfold PIL.crop.
  destruct (Z.ltb_spec r l); [lia|]. destruct (Z.ltb_spec b u); [lia|].
  simpl. eexists. split; [reflexivity|]. now split.
Qed.

Lemma reshape_pixels_length (im : Image) :
  List.length (np.reshape_pixels im)
  = (Z.to_nat (height im) * Z.to_nat (width im))%nat.
Proof.
  unfold np.reshape_pixels.
  assert (G : forall (ys : list Z),
             List.length
               (flat_map
                  (fun y => List.map (fun x => getpixel im x y)
                                     (range (width im))) ys)
             = (List.length ys * Z.to_nat (width im))%nat).
  { induction ys as [|y ys IH]; [reflexivity|].
    simpl. rewrite length_app, length_map, range_length, IH. reflexivity. }
  rewrite G, range_length. reflexivity.
Qed.

Section FallbackFacts.
Context {IM : Imaging}.

Lemma gradient_mask_ok (w eh : Z) :
  0 <= w -> 0 <= eh ->
  exists m, gradient_mask w eh = Ok m
            /\ band_width m = w /\ band_height m = eh.
Proof.
  intros Hw Heh. unfold gradient_mask, PIL.new_L.
  destruct (Z.ltb_spec w 0); [lia|]. destruct (Z.ltb_spec eh 0); [lia|].
  simpl.
  set (row := fun (y : Z) (acc : result Band) =>
    List.fold_left
      (fun acc' x =>
         Py.bind acc' (fun m =>
           PIL.putpixel_L m x y (saturate_u8 (gradient_alpha y eh))))
      (range w) acc).
  assert (Hrow : forall y m, 0 <= y < eh ->
            band_width m = w -> band_height m = eh ->
            exists m', row y (Ok m) = Ok m'
                       /\ band_width m' = w /\ band_height m' = eh).
  { intros y m Hy. unfold row.
    assert (Hxs : forall x, In x (range w) -> 0 <= x < w)
      by (intros x; apply range_In).
    revert m Hxs. generalize (range w) as xs.
    induction xs as [|x xs IH]; intros m Hxs Hbw Hbh.
    - exists m. now repeat split.
    - simpl. unfold PIL.putpixel_L at 2. unfold inside.
      rewrite Hbw, Hbh.
      pose proof (Hxs x (or_introl eq_refl)) as Hx.
      destruct (Z.leb_spec 0 x); [|lia]. destruct (Z.ltb_spec x w); [|lia].
      destruct (Z.leb_spec 0 y); [|lia]. destruct (Z.ltb_spec y eh); [|lia].
      simpl. apply IH; [intros; apply Hxs; now right|reflexivity|reflexivity]. }
  assert (G : forall ys m0, band_width m0 = w -> band_height m0 = eh ->
            (forall y, In y ys -> 0 <= y < eh) ->
            exists m, List.fold_left (fun acc y => row y acc) ys (Ok m0) = Ok m
                      /\ band_width m = w /\ band_height m = eh).
  { induction ys as [|y ys IH]; intros m0 Hbw Hbh Hys.
    - exists m0. now repeat split.
    - simpl.
      destruct (Hrow y m0 (Hys y (or_introl eq_refl)) Hbw Hbh)
        as (m' & -> & Hbw' & Hbh').
      apply IH; auto. intros; apply Hys; now right. }
  apply (G (range eh)); [reflexivity|reflexivity|].
  intros y; apply range_In.
Qed.

(** The strip the fallback mirrors, and its height. *)
Lemma fallback_edge_ok (image : Image) (pos : position) (w eh : Z) :
  0 <= w -> 0 < eh -> 0 <= height image ->
  let edge_height := Z.min (eh * 2) (height image / 3) in
  exists edge,
    (match pos with
     | bottom => PIL.crop image 0 (height image - edge_height) w (height image)
     | top => PIL.crop image 0 0 w edge_height
     end) = Ok edge
    /\ width edge = w /\ height edge = edge_height /\ 0 <= edge_height.
Proof.
  intros Hw Heh Hh edge_height.
  assert (0 <= height image / 3) by (apply Z.div_pos; lia).
  assert (0 <= edge_height) by (unfold edge_height; lia).
  destruct pos.
  - destruct (PIL_crop_ok image 0 0 w edge_height) as (c & -> & Hcw & Hch);
      [lia|lia|].
    exists c. repeat split; auto; lia.
  - destruct (PIL_crop_ok image 0 (height image - edge_height) w (height image))
      as (c & -> & Hcw & Hch); [lia|lia|].
    exists c. repeat split; auto; lia.
Qed.

Lemma putalpha_ok (im : Image) (m : Band) :
  band_width m = width im -> band_height m = height im ->
  PIL.putalpha im m = Ok (mkImageA im m).
Proof.
  intros Hw Hh. unfold PIL.putalpha. now rewrite Hw, Hh, !Z.eqb_refl.
Qed.

Lemma paste_mask_ok (dst : Image) (src : ImageA) (x0 y0 : Z) (mask : Band) :
  band_width mask = width (rgb src) -> band_height mask = height (rgb src) ->
  exists out, paste_mask dst src x0 y0 mask = Ok out
              /\ width out = width dst /\ height out = height dst.
Proof.
  intros Hw Hh. unfold paste_mask. rewrite Hw, Hh, !Z.eqb_refl. simpl.
  eexists. split; [reflexivity|]. now split.
Qed.

Lemma crop_A_ok (im : ImageA) (l u r b : Z) :
  l <= r -> u <= b ->
  exists c, PIL.crop_A im l u r b = Ok c
            /\ band_width (alpha c) = width (rgb c)
            /\ band_height (alpha c) = height (rgb c).
Proof.
  intros Hlr Hub. unfold PIL.crop_A.
  destruct (PIL_crop_ok (rgb im) l u r b Hlr Hub) as (c & -> & Hcw & Hch).
  simpl. eexists. split; [reflexivity|]. simpl. now rewrite Hcw, Hch.
Qed.

(** The fallback on a frame of at least three rows: a patch of exactly the
    requested size. *)
Lemma fallback_ok (image : Image) (pos : position) (w eh : Z) :
  0 < w -> 0 < eh -> 3 <= height image ->
  exists ext, _fallback_extension image pos w eh = Ok ext
              /\ width ext = w /\ height ext = eh.
Proof.
  intros Hw Heh Hh. unfold _fallback_extension.
  destruct (fallback_edge_ok image pos w eh) as (edge & -> & Hew & Heh' & Hpos);
    [lia|lia|lia|].
  set (edge_height := Z.min (eh * 2) (height image / 3)) in *.
  assert (1 <= edge_height).
  { assert (1 <= height image / 3) by (apply Z.div_le_lower_bound; lia).
    unfold edge_height. lia. }
  cbn [Py.bind].
  destruct (gradient_mask_ok w edge_height) as (m & -> & Hmw & Hmh); [lia|lia|].
  cbn [Py.bind].
  rewrite putalpha_ok by (simpl; congruence).
  cbn [Py.bind].
  unfold np.int_mean_axis0. rewrite reshape_pixels_length, Hew, Heh'.
  destruct (Z.eqb_spec (Z.of_nat (Z.to_nat edge_height * Z.to_nat w)) 0) as [E|_];
    [nia|].
  cbn [Py.bind]. rewrite PIL_new_ok by lia. cbn [Py.bind].
  destruct (Z.ltb_spec edge_height eh).
  - match goal with
    | |- context [paste_mask ?d ?s ?x ?y ?k] =>
        destruct (paste_mask_ok d s x y k) as (out & -> & Ho1 & Ho2)
    end; [simpl; congruence|simpl; congruence|].
    exists out. split; [reflexivity|]. simpl in Ho1, Ho2. now split.
  - match goal with
    | |- context [PIL.crop_A ?s 0 0 w eh] =>
        destruct (crop_A_ok s 0 0 w eh) as (c & -> & Hc1 & Hc2)
    end; [lia|lia|].
    cbn [Py.bind].
    match goal with
    | |- context [paste_mask ?d ?s ?x ?y ?k] =>
        destruct (paste_mask_ok d s x y k) as (out & Ho & Ho1 & Ho2)
    end; [exact Hc1|exact Hc2|].
    exists out. split; [exact Ho|]. simpl in Ho1, Ho2. now split.
Qed.

(** The fallback on a frame of fewer than three rows: the mirrored strip has
    no row, its mean colour is NaN, and the conversion to [int] raises. *)
Lemma fallback_raises_on_short_frame (image : Image) (pos : position)
  (w eh : Z) :
  0 <= w -> 0 < eh -> 0 <= height image < 3 ->
  _fallback_extension image pos w eh = Raise ValueError.
Proof.
  intros Hw Heh Hh. unfold _fallback_extension.
  destruct (fallback_edge_ok image pos w eh) as (edge & -> & Hew & Heh' & Hpos);
    [lia|lia|lia|].
  assert (E : height image / 3 = 0) by (apply Z.div_small; lia).
  rewrite E in *. rewrite (Z.min_r (eh * 2) 0) in * by lia.
  cbn [Py.bind].
  destruct (gradient_mask_ok w 0) as (m & -> & Hmw & Hmh); [lia|lia|].
  cbn [Py.bind].
  rewrite putalpha_ok by (simpl; congruence).
  cbn [Py.bind].
  unfold np.int_mean_axis0. rewrite reshape_pixels_length, Hew, Heh'.
  reflexivity.
Qed.

End FallbackFacts.

(** *** One extension request *)

Lemma try_except_same {A} (r : result A) : try_except r (fun _ => r) = r.
Proof. destruct r; reflexivity. Qed.

Section ExtenderFacts.
Context {IM : Imaging}.
Variable outpaint : generator.

Lemma request_key_ok (image : Image) (pos : position) (w eh : Z) :
  0 <= w -> 0 <= height image ->
  exists key, request_key image pos w eh = Ok key.
Proof.
  intros Hw Hh. unfold request_key, edge_region_of.
  destruct pos.
  - destruct (PIL_crop_ok image 0 0 w (Z.min 20 (height image)))
      as (c & -> & _); [lia|lia|]. simpl. eauto.
  - destruct (PIL_crop_ok image 0 (Z.max 0 (height image - 20)) w (height image))
      as (c & -> & _); [lia|lia|]. simpl. eauto.
Qed.

(** The degenerate request, line 116-117. *)
Lemma generate_degenerate (self : AIImageExtender) (image : Image)
  (pos : position) (w eh : Z) :
  eh <= 0 \/ w <= 0 ->
  _generate_ai_extension outpaint self image pos w eh
  = (PIL.new w (Z.max 1 eh) black, self).
Proof.
  intros H. unfold _generate_ai_extension.
  destruct (Z.leb_spec eh 0); [reflexivity|].
  destruct (Z.leb_spec w 0); [reflexivity|lia].
Qed.

Section PositiveRequest.
Variables (self : AIImageExtender) (image : Image) (pos : position).
Variables (w eh : Z) (key : string).
Hypothesis Hw : 0 < w.
Hypothesis Heh : 0 < eh.
Hypothesis Hkey : request_key image pos w eh = Ok key.

Lemma generate_hit (cached : Image) :
  Dict.get String.eqb key (extension_cache self) = Some cached ->
  _generate_ai_extension outpaint self image pos w eh
  = (Ok cached, count_hit self).
Proof.
  intros Hget. unfold _generate_ai_extension.
  destruct (Z.leb_spec eh 0); [lia|]. destruct (Z.leb_spec w 0); [lia|].
  cbn [orb]. now rewrite Hkey, Hget.
Qed.

Lemma generate_miss_no_token :
  Dict.get String.eqb key (extension_cache self) = None ->
  token_set self = false ->
  _generate_ai_extension outpaint self image pos w eh
  = (_fallback_extension image pos w eh, count_miss self).
Proof.
  intros Hget Htok. unfold _generate_ai_extension.
  destruct (Z.leb_spec eh 0); [lia|]. destruct (Z.leb_spec w 0); [lia|].
  cbn [orb]. rewrite Hkey, Hget.
  change (token_set (count_miss self)) with (token_set self).
  rewrite Htok. cbn [negb]. now rewrite try_except_same.
Qed.

Lemma generate_miss_generated (extension : Image) :
  Dict.get String.eqb key (extension_cache self) = None ->
  token_set self = true ->
  outpaint (generation_calls self) image pos w eh = Ok extension ->
  _generate_ai_extension outpaint self image pos w eh
  = (Ok extension,
     with_cache (count_generation (count_miss self))
       (cache_put key extension (extension_cache self))).
Proof.
  intros Hget Htok Hgen. unfold _generate_ai_extension.
  destruct (Z.leb_spec eh 0); [lia|]. destruct (Z.leb_spec w 0); [lia|].
  cbn [orb]. rewrite Hkey, Hget.
  change (token_set (count_miss self)) with (token_set self).
  rewrite Htok. cbn [negb].
  change (generation_calls (count_miss self)) with (generation_calls self).
  now rewrite Hgen.
Qed.

Lemma generate_miss_failed (e : exn) :
  Dict.get String.eqb key (extension_cache self) = None ->
  token_set self = true ->
  outpaint (generation_calls self) image pos w eh = Raise e ->
  _generate_ai_extension outpaint self image pos w eh
  = (_fallback_extension image pos w eh,
     count_generation (count_miss self)).
Proof.
  intros Hget Htok Hgen. unfold _generate_ai_extension.
  destruct (Z.leb_spec eh 0); [lia|]. destruct (Z.leb_spec w 0); [lia|].
  cbn [orb]. rewrite Hkey, Hget.
  change (token_set (count_miss self)) with (token_set self).
  rewrite Htok. cbn [negb].
  change (generation_calls (count_miss self)) with (generation_calls self).
  now rewrite Hgen.
Qed.

End PositiveRequest.

(** What a request leaves of the extender, whatever it returns: the token is
    kept, the generator is called at most once, the counters do not decrease
    and the cache keeps its invariant. *)
Lemma generate_state (self : AIImageExtender) (image : Image)
  (pos : position) (w eh : Z) :
  let self' := snd (_generate_ai_extension outpaint self image pos w eh) in
  api_token self' = api_token self
  /\ (generation_calls self <= generation_calls self'
      <= S (generation_calls self))%nat
  /\ (cache_inv (extension_cache self) -> cache_inv (extension_cache self')).
Proof.
  cbv zeta. unfold _generate_ai_extension.
  destruct ((eh <=? 0) || (w <=? 0)); [simpl; auto|].
  destruct (request_key image pos w eh) as [key|e]; [|simpl; auto].
  destruct (Dict.get String.eqb key (extension_cache self)); [simpl; auto|].
  destruct (negb (token_set (count_miss self))); [simpl; auto|].
  destruct (outpaint _ image pos w eh); simpl;
    (split; [reflexivity|split; [lia|auto using cache_put_inv]]).
Qed.

(** A request on a frame of at least three rows returns a patch. *)
Lemma generate_total (self : AIImageExtender) (image : Image)
  (pos : position) (w eh : Z) :
  0 <= w -> 3 <= height image ->
  exists ext self',
    _generate_ai_extension outpaint self image pos w eh = (Ok ext, self').
Proof.
  intros Hw Hh.
  destruct (Z.le_gt_cases eh 0) as [He|He];
    [|destruct (Z.le_gt_cases w 0) as [Hw0|Hw0]].
  - rewrite generate_degenerate by auto. rewrite PIL_new_ok by lia. eauto.
  - rewrite generate_degenerate by auto. rewrite PIL_new_ok by lia. eauto.
  - destruct (request_key_ok image pos w eh) as (key & Hkey); [lia|lia|].
    destruct (fallback_ok image pos w eh) as (fb & Hfb & _); [lia|lia|lia|].
    destruct (Dict.get String.eqb key (extension_cache self)) as [c|] eqn:Hget.
    + erewrite generate_hit by eauto; try lia. eauto.
    + destruct (token_set self) eqn:Htok.
      * destruct (outpaint (generation_calls self) image pos w eh)
          as [g|e] eqn:Hgen.
        -- erewrite generate_miss_generated by eauto; try lia. eauto.
        -- erewrite generate_miss_failed by eauto; try lia.
           rewrite Hfb. eauto.
      * erewrite generate_miss_no_token by eauto; try lia.
        rewrite Hfb. eauto.
Qed.

End ExtenderFacts.

(** *** The frame extender *)

Section AnalyzeFacts.
Context {IM : Imaging}.
Variable outpaint : generator.

(** A returned frame is the black canvas with the source pasted at the top
    extension height and the two patches pasted over it. *)
Lemma analyze_returns (self self' : AIImageExtender) (image out : Image) :
  analyze_frame_and_extend outpaint self image = (Ok out, self') ->
  let W := width image in
  let H := height image in
  let target := target_height_of W in
  let top_h := (target - H) / 2 in
  let bottom_h := (target - H) - top_h in
  exists top_ext bottom_ext s1,
    0 <= W /\ 0 <= target
    /\ _generate_ai_extension outpaint self image top W top_h
       = (Ok top_ext, s1)
    /\ _generate_ai_extension outpaint s1 image bottom W bottom_h
       = (Ok bottom_ext, self')
    /\ out = PIL.paste
               (PIL.paste
                  (PIL.paste (mkImage W target (fun _ _ => black))
                             image 0 top_h)
                  top_ext 0 0)
               bottom_ext 0 (top_h + H).
Proof.
  intros Hrun W H target top_h bottom_h.
  unfold analyze_frame_and_extend in Hrun. cbv zeta in Hrun.
  fold W H in Hrun. fold target in Hrun. fold top_h in Hrun.
  fold bottom_h in Hrun.
  unfold PIL.new in Hrun.
  destruct (Z.ltb_spec W 0); [discriminate|].
  destruct (Z.ltb_spec target 0); [discriminate|].
  cbn [orb] in Hrun.
  destruct (_generate_ai_extension outpaint self image top W top_h)
    as [[top_ext|e] s1] eqn:Htop; [|discriminate].
  destruct (_generate_ai_extension outpaint s1 image bottom W bottom_h)
    as [[bottom_ext|e] s2] eqn:Hbot; [|discriminate].
  injection Hrun as <- <-.
  exists top_ext, bottom_ext, s1. repeat split; auto.
Qed.

Lemma analyze_size (self self' : AIImageExtender) (image out : Image) :
  analyze_frame_and_extend outpaint self image = (Ok out, self') ->
  width out = width image /\ height out = target_height_of (width image).
Proof.
  intros Hrun. apply analyze_returns in Hrun.
  destruct Hrun as (t & b & s1 & _ & _ & _ & _ & ->). now split.
Qed.

Lemma analyze_total (self : AIImageExtender) (image : Image) :
  0 <= width image -> 3 <= height image ->
  exists out self',
    analyze_frame_and_extend outpaint self image = (Ok out, self').
Proof.
  intros Hw Hh. unfold analyze_frame_and_extend.
  assert (0 <= target_height_of (width image))
    by (rewrite target_height_floor by lia; apply Z.div_pos; lia).
  rewrite PIL_new_ok by lia.
  destruct (generate_total outpaint self image top (width image)
              ((target_height_of (width image) - height image) / 2))
    as (t & s1 & ->); [lia|lia|].
  destruct (generate_total outpaint s1 image bottom (width image)
              (target_height_of (width image) - height image
               - (target_height_of (width image) - height image) / 2))
    as (b & s2 & ->); [lia|lia|].
  eauto.
Qed.

Lemma analyze_state (self : AIImageExtender) (image : Image) :
  let self' := snd (analyze_frame_and_extend outpaint self image) in
  api_token self' = api_token self
  /\ (cache_inv (extension_cache self) -> cache_inv (extension_cache self')).
Proof.
  cbv zeta. unfold analyze_frame_and_extend.
  destruct (PIL.new _ _ _); [|simpl; auto].
  match goal with
  | |- context [_generate_ai_extension outpaint self image top ?w ?h] =>
      pose proof (generate_state outpaint self image top w h) as S1;
      destruct (_generate_ai_extension outpaint self image top w h)
        as [[t|e] s1]
  end; cbv zeta in S1; simpl in S1; [|simpl; tauto].
  match goal with
  | |- context [_generate_ai_extension outpaint s1 image bottom ?w ?h] =>
      pose proof (generate_state outpaint s1 image bottom w h) as S2;
      destruct (_generate_ai_extension outpaint s1 image bottom w h)
        as [[b|e] s2]
  end; cbv zeta in S2; simpl in S2; simpl.
  - destruct S1 as (E1 & _ & I1), S2 as (E2 & _ & I2).
    split; [congruence|auto].
  - destruct S1 as (E1 & _ & I1), S2 as (E2 & _ & I2).
    split; [congruence|auto].
Qed.

End AnalyzeFacts.

(* ================================================================= *)
(** ** Frame geometry *)

(** C1 (as amended).  For a source frame of width [W] and height [H] below
    the target height, the target height is [int(W*16/9)], the floor of
    [W*16/9] and not its rounding; the extension heights requested for the
    top and the bottom are [floor(total/2)] and [total - floor(total/2)]:
    they add up to [target - H] and the bottom one is larger by at most one
    row.  A frame that [analyze_frame_and_extend] returns has width [W] and
    that height, is the black canvas with the source pasted at the row
    offset of the top extension height and the two patches pasted over it, so
    every source row not covered by the top patch is found at that offset;
    and a frame is returned whenever the source has three rows or more. *)
Theorem extended_frame_geometry {IM : Imaging} (outpaint : generator)
  (self : AIImageExtender) (image : Image) :
  let W := width image in
  let H := height image in
  let target := W * 16 / 9 in
  let total := target - H in
  let top_h := total / 2 in
  let bottom_h := total - top_h in
  0 < W -> 0 < H -> H < target ->
  target_height_of W = target
  /\ top_h + bottom_h = target - H
  /\ 0 <= bottom_h - top_h <= 1
  /\ (forall out self',
        analyze_frame_and_extend outpaint self image = (Ok out, self') ->
        width out = W /\ height out = target
        /\ exists top_ext bottom_ext s1,
             _generate_ai_extension outpaint self image top W top_h
             = (Ok top_ext, s1)
             /\ _generate_ai_extension outpaint s1 image bottom W bottom_h
                = (Ok bottom_ext, self')
             /\ out = PIL.paste
                        (PIL.paste
                           (PIL.paste (mkImage W target (fun _ _ => black))
                                      image 0 top_h)
                           top_ext 0 0)
                        bottom_ext 0 (top_h + H)
             /\ forall x y, 0 <= x < W -> 0 <= y < H ->
                  height top_ext <= top_h + y ->
                  getpixel out x (top_h + y) = getpixel image x y)
  /\ (3 <= H ->
      exists out self',
        analyze_frame_and_extend outpaint self image = (Ok out, self')).
Proof.
  intros W H target total top_h bottom_h HW HH Hlt.
  assert (Et : target_height_of W = target)
    by (apply target_height_floor; lia).
  assert (Hs : 0 <= bottom_h - top_h <= 1).
  { unfold bottom_h, top_h.
    pose proof (Z.div_mod total 2 ltac:(lia)).
    pose proof (Z.mod_pos_bound total 2 ltac:(lia)). lia. }
  split; [exact Et|]. split; [unfold bottom_h; lia|]. split; [exact Hs|].
  split.
  - intros out self' Hrun.
    pose proof (analyze_size outpaint _ _ _ _ Hrun) as [Hw Hh].
    apply analyze_returns in Hrun. cbv zeta in Hrun.
    fold W H in Hrun. rewrite Et in Hrun. fold total in Hrun.
    fold top_h in Hrun. fold bottom_h in Hrun.
    destruct Hrun as (t & b & s1 & _ & _ & Ht & Hb & Hout).
    split; [exact Hw|]. split; [fold W in Hh; congruence|].
    exists t, b, s1. repeat split; auto.
    intros x y Hx Hy Hcover. rewrite Hout. unfold PIL.paste, inside. simpl.
    fold W H.
    replace (top_h + y - (top_h + H)) with (y - H) by lia.
    destruct (Z.leb_spec 0 (y - H)); [lia|].
    rewrite !andb_false_r. cbn [andb].
    destruct (Z.ltb_spec (top_h + y - 0) (height t)); [lia|].
    rewrite !andb_false_r.
    replace (x - 0) with x by lia.
    replace (top_h + y - top_h) with y by lia.
    destruct (Z.leb_spec 0 x); [|lia]. destruct (Z.ltb_spec x W); [|lia].
    destruct (Z.leb_spec 0 y); [|lia]. destruct (Z.ltb_spec y H); [|lia].
    reflexivity.
  - intros H3. apply analyze_total; fold W H; lia.
Qed.

Lemma extended_frame_geometry_witness :
  0 < 1280 /\ 0 < 720 /\ 720 < 1280 * 16 / 9
  /\ target_height_of 1280 = 2275
  /\ exists out self',
       analyze_frame_and_extend (IM := Fixtures.plain_imaging)
         Fixtures.failing_generator (__init__ None)
         (Fixtures.flat 1280 720 x80) = (Ok out, self').
Proof.
  split; [lia|]. split; [lia|]. split; [reflexivity|].
  destruct (extended_frame_geometry (IM := Fixtures.plain_imaging)
              Fixtures.failing_generator (__init__ None)
              (Fixtures.flat 1280 720 x80))
    as (Et & _ & _ & _ & Htotal);
    [simpl; lia|simpl; lia|reflexivity|].
  split; [exact Et|]. apply Htotal. simpl. lia.
Defined.

(** The claim as written fails: a 1280 by 720 frame is extended to 2275 rows,
    and the nearest integer to 1280*16/9 is 2276. *)
Lemma extended_height_is_not_rounded :
  let image := Fixtures.flat 1280 720 x80 in
  height image < round_div (width image * 16) 9
  /\ exists out self',
       analyze_frame_and_extend (IM := Fixtures.plain_imaging)
         Fixtures.failing_generator (__init__ None) image = (Ok out, self')
       /\ width out = 1280
       /\ height out = 2275
       /\ height out <> round_div (width image * 16) 9.
Proof.
  cbv zeta. split; [reflexivity|].
  destruct (analyze_total (IM := Fixtures.plain_imaging)
              Fixtures.failing_generator (__init__ None)
              (Fixtures.flat 1280 720 x80)) as (out & self' & Hrun);
    [simpl; lia|simpl; lia|].
  exists out, self'. split; [exact Hrun|].
  apply analyze_size in Hrun. destruct Hrun as [Hw Hh].
  simpl in Hw, Hh. split; [exact Hw|].
  change (target_height_of 1280) with 2275 in Hh.
  split; [exact Hh|]. rewrite Hh. discriminate.
Qed.

(* ================================================================= *)
(** ** The procedural fallback and the failing back end *)

(** C7 (a defect of the code).  On a well-formed source frame of fewer than
    three rows the fallback generator raises, for either position and a
    positive requested size: evaluated here on a 16 by 2 frame. *)
Theorem fallback_fails_below_three_rows :
  _fallback_extension (IM := Fixtures.plain_imaging)
    (Fixtures.flat 16 2 x80) bottom 16 1 = Raise ValueError
  /\ _fallback_extension (IM := Fixtures.plain_imaging)
       (Fixtures.flat 16 2 x80) top 16 1 = Raise ValueError.
Proof. split; vm_compute; reflexivity. Qed.

(** C6 (a defect of the code, the one of C7).  With a back end that raises
    at every call, a request on a 16 by 2 frame raises instead of returning
    the fallback patch, and so do the frame extender and [process_video] on
    a video of such frames, which a working generator processes. *)
Theorem backend_failure_surfaces_below_three_rows :
  let self := __init__ (Some "token"%string) in
  let image := Fixtures.flat 16 2 x80 in
  let video := Fixtures.flat_video 16 2 [x80; x81] in
  fst (_generate_ai_extension (IM := Fixtures.plain_imaging)
         Fixtures.failing_generator self image bottom 16 1)
  = Raise ValueError
  /\ fst (analyze_frame_and_extend (IM := Fixtures.plain_imaging)
            Fixtures.failing_generator self image)
     = Raise ValueError
  /\ fst (process_video (IM := Fixtures.plain_imaging)
            Fixtures.failing_generator self video 1)
     = Raise ValueError
  /\ fst (process_video (IM := Fixtures.plain_imaging)
            Fixtures.failing_generator (__init__ None) video 1)
     = Raise ValueError
  /\ is_ok (fst (process_video (IM := Fixtures.plain_imaging)
                   Fixtures.stub_generator self video 1)) = true.
Proof. cbv zeta. repeat split; vm_compute; reflexivity. Qed.

(** What does hold of a failed back end call: the request returns what the
    fallback returns, after one call of the generator, with the cache as it
    was. *)
Lemma backend_failure_returns_fallback {IM : Imaging} (outpaint : generator)
  (self : AIImageExtender) (image : Image) (pos : position) (w eh : Z)
  (key : string) (e : exn) :
  0 < w -> 0 < eh ->
  request_key image pos w eh = Ok key ->
  Dict.get String.eqb key (extension_cache self) = None ->
  token_set self = true ->
  outpaint (generation_calls self) image pos w eh = Raise e ->
  let r := _generate_ai_extension outpaint self image pos w eh in
  fst r = _fallback_extension image pos w eh
  /\ generation_calls (snd r) = S (generation_calls self)
  /\ extension_cache (snd r) = extension_cache self.
Proof.
  intros Hw Heh Hkey Hget Htok Hgen. cbv zeta.
  rewrite (generate_miss_failed outpaint self image pos w eh key Hw Heh Hkey e
             Hget Htok Hgen).
  simpl. auto.
Qed.

(* ================================================================= *)
(** ** The extension cache *)

Lemma serve_cons {IM : Imaging} (outpaint : generator)
  (self : AIImageExtender) (r : request) (rs : list request) :
  serve outpaint self (r :: rs)
  = serve outpaint (snd (serve_one outpaint self r)) rs.
Proof. reflexivity. Qed.

Lemma serve_cache_inv {IM : Imaging} (outpaint : generator)
  (rs : list request) (self : AIImageExtender) :
  cache_inv (extension_cache self) ->
  cache_inv (extension_cache (serve outpaint self rs)).
Proof.
  revert self. induction rs as [|r rs IH]; intros self Hinv; [assumption|].
  rewrite serve_cons. apply IH. unfold serve_one.
  now apply (generate_state outpaint self).
Qed.

Lemma cache_inv_empty : cache_inv [].
Proof. split; [constructor|unfold Dict.len; simpl; lia]. Qed.

(** C10.  Without a token (none, or the empty string) nothing is ever
    stored: after any run of requests on well-formed images the cache is
    empty, no hit was counted, every request of positive size was counted as
    a miss, and the generator was never called. *)
Theorem no_token_never_caches {IM : Imaging} (outpaint : generator)
  (token : option string) (rs : list request) :
  token_set (__init__ token) = false ->
  Forall (fun r => 0 <= height (req_image r)) rs ->
  let final := serve outpaint (__init__ token) rs in
  extension_cache final = []
  /\ cache_hits final = 0
  /\ cache_misses final
     = Z.of_nat (List.length (List.filter positive_request rs))
  /\ generation_calls final = 0%nat.
Proof.
  intros Htok Hwf. cbv zeta.
  assert (G : forall rs self,
            Forall (fun r => 0 <= height (req_image r)) rs ->
            token_set self = false -> extension_cache self = [] ->
            let final := serve outpaint self rs in
            extension_cache final = []
            /\ cache_hits final = cache_hits self
            /\ cache_misses final
               = cache_misses self
                 + Z.of_nat (List.length (List.filter positive_request rs))
            /\ generation_calls final = generation_calls self).
  { clear. induction rs as [|r rs IH]; intros self Hwf Htok Hc; cbv zeta.
    - simpl. repeat split; auto; lia.
    - inversion Hwf as [|? ? Hr Hrs]; subst. rewrite serve_cons.
      unfold serve_one. simpl List.filter. unfold positive_request at 1.
      destruct (Z.ltb_spec 0 (req_width r)) as [Hw|Hw];
        [destruct (Z.ltb_spec 0 (req_height r)) as [Hh|Hh]|].
      + destruct (request_key_ok (req_image r) (req_position r)
                    (req_width r) (req_height r)) as (key & Hkey);
          [lia|exact Hr|].
        rewrite (generate_miss_no_token outpaint self _ _ _ _ key Hw Hh Hkey)
          by (try rewrite Hc; auto).
        cbn [snd andb].
        destruct (IH (count_miss self) Hrs Htok Hc) as (A & B & C & D).
        cbv zeta in A, B, C, D. rewrite A, B, C, D.
        cbn [cache_hits cache_misses generation_calls count_miss List.length].
        repeat split; auto; lia.
      + rewrite generate_degenerate by lia. cbn [snd andb].
        destruct (IH self Hrs Htok Hc) as (A & B & C & D).
        repeat split; auto; lia.
      + rewrite generate_degenerate by lia. cbn [snd andb].
        destruct (IH self Hrs Htok Hc) as (A & B & C & D).
        repeat split; auto; lia. }
  destruct (G rs (__init__ token) Hwf Htok eq_refl) as (A & B & C & D).
  cbv zeta in A, B, C, D. rewrite A, B, C, D. simpl. auto.
Qed.

Lemma no_token_never_caches_witness :
  let rs := [mkRequest (Fixtures.flat 16 9 x80) bottom 16 9;
             mkRequest (Fixtures.flat 16 9 x80) bottom 16 9;
             mkRequest (Fixtures.flat 16 9 x80) top 16 0] in
  token_set (__init__ None) = false
  /\ Forall (fun r => 0 <= height (req_image r)) rs
  /\ cache_misses
       (serve (IM := Fixtures.plain_imaging) Fixtures.stub_generator
              (__init__ None) rs) = 2.
Proof.
  cbv zeta.
  assert (Hwf : Forall (fun r => 0 <= height (req_image r))
                  [mkRequest (Fixtures.flat 16 9 x80) bottom 16 9;
                   mkRequest (Fixtures.flat 16 9 x80) bottom 16 9;
                   mkRequest (Fixtures.flat 16 9 x80) top 16 0])
    by (repeat constructor; simpl; lia).
  split; [reflexivity|]. split; [exact Hwf|].
  exact (proj1 (proj2 (proj2
           (no_token_never_caches (IM := Fixtures.plain_imaging)
              Fixtures.stub_generator None _ eq_refl Hwf)))).
Defined.




(** C5.  After any run of requests from a fresh extender the cache holds at
    most 50 entries under distinct keys.  A generated patch is stored by
    [cache_put]; storing under a new key appends the entry, and when that
    makes 51 entries the ten entries inserted first are removed, which
    leaves 41 entries, the new one last.  A request served from the cache
    leaves the order of the entries as it was. *)
Theorem cache_eviction_drops_ten_oldest {IM : Imaging} (outpaint : generator)
  (token : option string) (rs : list request) :
  let self := serve outpaint (__init__ token) rs in
  let c := extension_cache self in
  NoDup (Dict.keys c)
  /\ Dict.len c <= 50
  /\ (forall key extension,
        Dict.get String.eqb key c = None ->
        (Dict.len c < 50 -> cache_put key extension c = c ++ [(key, extension)])
        /\ (Dict.len c = 50 ->
            cache_put key extension c
            = List.skipn 10 c ++ [(key, extension)]
            /\ Dict.len (cache_put key extension c) = 41
            /\ Dict.keys (cache_put key extension c)
               = List.skipn 10 (Dict.keys c) ++ [key]))
  /\ (forall image pos w eh key,
        0 < w -> 0 < eh -> request_key image pos w eh = Ok key ->
        let self' := snd (_generate_ai_extension outpaint self image pos w eh) in
        match Dict.get String.eqb key c with
        | Some cached => extension_cache self' = c
        | None =>
            token_set self = true ->
            forall extension,
              outpaint (generation_calls self) image pos w eh = Ok extension ->
              extension_cache self' = cache_put key extension c
        end).
Proof.
  cbv zeta.
  destruct (serve_cache_inv outpaint rs (__init__ token) cache_inv_empty)
    as [Hnd Hlen].
  set (self := serve outpaint (__init__ token) rs) in *.
  set (c := extension_cache self) in *.
  split; [exact Hnd|]. split; [exact Hlen|]. split.
  - intros key extension Hget. rewrite cache_put_new by assumption. split.
    + intros Hlt. destruct (Z.ltb_spec 50 (Dict.len c + 1)); [lia|reflexivity].
    + intros H50. destruct (Z.ltb_spec 50 (Dict.len c + 1)); [|lia].
      assert (E : List.skipn 10 (c ++ [(key, extension)])
                  = List.skipn 10 c ++ [(key, extension)]).
      { rewrite skipn_app.
        replace (10 - List.length c)%nat with 0%nat
          by (unfold Dict.len in H50; lia).
        reflexivity. }
      rewrite E. split; [reflexivity|]. split.
      * unfold Dict.len in *. rewrite length_app, length_skipn. simpl. lia.
      * rewrite keys_app. unfold Dict.keys. now rewrite skipn_map.
  - intros image pos w eh key Hw Heh Hkey.
    destruct (Dict.get String.eqb key c) as [cached|] eqn:Hget.
    + rewrite (generate_hit outpaint self image pos w eh key Hw Heh Hkey cached)
        by exact Hget.
      reflexivity.
    + intros Htok extension Hgen.
      rewrite (generate_miss_generated outpaint self image pos w eh key
                 Hw Heh Hkey extension Hget Htok Hgen).
      reflexivity.
Qed.

Lemma cache_eviction_drops_ten_oldest_witness :
  let self := serve (IM := Fixtures.plain_imaging) Fixtures.stub_generator
                (__init__ (Some "token"%string)) Fixtures.fifty_requests in
  let c := extension_cache self in
  let key := "bottom_4_51_4608"%string in
  Dict.len c = 50
  /\ Dict.get String.eqb key c = None
  /\ Dict.len (cache_put key (Fixtures.flat 4 51 x00) c) = 41.
Proof.
  cbv zeta.
  destruct (cache_eviction_drops_ten_oldest (IM := Fixtures.plain_imaging)
              Fixtures.stub_generator (Some "token"%string)
              Fixtures.fifty_requests) as (_ & _ & Hput & _).
  cbv zeta in Hput.
  assert (Hlen : Dict.len
                   (extension_cache
                      (serve (IM := Fixtures.plain_imaging)
                         Fixtures.stub_generator
                         (__init__ (Some "token"%string))
                         Fixtures.fifty_requests)) = 50)
    by (vm_compute; reflexivity).
  assert (Hget : Dict.get String.eqb "bottom_4_51_4608"%string
                   (extension_cache
                      (serve (IM := Fixtures.plain_imaging)
                         Fixtures.stub_generator
                         (__init__ (Some "token"%string))
                         Fixtures.fifty_requests)) = None)
    by (vm_compute; reflexivity).
  split; [exact Hlen|]. split; [exact Hget|].
  destruct (Hput "bottom_4_51_4608"%string (Fixtures.flat 4 51 x00) Hget)
    as (_ & H50).
  exact (proj1 (proj2 (H50 Hlen))).
Defined.

(** *** The generator of the repository *)

(** [_stable_diffusion_outpaint] never returns an image: without a token it
    raises; otherwise either the model call or the download raises, or the
    name [io] is evaluated, or no output is recognised. *)
Lemma stable_diffusion_outpaint_never_returns {IM : Imaging} (net : Network)
  (token_ok : bool) (n : nat) (image : Image) (pos : position) (w eh : Z) :
  exists e, _stable_diffusion_outpaint net token_ok n image pos w eh = Raise e.
Proof.
  unfold _stable_diffusion_outpaint.
  destruct token_ok; simpl; [|eauto].
  destruct (replicate_run net n _) as [[url|[|u us]|]|e]; simpl; eauto.
  - destruct (requests_get net url); simpl; eauto.
  - destruct (requests_get net u); simpl; eauto.
Qed.

(* ================================================================= *)
(** ** Uniform sampling: [process_video] *)

Lemma last_Some_nonempty (l : list Z) :
  l <> [] ->
  exists p, List.last (List.map Some l) None = Some p /\ In p l.
Proof.
  induction l as [|a l IH]; [congruence|]. intros _.
  destruct l as [|b l].
  - exists a. split; [reflexivity|now left].
  - destruct IH as (p & Hp & Hin); [discriminate|].
    exists p. split; [exact Hp|now right].
Qed.

Lemma files_cover_snoc (processed : list Z) (files : list (Z * Image))
  (idx : Z) (content : Image) :
  files_cover processed files ->
  files_cover (processed ++ [idx]) (Dict.set Z.eqb idx content files).
Proof.
  intros Hc. unfold files_cover in *. apply Forall_app. split.
  - eapply Forall_impl; [|exact Hc]. intros p Hp. cbv beta in *.
    destruct (Z.eq_dec p idx) as [->|Hne].
    + rewrite (dict_get_set_same Z.eqb Z.eqb_spec). discriminate.
    + now rewrite (dict_get_set_other Z.eqb Z.eqb_spec).
  - constructor; [|constructor].
    rewrite (dict_get_set_same Z.eqb Z.eqb_spec). discriminate.
Qed.

Lemma frames_to_video_length (ps : list Z) (files : list (Z * Image))
  {IM : Imaging} (w h : Z) :
  files_cover ps files ->
  List.length (_frames_to_video ps files w h) = List.length ps.
Proof.
  induction 1 as [|p ps Hp Hps IH]; [reflexivity|]. simpl.
  destruct (Dict.get Z.eqb p files); [|congruence]. simpl. now rewrite IH.
Qed.

Lemma frames_to_video_size (ps : list Z) (files : list (Z * Image))
  {IM : Imaging} (w h : Z) :
  Forall (fun im => width im = w /\ height im = h)
         (_frames_to_video ps files w h).
Proof.
  induction ps as [|p ps IH]; [constructor|]. simpl.
  destruct (Dict.get Z.eqb p files) as [picture|]; [|exact IH].
  constructor; [|exact IH]. cbn [cv2.cvtColor width height].
  destruct (Z.eqb_spec (height picture) h) as [Eh|];
    [destruct (Z.eqb_spec (width picture) w) as [Ew|]|];
    simpl; auto.
Qed.

Section ProcessVideoFacts.
Context {IM : Imaging}.
Variable outpaint : generator.

(** The loop appends one path per frame once a first frame was processed. *)
Lemma process_frames_count (sample_rate : Z) (items : list (Z * Image)) :
  forall processed files ext out_paths out_files ext',
    files_cover processed files ->
    processed <> [] ->
    process_frames outpaint sample_rate items processed files ext
    = (Ok (out_paths, out_files), ext') ->
    files_cover out_paths out_files
    /\ List.length out_paths
       = (List.length processed + List.length items)%nat.
Proof.
  induction items as [|[idx frame] items IH];
    intros processed files ext out_paths out_files ext' Hc Hne Hrun.
  - simpl in Hrun. injection Hrun as <- <- <-. split; [assumption|simpl; lia].
  - cbn [process_frames] in Hrun.
    destruct (mod_ idx sample_rate) as [r|e]; [|discriminate].
    destruct (r =? 0).
    + destruct (analyze_frame_and_extend outpaint ext (cv2.cvtColor frame))
        as [[extended|e] ext1]; [|discriminate].
      apply IH in Hrun.
      * destruct Hrun as [Hc' Hl]. split; [assumption|].
        rewrite Hl, length_app. simpl. lia.
      * now apply files_cover_snoc.
      * destruct processed; discriminate.
    + destruct (last_Some_nonempty processed Hne) as (p & Hlast & Hin).
      rewrite Hlast in Hrun.
      destruct (Dict.get Z.eqb p files) as [content|]; [|discriminate].
      apply IH in Hrun.
      * destruct Hrun as [Hc' Hl]. split; [assumption|].
        rewrite Hl, length_app. simpl. lia.
      * now apply files_cover_snoc.
      * destruct processed; discriminate.
Qed.

(** With a non-zero sample rate and frames of three rows or more the loop
    runs to its end. *)
Lemma process_frames_total (sample_rate : Z) (items : list (Z * Image)) :
  sample_rate <> 0 ->
  Forall (fun it => 0 <= width (snd it) /\ 3 <= height (snd it)) items ->
  forall processed files ext,
    files_cover processed files ->
    exists out ext',
      process_frames outpaint sample_rate items processed files ext
      = (Ok out, ext').
Proof.
  intros Hsr. induction 1 as [|[idx frame] items [Hw Hh] Hrest IH];
    intros processed files ext Hc.
  - simpl. eauto.
  - simpl in Hw, Hh. simpl. unfold mod_.
    destruct (Z.eqb_spec sample_rate 0); [contradiction|].
    destruct (idx mod sample_rate =? 0).
    + destruct (analyze_total outpaint ext (cv2.cvtColor frame))
        as (extended & ext1 & ->); [exact Hw|exact Hh|].
      apply IH. now apply files_cover_snoc.
    + destruct processed as [|p0 processed'] eqn:Ep.
      * simpl. apply IH. constructor.
      * destruct (last_Some_nonempty (p0 :: processed')) as (p & -> & Hin);
          [discriminate|].
        pose proof Hc as Hc'. unfold files_cover in Hc'.
        rewrite Forall_forall in Hc'. specialize (Hc' p Hin).
        destruct (Dict.get Z.eqb p files) as [content|]; [|congruence].
        apply IH. now apply files_cover_snoc.
Qed.

Lemma original_frames_length (v : Video) :
  List.length (original_frames v) = List.length (frame_data v).
Proof. unfold original_frames. apply length_map. Qed.

Lemma original_frames_size (v : Video) :
  Forall (fun im => width im = frame_width v /\ height im = frame_height v)
         (original_frames v).
Proof.
  unfold original_frames. apply Forall_forall. intros im Hin.
  apply in_map_iff in Hin. destruct Hin as (d & <- & _). now split.
Qed.

(** A run of [process_video] that returns writes one frame per input frame,
    each of the output size. *)
Lemma process_video_count (ext ext' : AIImageExtender) (v : Video)
  (sample_rate : Z) (out : list Image) :
  process_video outpaint ext v sample_rate = (Ok out, ext') ->
  List.length out = List.length (frame_data v)
  /\ Forall (fun im => width im = frame_width v
                       /\ height im = target_height_of (frame_width v)) out.
Proof.
  unfold process_video. intros Hrun.
  destruct (process_frames outpaint sample_rate _ [] [] ext)
    as [[[paths files]|e] ext1] eqn:Hloop; [|discriminate].
  injection Hrun as <- <-. split; [|apply frames_to_video_size].
  rewrite <- original_frames_length.
  assert (Hitems : List.length
                     (List.combine
                        (range (Z.of_nat (List.length (original_frames v))))
                        (original_frames v))
                   = List.length (original_frames v))
    by (rewrite length_combine, range_length; lia).
  destruct (original_frames v) as [|f0 fs] eqn:Ef.
  - simpl in Hloop. injection Hloop as <- <- <-. reflexivity.
  - rewrite <- Hitems.
    change (range (Z.of_nat (List.length (f0 :: fs))))
      with (List.map Z.of_nat
              (List.seq 0 (Z.to_nat (Z.of_nat (S (List.length fs))))))
      in Hloop |- *.
    rewrite Nat2Z.id in Hloop |- *.
    cbn [List.seq List.map List.combine] in Hloop |- *.
    cbn [process_frames] in Hloop. unfold mod_ in Hloop.
    destruct (Z.eqb_spec sample_rate 0); [discriminate|].
    rewrite Z.mod_0_l in Hloop by assumption. cbn [Z.eqb] in Hloop.
    destruct (analyze_frame_and_extend outpaint ext (cv2.cvtColor f0))
      as [[extended|e] ext2]; [|discriminate].
    apply process_frames_count in Hloop;
      [|apply (files_cover_snoc [] []); constructor|discriminate].
    destruct Hloop as [Hc Hl].
    rewrite frames_to_video_length by assumption.
    rewrite Hl. simpl. reflexivity.
Qed.

Lemma process_video_total (ext : AIImageExtender) (v : Video)
  (sample_rate : Z) :
  sample_rate <> 0 -> 0 <= frame_width v -> 3 <= frame_height v ->
  exists out ext', process_video outpaint ext v sample_rate = (Ok out, ext').
Proof.
  intros Hsr Hw Hh. unfold process_video.
  destruct (process_frames_total sample_rate
              (List.combine
                 (range (Z.of_nat (List.length (original_frames v))))
                 (original_frames v)) Hsr) with (processed := @nil Z)
              (files := @nil (Z * Image)) (ext := ext)
    as ([paths files] & ext1 & ->).
  - apply Forall_forall. intros [i f] Hin. apply in_combine_r in Hin.
    pose proof (original_frames_size v) as Hs. rewrite Forall_forall in Hs.
    destruct (Hs f Hin) as [Ew Eh]. simpl. lia.
  - constructor.
  - eauto.
Qed.

End ProcessVideoFacts.

(** With a generator that raises at every call, [process_video] on frames
    of three rows or more still writes one frame of the output size per
    input frame. *)
Lemma failing_backend_complete_output {IM : Imaging} (outpaint : generator)
  (ext : AIImageExtender) (v : Video) (sample_rate : Z) :
  (forall n im p w h, exists e, outpaint n im p w h = Raise e) ->
  sample_rate <> 0 -> 0 <= frame_width v -> 3 <= frame_height v ->
  exists out ext',
    process_video outpaint ext v sample_rate = (Ok out, ext')
    /\ List.length out = List.length (frame_data v)
    /\ Forall (fun im => width im = frame_width v
                         /\ height im = target_height_of (frame_width v)) out.
Proof.
  intros _ Hsr Hw Hh.
  destruct (process_video_total outpaint ext v sample_rate Hsr Hw Hh)
    as (out & ext' & Hrun).
  exists out, ext'. split; [exact Hrun|].
  now apply process_video_count in Hrun.
Qed.

(* ================================================================= *)
(** ** Keyframe mode: [process_video_keyframes] *)

Lemma dict_mem_get {V} (k : Z) (d : list (Z * V)) :
  Dict.mem Z.eqb k d = true <-> exists v, Dict.get Z.eqb k d = Some v.
Proof.
  unfold Dict.mem. destruct (Dict.get Z.eqb k d) as [v|].
  - split; eauto.
  - split; [discriminate|intros (v & H); discriminate].
Qed.

Section KeyframeFacts.
Context {IM : Imaging}.
Variable outpaint : generator.

Lemma process_keyframes_spec (w : Z) (all_frames : list Image) :
  Forall (fun im => width im = w) all_frames ->
  forall indices keyframes0 ext keyframes ext',
    process_keyframes outpaint all_frames indices keyframes0 ext
    = (Ok keyframes, ext') ->
    (forall k, Dict.mem Z.eqb k keyframes = true
               <-> Dict.mem Z.eqb k keyframes0 = true \/ In k indices)
    /\ (keyframes_sized w (target_height_of w) keyframes0 ->
        keyframes_sized w (target_height_of w) keyframes).
Proof.
  intros Hall. induction indices as [|idx indices IH];
    intros keyframes0 ext keyframes ext' Hrun.
  - simpl in Hrun. injection Hrun as <- <-. split; [|auto].
    intros k. simpl. tauto.
  - cbn [process_keyframes] in Hrun.
    destruct (nth_error all_frames (Z.to_nat idx)) as [frame|] eqn:Hnth;
      [|discriminate].
    destruct (analyze_frame_and_extend outpaint ext (cv2.cvtColor frame))
      as [[extended|e] ext1] eqn:Han; [|discriminate].
    apply analyze_size in Han. destruct Han as [Hw Hh].
    apply nth_error_In in Hnth. rewrite Forall_forall in Hall.
    specialize (Hall frame Hnth). cbn [cv2.cvtColor width] in Hw, Hh.
    rewrite Hall in Hw, Hh.
    apply IH in Hrun. destruct Hrun as [Hmem Hsized]. split.
    + intros k. rewrite Hmem.
      rewrite (dict_mem_set Z.eqb Z.eqb_spec). simpl.
      destruct (Z.eqb_spec k idx) as [->|Hne]; simpl; [tauto|].
      split; [intros [H|H]; auto|intros [H|[H|H]]; auto; congruence].
    + intros H0. apply Hsized. intros k f Hget.
      destruct (Z.eq_dec k idx) as [->|Hne].
      * rewrite (dict_get_set_same Z.eqb Z.eqb_spec) in Hget.
        injection Hget as <-. now split.
      * rewrite (dict_get_set_other Z.eqb Z.eqb_spec) in Hget by assumption.
        eauto.
Qed.

Lemma process_keyframes_total (all_frames : list Image) :
  Forall (fun im => 0 <= width im /\ 3 <= height im) all_frames ->
  forall indices,
    Forall (fun i => 0 <= i < Z.of_nat (List.length all_frames)) indices ->
    forall keyframes0 ext,
    exists keyframes ext',
      process_keyframes outpaint all_frames indices keyframes0 ext
      = (Ok keyframes, ext').
Proof.
  intros Hall. induction 1 as [|idx indices Hidx Hrest IH];
    intros keyframes0 ext.
  - simpl. eauto.
  - cbn [process_keyframes].
    destruct (nth_error all_frames (Z.to_nat idx)) as [frame|] eqn:Hnth.
    2:{ apply nth_error_None in Hnth. lia. }
    apply nth_error_In in Hnth. rewrite Forall_forall in Hall.
    destruct (Hall frame Hnth) as [Hw Hh].
    destruct (analyze_total outpaint ext (cv2.cvtColor frame))
      as (extended & ext1 & ->); [exact Hw|exact Hh|].
    apply IH.
Qed.

End KeyframeFacts.

(** *** The neighbours of a frame *)

Lemma prev_keyframe_bounds (i k : Z) :
  0 < k -> 0 <= i ->
  0 <= prev_keyframe_idx i k <= i
  /\ i < prev_keyframe_idx i k + k
  /\ prev_keyframe_idx i k mod k = 0.
Proof.
  intros Hk Hi. unfold prev_keyframe_idx.
  pose proof (Z.div_mod i k ltac:(lia)).
  pose proof (Z.mod_pos_bound i k Hk).
  assert (0 <= i / k) by (apply Z.div_pos; lia).
  repeat split; try nia. apply Z.mod_mul. lia.
Qed.

Lemma next_keyframe_cases (i k total : Z) :
  0 < k -> 0 <= i < total ->
  let prev := prev_keyframe_idx i k in
  let next := next_keyframe_idx i k total in
  (total <= prev + k /\ next = prev)
  \/ (prev + k < total /\ next = prev + k).
Proof.
  intros Hk Hi. cbv zeta. unfold next_keyframe_idx.
  destruct (Z.geb_spec (prev_keyframe_idx i k + k) total); [left|right]; lia.
Qed.

Lemma next_keyframe_is_multiple (i k total : Z) :
  0 < k -> 0 <= i < total ->
  0 <= next_keyframe_idx i k total < total
  /\ next_keyframe_idx i k total mod k = 0.
Proof.
  intros Hk Hi.
  destruct (prev_keyframe_bounds i k Hk ltac:(lia)) as (Hp & Hlt & Hm).
  destruct (next_keyframe_cases i k total Hk Hi) as [[H1 ->]|[H1 ->]];
    (split; [lia|]); [exact Hm|].
  rewrite <- Z.add_mod_idemp_l by lia. rewrite Hm. simpl.
  apply Z.mod_same. lia.
Qed.

(** *** The second pass *)

Lemma addWeighted_ok {IM : Imaging} (a b : Image) (alpha beta gamma : Q) :
  width a = width b -> height a = height b ->
  cv2.addWeighted a alpha b beta gamma
  = Ok (mkImage (width a) (height a)
          (fun x y => cv2.blend_pixel (getpixel a x y) alpha
                                      (getpixel b x y) beta gamma)).
Proof.
  intros Hw Hh. unfold cv2.addWeighted. now rewrite Hw, Hh, !Z.eqb_refl.
Qed.

Section SecondPass.
Context {IM : Imaging}.
Variables (keyframes : list (Z * Image)) (k total w h : Z).
Hypothesis Hk : 0 < k.
Hypothesis Hkeys : keyframes_at_multiples k total keyframes.
Hypothesis Hsized : keyframes_sized w h keyframes.

Lemma keyframe_lookup (i : Z) :
  0 <= i < total -> i mod k = 0 ->
  exists f, Dict.get Z.eqb i keyframes = Some f /\ width f = w /\ height f = h.
Proof.
  intros Hi Hm.
  assert (Hmem : Dict.mem Z.eqb i keyframes = true) by (apply Hkeys; auto).
  apply dict_mem_get in Hmem. destruct Hmem as (f & Hf).
  exists f. split; [exact Hf|]. eauto.
Qed.

Lemma output_frame_keyframe (i : Z) :
  0 <= i < total -> i mod k = 0 ->
  exists f, Dict.get Z.eqb i keyframes = Some f
            /\ output_frame keyframes k total i = Ok (Keyframe, f).
Proof.
  intros Hi Hm. destruct (keyframe_lookup i Hi Hm) as (f & Hf & _).
  exists f. split; [exact Hf|]. unfold output_frame, Dict.mem, Dict.getitem.
  now rewrite Hf.
Qed.

Lemma output_frame_blended (i : Z) :
  0 <= i < total -> i mod k <> 0 ->
  let prev := prev_keyframe_idx i k in
  let next := next_keyframe_idx i k total in
  let t := blend_factor i prev next in
  exists kprev knext f,
    Dict.get Z.eqb prev keyframes = Some kprev
    /\ Dict.get Z.eqb next keyframes = Some knext
    /\ cv2.addWeighted kprev (float.sub 1 t) knext t 0%Q = Ok f
    /\ output_frame keyframes k total i = Ok (Blended, f).
Proof.
  intros Hi Hm prev next t.
  destruct (prev_keyframe_bounds i k Hk ltac:(lia)) as (Hp & _ & Hpm).
  destruct (next_keyframe_is_multiple i k total Hk Hi) as (Hn & Hnm).
  destruct (keyframe_lookup prev ltac:(fold prev in Hp; lia) Hpm)
    as (kprev & Hgp & Hpw & Hph).
  destruct (keyframe_lookup next Hn Hnm) as (knext & Hgn & Hnw & Hnh).
  exists kprev, knext.
  eexists. split; [exact Hgp|]. split; [exact Hgn|].
  split; [apply addWeighted_ok; congruence|].
  unfold output_frame.
  assert (Hnot : Dict.mem Z.eqb i keyframes = false).
  { destruct (Dict.mem Z.eqb i keyframes) eqn:E; [|reflexivity].
    apply Hkeys in E. tauto. }
  rewrite Hnot. unfold floordiv.
  destruct (Z.eqb_spec k 0); [lia|]. cbn [Py.bind].
  fold prev next. unfold Dict.mem, Dict.getitem. rewrite Hgp, Hgn.
  cbn [andb Py.bind]. fold t.
  rewrite addWeighted_ok by congruence. reflexivity.
Qed.

(** Whatever index below the count is asked for, a frame of the output size
    is produced, and never by the nearest-keyframe branch. *)
Lemma output_frame_ok (i : Z) :
  0 <= i < total ->
  exists b f, output_frame keyframes k total i = Ok (b, f)
              /\ b <> NearestFallback /\ width f = w /\ height f = h.
Proof.
  intros Hi. destruct (Z.eq_dec (i mod k) 0) as [Hm|Hm].
  - destruct (output_frame_keyframe i Hi Hm) as (f & Hf & ->).
    exists Keyframe, f. split; [reflexivity|]. split; [discriminate|].
    eapply Hsized; eauto.
  - destruct (output_frame_blended i Hi Hm)
      as (kp & kn & f & Hgp & Hgn & Hadd & ->).
    exists Blended, f. split; [reflexivity|]. split; [discriminate|].
    destruct (Hsized _ _ Hgp) as [Ew Eh].
    destruct (Hsized _ _ Hgn) as [Ew' Eh'].
    rewrite addWeighted_ok in Hadd by congruence.
    injection Hadd as <-. now split.
Qed.

Lemma write_frames_spec (indices : list Z) :
  Forall (fun i => 0 <= i < total) indices ->
  forall written,
  exists rs,
    write_frames keyframes k total w h indices written = Ok (written ++ rs)
    /\ Forall2 (fun i r => output_frame keyframes k total i = Ok r) indices rs.
Proof.
  induction 1 as [|i indices Hi Hrest IH]; intros written.
  - exists []. split; [simpl; now rewrite app_nil_r|constructor].
  - destruct (output_frame_ok i Hi) as (b & f & Hout & _ & Ew & Eh).
    cbn [write_frames]. rewrite Hout. cbn [Py.bind fst snd].
    unfold writer_write. rewrite Ew, Eh, !Z.eqb_refl. cbn [andb].
    destruct (IH (written ++ [(b, f)])) as (rs & -> & Hrs).
    exists ((b, f) :: rs). split; [now rewrite <- app_assoc|].
    now constructor.
Qed.

End SecondPass.

Lemma Forall2_nth_error_l {A B} (R : A -> B -> Prop) (l : list A)
  (l' : list B) (n : nat) (a : A) :
  Forall2 R l l' -> nth_error l n = Some a ->
  exists b, nth_error l' n = Some b /\ R a b.
Proof.
  intros H. revert n. induction H as [|x y l l' Hxy Hl IH]; intros n.
  - destruct n; discriminate.
  - destruct n as [|n]; simpl.
    + intros [= <-]. eauto.
    + apply IH.
Qed.

Section KeyframeRun.
Context {IM : Imaging}.
Variable outpaint : generator.

(** What the first pass leaves when it ends. *)
Lemma first_pass_keyframes (ext ext1 : AIImageExtender) (v : Video)
  (k : Z) (indices : list Z) (keyframes : list (Z * Image)) :
  0 < k ->
  let total := Z.of_nat (List.length (original_frames v)) in
  range3 0 total k = Ok indices ->
  process_keyframes outpaint (original_frames v) indices [] ext
  = (Ok keyframes, ext1) ->
  keyframes_at_multiples k total keyframes
  /\ keyframes_sized (frame_width v) (target_height_of (frame_width v))
                     keyframes.
Proof.
  intros Hk total Hrange Hrun.
  apply (process_keyframes_spec outpaint (frame_width v)) in Hrun.
  2:{ eapply Forall_impl; [|apply original_frames_size]. now intros im [? _]. }
  destruct Hrun as [Hmem Hsized]. split.
  - intros i. rewrite Hmem. rewrite (range3_In total k indices i Hk Hrange).
    split; [intros [H|H]; [discriminate|exact H]|auto].
  - apply Hsized. intros i f H. discriminate.
Qed.

(** The second pass on the keyframes of the first: one frame per index, in
    order, each what [output_frame] gives. *)
Lemma second_pass_frames (ext ext1 : AIImageExtender) (v : Video)
  (k : Z) (indices : list Z) (keyframes : list (Z * Image)) :
  0 < k ->
  let total := Z.of_nat (List.length (original_frames v)) in
  range3 0 total k = Ok indices ->
  process_keyframes outpaint (original_frames v) indices [] ext
  = (Ok keyframes, ext1) ->
  exists out,
    write_frames keyframes k total (frame_width v)
      (target_height_of (frame_width v)) (range total) [] = Ok out
    /\ Forall2 (fun i r => output_frame keyframes k total i = Ok r)
               (range total) out.
Proof.
  intros Hk total Hrange Hrun.
  destruct (first_pass_keyframes ext ext1 v k indices keyframes Hk Hrange Hrun)
    as [Hkeys Hsized].
  destruct (write_frames_spec keyframes k total (frame_width v)
              (target_height_of (frame_width v)) Hk Hkeys Hsized
              (range total)) with (written := @nil (branch * Image))
    as (rs & Hw & Hrs).
  - apply Forall_forall. intros i. apply range_In.
  - exists rs. split; [exact Hw|exact Hrs].
Qed.

Lemma range3_positive_ok (total k : Z) :
  0 < k -> exists indices, range3 0 total k = Ok indices.
Proof.
  intros Hk. unfold range3.
  destruct (Z.eqb_spec k 0); [lia|]. destruct (Z.ltb_spec 0 k); [|lia].
  eauto.
Qed.

(** A run of the keyframe mode that returns. *)
Lemma keyframe_run (ext ext' : AIImageExtender) (v : Video) (k : Z)
  (out : list (branch * Image)) :
  0 < k ->
  process_video_keyframes outpaint ext v k = (Ok out, ext') ->
  let total := Z.of_nat (List.length (frame_data v)) in
  exists keyframes,
    keyframes_at_multiples k total keyframes
    /\ keyframes_sized (frame_width v) (target_height_of (frame_width v))
                       keyframes
    /\ Forall2 (fun i r => output_frame keyframes k total i = Ok r)
               (range total) out.
Proof.
  intros Hk Hrun total. unfold process_video_keyframes in Hrun.
  destruct (range3_positive_ok
              (Z.of_nat (List.length (original_frames v))) k Hk)
    as (indices & Hrange).
  rewrite Hrange in Hrun.
  destruct (process_keyframes outpaint (original_frames v) indices [] ext)
    as [[keyframes|e] ext1] eqn:Hfirst; [|discriminate].
  destruct (first_pass_keyframes ext ext1 v k indices keyframes Hk Hrange
              Hfirst) as [Hkeys Hsized].
  destruct (second_pass_frames ext ext1 v k indices keyframes Hk Hrange
              Hfirst) as (rs & Hw & Hrs).
  rewrite Hw in Hrun. injection Hrun as <- <-.
  exists keyframes. unfold total. rewrite <- original_frames_length.
  split; [assumption|split; assumption].
Qed.

Lemma keyframe_run_total (ext : AIImageExtender) (v : Video) (k : Z) :
  0 < k -> 0 <= frame_width v -> 3 <= frame_height v ->
  exists out ext', process_video_keyframes outpaint ext v k = (Ok out, ext').
Proof.
  intros Hk Hw Hh. unfold process_video_keyframes.
  destruct (range3_positive_ok
              (Z.of_nat (List.length (original_frames v))) k Hk)
    as (indices & Hrange).
  rewrite Hrange.
  destruct (process_keyframes_total outpaint (original_frames v)) with
    (indices := indices) (keyframes0 := @nil (Z * Image)) (ext := ext)
    as (keyframes & ext1 & Hfirst).
  - eapply Forall_impl; [|apply original_frames_size].
    intros im [-> ->]. lia.
  - apply Forall_forall. intros i Hi.
    apply (range3_In _ k indices i Hk Hrange) in Hi. lia.
  - rewrite Hfirst.
    destruct (second_pass_frames ext ext1 v k indices keyframes Hk Hrange
                Hfirst) as (rs & -> & _).
    eauto.
Qed.

Lemma Forall2_length_eq {A B} (R : A -> B -> Prop) (l : list A) (l' : list B) :
  Forall2 R l l' -> List.length l' = List.length l.
Proof. induction 1; simpl; congruence. Qed.

End KeyframeRun.

(** *** Blending *)

Section BlendFacts.
Context {IM : Imaging}.
Local Open Scope Q_scope.

Lemma product_bound (p d e : Q) :
  0 <= p <= 255 -> - e <= d <= e ->
  - (255 * e) <= p * d /\ p * d <= 255 * e.
Proof.
  intros [P0 P1] [D0 D1].
  assert (A1 : 0 <= p * (e - d)) by (apply Qmult_le_0_compat; lra).
  assert (A2 : 0 <= p * (d + e)) by (apply Qmult_le_0_compat; lra).
  assert (A3 : 0 <= (255 - p) * e) by (apply Qmult_le_0_compat; lra).
  assert (E1 : p * (e - d) == p * e - p * d) by ring.
  assert (E2 : p * (d + e) == p * d + p * e) by ring.
  assert (E3 : (255 - p) * e == 255 * e - p * e) by ring.
  rewrite E1 in A1. rewrite E2 in A2. rewrite E3 in A3.
  set (pe := p * e) in *. set (pd := p * d) in *. split; lra.
Qed.

(** The two weights handed to [addWeighted] for a blend factor [t]: the
    float [t] and the float [1 - t]. *)
Lemma blend_weights (t : Q) :
  0 <= t <= 1 ->
  (0 <= float.round t <= 1)
  /\ (0 <= float.sub 1 (float.round t) <= 1)
  /\ Qabs (float.round t - t) <= 1 # 9007199254740992
  /\ Qabs (float.sub 1 (float.round t) - (1 - float.round t))
     <= 1 # 9007199254740992.
Proof.
  intros Ht. pose proof (round_unit t Ht) as Hb.
  assert (Hc : 0 <= 1 - float.round t <= 1) by lra.
  split; [exact Hb|]. split; [now apply round_unit|].
  split; [now apply round_unit_error|now apply round_unit_error].
Qed.

(** With those weights the exact weighted sum is the linear blend, up to
    the rounding of the weights. *)
Lemma weighted_sum_close (p q a b t : Q) :
  0 <= p <= 255 -> 0 <= q <= 255 ->
  Qabs (b - t) <= 1 # 9007199254740992 ->
  Qabs (a - (1 - b)) <= 1 # 9007199254740992 ->
  Qabs (p * a + q * b - ((1 - t) * p + t * q)) <= 1 # 1024.
Proof.
  intros Hp Hq Hb Ha.
  apply Qabs_Qle_condition in Hb. apply Qabs_Qle_condition in Ha.
  destruct (product_bound p (a - (1 - b)) (1 # 9007199254740992) Hp Ha)
    as [X1 X2].
  destruct (product_bound p (b - t) (1 # 9007199254740992) Hp Hb)
    as [Y1 Y2].
  destruct (product_bound q (b - t) (1 # 9007199254740992) Hq Hb)
    as [Z1 Z2].
  assert (E : p * a + q * b - ((1 - t) * p + t * q)
              == p * (a - (1 - b)) - p * (b - t) + q * (b - t)) by ring.
  rewrite E.
  set (X := p * (a - (1 - b))) in *. set (Y := p * (b - t)) in *.
  set (Z := q * (b - t)) in *.
  apply Qabs_Qle_condition. split; lra.
Qed.

Lemma u8_val_Q (a : u8) : 0 <= inject_Z (u8_val a) <= 255.
Proof.
  pose proof (u8_val_range a) as [R0 R1].
  split; [rewrite <- (Zle_Qle 0); exact R0|].
  change 255 with (inject_Z 255). rewrite <- Zle_Qle. exact R1.
Qed.

(** A blended sample is the linear blend of the two samples, rounded to an
    integer by the library: it lies within [1/2 + 1/512] of the exact
    value. *)
Lemma add_weighted_close (p q : u8) (t : Q) :
  0 <= t <= 1 ->
  Qabs (inject_Z (u8_val (add_weighted_px p (float.sub 1 (float.round t))
                                          q (float.round t) 0))
        - ((1 - t) * inject_Z (u8_val p) + t * inject_Z (u8_val q)))
  <= (1 # 2) + (1 # 512).
Proof.
  intros Ht.
  destruct (blend_weights t Ht) as (Hb & Ha & Eb & Ea).
  pose proof (u8_val_Q p) as Hp. pose proof (u8_val_Q q) as Hq.
  pose proof (weighted_sum_close _ _ _ _ _ Hp Hq Eb Ea) as Hclose.
  set (a := float.sub 1 (float.round t)) in *.
  set (b := float.round t) in *.
  assert (Hu : 0 <= (1 - t) * inject_Z (u8_val p) + t * inject_Z (u8_val q)
               <= 255).
  { assert (A1 : 0 <= (1 - t) * inject_Z (u8_val p))
      by (apply Qmult_le_0_compat; lra).
    assert (A2 : 0 <= t * inject_Z (u8_val q))
      by (apply Qmult_le_0_compat; lra).
    assert (A3 : 0 <= (1 - t) * (255 - inject_Z (u8_val p)))
      by (apply Qmult_le_0_compat; lra).
    assert (A4 : 0 <= t * (255 - inject_Z (u8_val q)))
      by (apply Qmult_le_0_compat; lra).
    assert (E3 : (1 - t) * (255 - inject_Z (u8_val p))
                 == 255 - 255 * t - (1 - t) * inject_Z (u8_val p)) by ring.
    assert (E4 : t * (255 - inject_Z (u8_val q))
                 == 255 * t - t * inject_Z (u8_val q)) by ring.
    rewrite E3 in A3. rewrite E4 in A4.
    set (X := (1 - t) * inject_Z (u8_val p)) in *.
    set (Y := t * inject_Z (u8_val q)) in *. split; lra. }
  apply Qabs_Qle_condition in Hclose.
  assert (Hv : inject_Z (u8_val p) * a + inject_Z (u8_val q) * b
               <= 255 + (1 # 4)).
  { set (v := inject_Z (u8_val p) * a + inject_Z (u8_val q) * b) in *.
    set (u := (1 - t) * inject_Z (u8_val p) + t * inject_Z (u8_val q)) in *.
    lra. }
  pose proof (add_weighted_accurate p q a b Ha Hb Hv) as Hlaw.
  apply Qabs_Qle_condition in Hlaw.
  set (r := inject_Z (u8_val (add_weighted_px p a q b 0))) in *.
  set (v := inject_Z (u8_val p) * a + inject_Z (u8_val q) * b) in *.
  set (u := (1 - t) * inject_Z (u8_val p) + t * inject_Z (u8_val q)) in *.
  apply Qabs_Qle_condition. split; lra.
Qed.

(** It lies between the two samples. *)
Lemma add_weighted_between (p q : u8) (t : Q) :
  0 <= t <= 1 ->
  (Z.min (u8_val p) (u8_val q)
   <= u8_val (add_weighted_px p (float.sub 1 (float.round t))
                              q (float.round t) 0)
   <= Z.max (u8_val p) (u8_val q))%Z.
Proof.
  intros Ht. pose proof (add_weighted_close p q t Ht) as Hc.
  apply Qabs_Qle_condition in Hc.
  set (r := u8_val (add_weighted_px p (float.sub 1 (float.round t))
                                    q (float.round t) 0)) in *.
  set (P := u8_val p) in *. set (Q' := u8_val q) in *.
  assert (Hu : inject_Z (Z.min P Q') <= (1 - t) * inject_Z P + t * inject_Z Q'
               /\ (1 - t) * inject_Z P + t * inject_Z Q'
                  <= inject_Z (Z.max P Q')).
  { destruct (Z.le_ge_cases P Q') as [L|L].
    - rewrite Z.min_l, Z.max_r by lia.
      assert (LQ : inject_Z P <= inject_Z Q') by (rewrite <- Zle_Qle; lia).
      assert (A1 : 0 <= t * (inject_Z Q' - inject_Z P))
        by (apply Qmult_le_0_compat; lra).
      assert (A2 : 0 <= (1 - t) * (inject_Z Q' - inject_Z P))
        by (apply Qmult_le_0_compat; lra).
      assert (E1 : t * (inject_Z Q' - inject_Z P)
                   == (1 - t) * inject_Z P + t * inject_Z Q' - inject_Z P)
        by ring.
      assert (E2 : (1 - t) * (inject_Z Q' - inject_Z P)
                   == inject_Z Q' - ((1 - t) * inject_Z P + t * inject_Z Q'))
        by ring.
      rewrite E1 in A1. rewrite E2 in A2.
      set (u := (1 - t) * inject_Z P + t * inject_Z Q') in *. split; lra.
    - rewrite Z.min_r, Z.max_l by lia.
      assert (LQ : inject_Z Q' <= inject_Z P) by (rewrite <- Zle_Qle; lia).
      assert (A1 : 0 <= (1 - t) * (inject_Z P - inject_Z Q'))
        by (apply Qmult_le_0_compat; lra).
      assert (A2 : 0 <= t * (inject_Z P - inject_Z Q'))
        by (apply Qmult_le_0_compat; lra).
      assert (E1 : (1 - t) * (inject_Z P - inject_Z Q')
                   == (1 - t) * inject_Z P + t * inject_Z Q' - inject_Z Q')
        by ring.
      assert (E2 : t * (inject_Z P - inject_Z Q')
                   == inject_Z P - ((1 - t) * inject_Z P + t * inject_Z Q'))
        by ring.
      rewrite E1 in A1. rewrite E2 in A2.
      set (u := (1 - t) * inject_Z P + t * inject_Z Q') in *. split; lra. }
  destruct Hu as [U1 U2].
  set (u := (1 - t) * inject_Z P + t * inject_Z Q') in *.
  split.
  - assert (L : inject_Z (Z.min P Q' - 1) < inject_Z r).
    { assert (E : inject_Z (Z.min P Q' - 1) == inject_Z (Z.min P Q') - 1)
        by (unfold Z.sub; rewrite inject_Z_plus; reflexivity).
      rewrite E. lra. }
    rewrite <- Zlt_Qlt in L. lia.
  - assert (L : inject_Z r < inject_Z (Z.max P Q' + 1)).
    { assert (E : inject_Z (Z.max P Q' + 1) == inject_Z (Z.max P Q') + 1)
        by (rewrite inject_Z_plus; reflexivity).
      rewrite E. lra. }
    rewrite <- Zlt_Qlt in L. lia.
Qed.

(** Two equal samples blend into the same sample. *)
Lemma add_weighted_same (p : u8) (t : Q) :
  0 <= t <= 1 ->
  add_weighted_px p (float.sub 1 (float.round t)) p (float.round t) 0 = p.
Proof.
  intros Ht. apply u8_val_inj.
  pose proof (add_weighted_between p p t Ht) as H.
  rewrite Z.min_id, Z.max_id in H. lia.
Qed.

Lemma blend_pixel_close (p q : pixel) (t : Q) (sel : pixel -> u8) :
  0 <= t <= 1 ->
  In sel [np.chan0; np.chan1; np.chan2] ->
  Qabs (inject_Z (u8_val (sel (cv2.blend_pixel
                                 p (float.sub 1 (float.round t))
                                 q (float.round t) 0)))
        - ((1 - t) * inject_Z (u8_val (sel p))
           + t * inject_Z (u8_val (sel q))))
  <= (1 # 2) + (1 # 512).
Proof.
  intros Ht Hsel. destruct p as [[p0 p1] p2], q as [[q0 q1] q2].
  unfold cv2.blend_pixel.
  destruct Hsel as [<- | [<- | [<- | []]]];
    cbn [np.chan0 np.chan1 np.chan2 fst snd];
    now apply add_weighted_close.
Qed.

Lemma blend_pixel_between (p q : pixel) (t : Q) (sel : pixel -> u8) :
  0 <= t <= 1 ->
  In sel [np.chan0; np.chan1; np.chan2] ->
  (Z.min (u8_val (sel p)) (u8_val (sel q))
   <= u8_val (sel (cv2.blend_pixel p (float.sub 1 (float.round t))
                                   q (float.round t) 0))
   <= Z.max (u8_val (sel p)) (u8_val (sel q)))%Z.
Proof.
  intros Ht Hsel. destruct p as [[p0 p1] p2], q as [[q0 q1] q2].
  unfold cv2.blend_pixel.
  destruct Hsel as [<- | [<- | [<- | []]]];
    cbn [np.chan0 np.chan1 np.chan2 fst snd];
    now apply add_weighted_between.
Qed.

Lemma blend_pixel_same (p : pixel) (t : Q) :
  0 <= t <= 1 ->
  cv2.blend_pixel p (float.sub 1 (float.round t)) p (float.round t) 0 = p.
Proof.
  intros Ht. destruct p as [[a b] c]. unfold cv2.blend_pixel.
  now rewrite !add_weighted_same.
Qed.

(** With the weights 1 and 0 a pixel is returned as it is. *)
Lemma blend_pixel_identity (p : pixel) :
  cv2.blend_pixel p (float.sub 1 0) p 0 0 = p.
Proof. apply (blend_pixel_same p 0). split; discriminate. Qed.

(** The blend factor is the float nearest to the quotient, which lies
    between 0 and 1. *)
Lemma blend_factor_round (i prev next : Z) :
  (prev <= i)%Z -> (i < next \/ next <= prev)%Z ->
  let t := if (next >? prev)%Z
           then inject_Z (i - prev) / inject_Z (next - prev)
           else 0 in
  blend_factor i prev next = float.round t /\ 0 <= t /\ t < 1.
Proof.
  intros Hp Hn. cbv zeta. unfold blend_factor, float.truediv.
  destruct (Z.gtb_spec next prev) as [Hgt|Hle];
    [|split; [reflexivity|split; [discriminate|reflexivity]]].
  split; [reflexivity|].
  assert (Hd : 0 < inject_Z (next - prev))
    by (rewrite <- (Zlt_Qlt 0); lia).
  split.
  - apply Qle_shift_div_l; [exact Hd|]. rewrite Qmult_0_l.
    rewrite <- (Zle_Qle 0). lia.
  - apply Qlt_shift_div_r; [exact Hd|]. rewrite Qmult_1_l.
    rewrite <- Zlt_Qlt. lia.
Qed.

End BlendFacts.

Lemma written_frame_at {IM : Imaging} (keyframes : list (Z * Image))
  (k total : Z)
  (out : list (branch * Image)) (j : Z) :
  Forall2 (fun i r => output_frame keyframes k total i = Ok r)
          (range total) out ->
  0 <= j < total ->
  exists r, List.nth_error out (Z.to_nat j) = Some r
            /\ output_frame keyframes k total j = Ok r.
Proof.
  intros Hrs Hj.
  assert (Hn : List.nth_error (range total) (Z.to_nat j) = Some j).
  { rewrite range_nth_error by lia. f_equal. lia. }
  destruct (Forall2_nth_error_l _ _ _ _ _ Hrs Hn) as (r & Hr & Ho).
  eauto.
Qed.

(* ================================================================= *)
(** ** Interpolation *)

(** C3.  In keyframe mode with a positive interval, a run that returns has,
    for every frame index [i] below the frame count that is not a multiple
    of the interval, written at position [i] the frame
    [addWeighted(keyframe[prev], 1 - t, keyframe[next], t, 0)]; the two
    keyframes are the frames written at [prev = floor(i/interval)*interval]
    and at [next = prev + interval], taken back to [prev] when it reaches
    the frame count, and the blend factor is the float of
    [t = (i - prev)/(next - prev)], or 0 when [next = prev].  Every sample
    of the frame written is the linear blend [(1-t)*p + t*q] of the samples
    [p] and [q] of the two keyframes at the same pixel and channel, rounded
    to an 8-bit integer by the library: it differs from the exact value by
    at most [1/2 + 1/512], so it is the exact value where that is an
    integer and one of the two integers around it otherwise. *)
Theorem interpolated_frame_is_linear_blend {IM : Imaging}
  (outpaint : generator) (ext ext' : AIImageExtender) (v : Video)
  (interval : Z) (out : list (branch * Image)) (i : Z) :
  0 < interval ->
  process_video_keyframes outpaint ext v interval = (Ok out, ext') ->
  let total := Z.of_nat (List.length (frame_data v)) in
  0 <= i < total -> i mod interval <> 0 ->
  let prev := (i / interval) * interval in
  let next := if prev + interval >=? total then prev else prev + interval in
  let t := if next =? prev then 0%Q
           else (inject_Z (i - prev) / inject_Z (next - prev))%Q in
  exists kprev knext f,
    List.nth_error out (Z.to_nat prev) = Some (Keyframe, kprev)
    /\ List.nth_error out (Z.to_nat next) = Some (Keyframe, knext)
    /\ List.nth_error out (Z.to_nat i) = Some (Blended, f)
    /\ cv2.addWeighted kprev (float.sub 1 (float.round t))
                       knext (float.round t) 0%Q = Ok f
    /\ width f = width kprev /\ height f = height kprev
    /\ (0 <= t < 1)%Q
    /\ forall x y sel,
         In sel [np.chan0; np.chan1; np.chan2] ->
         (Qabs (inject_Z (u8_val (sel (getpixel f x y)))
                - ((1 - t) * inject_Z (u8_val (sel (getpixel kprev x y)))
                   + t * inject_Z (u8_val (sel (getpixel knext x y)))))
          <= (1 # 2) + (1 # 512))%Q.
Proof.
  intros Hk Hrun total Hi Hm prev next t.
  destruct (keyframe_run outpaint ext ext' v interval out Hk Hrun)
    as (keyframes & Hkeys & Hsized & Hrs).
  fold total in Hkeys, Hrs.
  destruct (prev_keyframe_bounds i interval Hk ltac:(lia)) as (Hp & Hlt & Hpm).
  destruct (next_keyframe_is_multiple i interval total Hk Hi) as (Hn & Hnm).
  assert (Eprev : prev_keyframe_idx i interval = prev) by reflexivity.
  assert (Enext : next_keyframe_idx i interval total = next) by reflexivity.
  rewrite Eprev in Hp, Hlt, Hpm. rewrite Enext in Hn, Hnm.
  assert (Hpn : prev <= next)
    by (unfold next; destruct (prev + interval >=? total); lia).
  assert (Hin : i < next \/ next <= prev)
    by (unfold next; destruct (prev + interval >=? total); lia).
  destruct (blend_factor_round i prev next ltac:(lia) Hin) as (Ht & Ht0 & Ht1).
  assert (Et : (if next >? prev
                then (inject_Z (i - prev) / inject_Z (next - prev))%Q
                else 0%Q) = t).
  { unfold t. destruct (Z.gtb_spec next prev), (Z.eqb_spec next prev);
      try lia; reflexivity. }
  rewrite Et in Ht, Ht0, Ht1.
  destruct (output_frame_blended keyframes interval total
              (frame_width v) (target_height_of (frame_width v))
              Hk Hkeys Hsized i Hi Hm)
    as (kprev & knext & f & Hgp & Hgn & Hadd & Hout).
  cbv zeta in Hgp, Hgn, Hadd, Hout.
  rewrite Eprev in Hgp, Hadd. rewrite Enext in Hgn, Hadd.
  rewrite Ht in Hadd.
  exists kprev, knext, f.
  destruct (written_frame_at _ _ _ _ prev Hrs ltac:(lia)) as (rp & Hrp & Hop).
  destruct (output_frame_keyframe keyframes interval total
              (frame_width v) (target_height_of (frame_width v))
              Hkeys Hsized prev ltac:(lia) Hpm) as (fp & Hfp & Hofp).
  destruct (written_frame_at _ _ _ _ next Hrs Hn) as (rn & Hrn & Hon).
  destruct (output_frame_keyframe keyframes interval total
              (frame_width v) (target_height_of (frame_width v))
              Hkeys Hsized next Hn Hnm) as (fn & Hfn & Hofn).
  destruct (written_frame_at _ _ _ _ i Hrs Hi) as (ri & Hri & Hoi).
  assert (rp = (Keyframe, kprev)) by congruence.
  assert (rn = (Keyframe, knext)) by congruence.
  assert (ri = (Blended, f)) by congruence.
  subst rp rn ri.
  split; [exact Hrp|]. split; [exact Hrn|]. split; [exact Hri|].
  split; [exact Hadd|].
  destruct (Hsized _ _ Hgp) as [Ew Eh]. destruct (Hsized _ _ Hgn) as [Ew' Eh'].
  rewrite addWeighted_ok in Hadd by congruence.
  injection Hadd as <-. cbn [width height getpixel].
  split; [reflexivity|]. split; [reflexivity|]. split; [split; assumption|].
  intros x y sel Hsel. apply blend_pixel_close; [|exact Hsel].
  split; [exact Ht0|]. apply Qlt_le_weak. exact Ht1.
Qed.

Lemma interpolated_frame_is_linear_blend_witness :
  let r := process_video_keyframes (IM := Fixtures.plain_imaging)
             Fixtures.failing_generator (__init__ None)
             Fixtures.five_frames 2 in
  0 < 2
  /\ is_ok (fst r) = true
  /\ 0 <= 3 < Z.of_nat (List.length (frame_data Fixtures.five_frames))
  /\ 3 mod 2 <> 0
  /\ exists out kprev knext f,
       fst r = Ok out
       /\ List.nth_error out 2 = Some (Keyframe, kprev)
       /\ List.nth_error out 4 = Some (Keyframe, knext)
       /\ List.nth_error out 3 = Some (Blended, f)
       /\ (Qabs (inject_Z (u8_val (np.chan0 (getpixel f 0 6)))
                 - ((1 - (1 # 2))
                    * inject_Z (u8_val (np.chan0 (getpixel kprev 0 6)))
                    + (1 # 2)
                      * inject_Z (u8_val (np.chan0 (getpixel knext 0 6)))))
           <= (1 # 2) + (1 # 512))%Q.
Proof.
  cbv zeta.
  assert (Hok : is_ok (fst (process_video_keyframes
                              (IM := Fixtures.plain_imaging)
                              Fixtures.failing_generator (__init__ None)
                              Fixtures.five_frames 2)) = true)
    by (vm_compute; reflexivity).
  split; [lia|]. split; [exact Hok|]. split; [simpl; lia|].
  split; [discriminate|].
  destruct (process_video_keyframes (IM := Fixtures.plain_imaging)
              Fixtures.failing_generator (__init__ None)
              Fixtures.five_frames 2) as [[out|e] ext'] eqn:Hrun;
    [|discriminate Hok].
  destruct (interpolated_frame_is_linear_blend (IM := Fixtures.plain_imaging)
              Fixtures.failing_generator (__init__ None) ext'
              Fixtures.five_frames 2 out 3 ltac:(lia) Hrun
              ltac:(simpl; lia) ltac:(discriminate))
    as (kprev & knext & f & H2 & H4 & H3 & _ & _ & _ & _ & Hpx).
  exists out, kprev, knext, f.
  split; [reflexivity|]. split; [exact H2|]. split; [exact H4|].
  split; [exact H3|]. apply (Hpx 0 6 np.chan0). left. reflexivity.
Defined.

(* ================================================================= *)
(** ** Frame count *)

(** In keyframe mode with a negative interval the first pass stores nothing
    and the second pass raises at its first frame: such a run returns only
    for a video without frames. *)
Lemma keyframe_run_negative_interval {IM : Imaging} (outpaint : generator)
  (ext ext' : AIImageExtender) (v : Video) (k : Z)
  (out : list (branch * Image)) :
  k < 0 ->
  process_video_keyframes outpaint ext v k = (Ok out, ext') ->
  List.length out = List.length (frame_data v).
Proof.
  intros Hk. unfold process_video_keyframes, range3.
  rewrite original_frames_length.
  destruct (Z.eqb_spec k 0) as [|Hk0]; [lia|].
  destruct (Z.ltb_spec 0 k) as [|Hk1]; [lia|].
  set (cnt := List.length (frame_data v)).
  assert (Hc : Z.to_nat ((0 - Z.of_nat cnt - k - 1) / - k) = 0%nat).
  { assert ((0 - Z.of_nat cnt - k - 1) / - k <= 0); [|lia].
    destruct cnt as [|c'].
    - rewrite Z.div_small; lia.
    - apply Z.lt_succ_r. apply Z.div_lt_upper_bound; lia. }
  rewrite Hc. cbn [List.seq List.map process_keyframes].
  destruct cnt as [|c'].
  - simpl. intros [= <- <-]. reflexivity.
  - unfold range. rewrite Nat2Z.id. cbn [List.seq List.map write_frames].
    unfold output_frame, floordiv. cbn [Dict.mem Dict.get].
    destruct (Z.eqb_spec k 0) as [|_]; [lia|].
    cbn [Py.bind andb Dict.getitem Dict.get].
    discriminate.
Qed.

(** C4.  The output of either mode has exactly one frame per decoded input
    frame: every run of [process_video] or of [process_video_keyframes] that
    returns wrote as many frames as were read, and the run returns for a
    non-zero sample rate, respectively a positive keyframe interval, on
    frames of three rows or more. *)
Theorem output_frame_count_equals_input {IM : Imaging} (outpaint : generator)
  (ext : AIImageExtender) (v : Video) (sample_rate keyframe_interval : Z) :
  let n := List.length (frame_data v) in
  (forall out ext',
     process_video outpaint ext v sample_rate = (Ok out, ext') ->
     List.length out = n)
  /\ (forall out ext',
        process_video_keyframes outpaint ext v keyframe_interval
        = (Ok out, ext') ->
        List.length out = n)
  /\ (sample_rate <> 0 -> 0 <= frame_width v -> 3 <= frame_height v ->
      exists out ext',
        process_video outpaint ext v sample_rate = (Ok out, ext')
        /\ List.length out = n)
  /\ (0 < keyframe_interval -> 0 <= frame_width v -> 3 <= frame_height v ->
      exists out ext',
        process_video_keyframes outpaint ext v keyframe_interval
        = (Ok out, ext')
        /\ List.length out = n).
Proof.
  intros n.
  assert (Hkf : forall out ext',
            process_video_keyframes outpaint ext v keyframe_interval
            = (Ok out, ext') -> List.length out = n).
  { intros out ext' Hrun.
    destruct (Z.lt_trichotomy keyframe_interval 0) as [Hneg|[Hz|Hpos]].
    - eapply keyframe_run_negative_interval; eauto.
    - subst keyframe_interval. unfold process_video_keyframes in Hrun.
      discriminate.
    - destruct (keyframe_run outpaint ext ext' v keyframe_interval out Hpos Hrun)
        as (kf & _ & _ & Hrs).
      apply Forall2_length_eq in Hrs. rewrite Hrs, range_length. unfold n. lia. }
  split; [|split; [exact Hkf|split]].
  - intros out ext' Hrun. now apply process_video_count in Hrun.
  - intros Hsr Hw Hh.
    destruct (process_video_total outpaint ext v sample_rate Hsr Hw Hh)
      as (out & ext' & Hrun).
    exists out, ext'. split; [exact Hrun|].
    now apply process_video_count in Hrun.
  - intros Hk Hw Hh.
    destruct (keyframe_run_total outpaint ext v keyframe_interval Hk Hw Hh)
      as (out & ext' & Hrun).
    exists out, ext'. split; [exact Hrun|]. eauto.
Qed.

Lemma output_frame_count_equals_input_witness :
  (2 <> 0 /\ 0 < 2
   /\ 0 <= frame_width Fixtures.five_frames
   /\ 3 <= frame_height Fixtures.five_frames)
  /\ (exists out ext',
        process_video (IM := Fixtures.plain_imaging)
          Fixtures.failing_generator (__init__ None) Fixtures.five_frames 2
        = (Ok out, ext')
        /\ List.length out = 5%nat)
  /\ (exists out ext',
        process_video_keyframes (IM := Fixtures.plain_imaging)
          Fixtures.failing_generator (__init__ None) Fixtures.five_frames 2
        = (Ok out, ext')
        /\ List.length out = 5%nat).
Proof.
  assert (H : 2 <> 0 /\ 0 < 2
              /\ 0 <= frame_width Fixtures.five_frames
              /\ 3 <= frame_height Fixtures.five_frames)
    by (simpl; lia).
  split; [exact H|].
  destruct H as (H1 & H2 & H3 & H4).
  destruct (output_frame_count_equals_input (IM := Fixtures.plain_imaging)
              Fixtures.failing_generator (__init__ None)
              Fixtures.five_frames 2 2) as (_ & _ & Hpv & Hkf).
  split; [exact (Hpv H1 H3 H4)|exact (Hkf H2 H3 H4)].
Defined.

(* ================================================================= *)
(** ** The neighbours of an interpolated frame *)

Lemma Forall2_Forall_r {A B} (R : A -> B -> Prop) (P : B -> Prop)
  (l : list A) (l' : list B) :
  (forall a b, In a l -> R a b -> P b) -> Forall2 R l l' -> Forall P l'.
Proof.
  intros HP H. induction H as [|a b l l' Hab Hl IH]; constructor.
  - apply (HP a b); [now left|exact Hab].
  - apply IH. intros a' b' Hin. apply HP. now right.
Qed.

(** C9 (as amended).  In keyframe mode with a positive interval, once the
    first pass has ended, the keyframes map holds every multiple of the
    interval below the frame count; so for every frame index [i] below the
    count both [floor(i/interval)*interval] and the next keyframe index
    (taken back to the previous one at the end of the video) are keys of
    the map, the body of the second loop produces a frame for [i] by another
    branch than the nearest-keyframe one, and the second pass writes one
    frame per index without raising. *)
Theorem keyframe_neighbours_always_present {IM : Imaging}
  (outpaint : generator) (ext ext1 : AIImageExtender) (v : Video)
  (interval : Z) (indices : list Z) (keyframes : list (Z * Image)) :
  0 < interval ->
  let total := Z.of_nat (List.length (frame_data v)) in
  range3 0 total interval = Ok indices ->
  process_keyframes outpaint (original_frames v) indices [] ext
  = (Ok keyframes, ext1) ->
  (forall m, 0 <= m < total -> m mod interval = 0 ->
             Dict.mem Z.eqb m keyframes = true)
  /\ (forall i, 0 <= i < total ->
        Dict.mem Z.eqb (i / interval * interval) keyframes = true
        /\ Dict.mem Z.eqb (next_keyframe_idx i interval total) keyframes = true
        /\ exists b f, output_frame keyframes interval total i = Ok (b, f)
                       /\ b <> NearestFallback)
  /\ exists out,
       process_video_keyframes outpaint ext v interval = (Ok out, ext1)
       /\ List.length out = List.length (frame_data v)
       /\ Forall (fun r => fst r <> NearestFallback) out.
Proof.
  intros Hk total Hrange Hfirst.
  unfold total in *. rewrite <- original_frames_length in *.
  destruct (first_pass_keyframes outpaint ext ext1 v interval indices keyframes
              Hk Hrange Hfirst) as [Hkeys Hsized].
  destruct (second_pass_frames outpaint ext ext1 v interval indices keyframes
              Hk Hrange Hfirst) as (out & Hw & Hrs).
  split; [|split].
  - intros m Hm Hmod. apply Hkeys. auto.
  - intros i Hi.
    destruct (prev_keyframe_bounds i interval Hk ltac:(lia)) as (Hp & _ & Hpm).
    destruct (next_keyframe_is_multiple i interval _ Hk Hi) as (Hn & Hnm).
    split; [apply Hkeys; unfold prev_keyframe_idx in *; split; [lia|exact Hpm]|].
    split; [apply Hkeys; auto|].
    destruct (output_frame_ok keyframes interval _ _ _ Hk Hkeys Hsized i Hi)
      as (b & f & Ho & Hb & _).
    eauto.
  - exists out. split; [|split].
    + unfold process_video_keyframes. rewrite Hrange, Hfirst, Hw. reflexivity.
    + apply Forall2_length_eq in Hrs. rewrite Hrs, range_length. lia.
    + eapply Forall2_Forall_r; [|exact Hrs].
      intros i r Hin Ho. apply range_In in Hin.
      destruct (output_frame_ok keyframes interval _ _ _ Hk Hkeys Hsized i Hin)
        as (b & f & Ho' & Hb & _).
      rewrite Ho in Ho'. injection Ho' as ->. exact Hb.
Qed.

Lemma keyframe_neighbours_always_present_witness :
  let first := process_keyframes (IM := Fixtures.plain_imaging)
                 Fixtures.failing_generator
                 (original_frames Fixtures.five_frames) [0; 2; 4] []
                 (__init__ None) in
  0 < 2
  /\ range3 0 5 2 = Ok [0; 2; 4]
  /\ is_ok (fst first) = true
  /\ exists out ext1,
       process_video_keyframes (IM := Fixtures.plain_imaging)
         Fixtures.failing_generator (__init__ None) Fixtures.five_frames 2
       = (Ok out, ext1)
       /\ List.length out = 5%nat
       /\ Forall (fun r => fst r <> NearestFallback) out.
Proof.
  cbv zeta.
  assert (Hok : is_ok (fst (process_keyframes (IM := Fixtures.plain_imaging)
                              Fixtures.failing_generator
                              (original_frames Fixtures.five_frames)
                              [0; 2; 4] [] (__init__ None))) = true)
    by (vm_compute; reflexivity).
  split; [lia|]. split; [reflexivity|]. split; [exact Hok|].
  destruct (process_keyframes (IM := Fixtures.plain_imaging)
              Fixtures.failing_generator
              (original_frames Fixtures.five_frames) [0; 2; 4] []
              (__init__ None)) as [[keyframes|e] ext1] eqn:Hfirst;
    [|discriminate Hok].
  destruct (keyframe_neighbours_always_present (IM := Fixtures.plain_imaging)
              Fixtures.failing_generator (__init__ None) ext1
              Fixtures.five_frames 2 [0; 2; 4] keyframes
              ltac:(lia) eq_refl Hfirst) as (_ & _ & out & Hrun & Hlen & Hall).
  exists out, ext1. split; [exact Hrun|]. split; [exact Hlen|exact Hall].
Defined.

(** The claim as written fails, for it puts no condition on the interval:
    with the interval -2 on five frames, [range(0, 5, -2)] is empty and the
    first pass ends with no keyframe.  At frame 0 the previous keyframe
    index [floor(0 / -2) * -2 = 0] and the next one, -2, are no keys of the
    map; the second loop takes the nearest-keyframe branch, where
    [keyframes[-2]] raises [KeyError], and the run writes no frame. *)
Lemma negative_interval_takes_nearest_keyframe_branch :
  let ext := __init__ None in
  let v := Fixtures.five_frames in
  range3 0 5 (-2) = Ok []
  /\ process_keyframes (IM := Fixtures.plain_imaging)
       Fixtures.failing_generator (original_frames v) [] [] ext
     = (Ok [], ext)
  /\ prev_keyframe_idx 0 (-2) = 0
  /\ next_keyframe_idx 0 (-2) 5 = -2
  /\ Dict.mem Z.eqb (prev_keyframe_idx 0 (-2)) (@nil (Z * Image)) = false
  /\ Dict.getitem Z.eqb (-2) (@nil (Z * Image)) = Raise KeyError
  /\ output_frame (IM := Fixtures.plain_imaging) [] (-2) 5 0
     = Raise KeyError
  /\ process_video_keyframes (IM := Fixtures.plain_imaging)
       Fixtures.failing_generator ext v (-2)
     = (Raise KeyError, ext).
Proof. cbv zeta. repeat split; vm_compute; reflexivity. Qed.

(* ================================================================= *)
(** ** Interval 24, fifty frames *)

(** C8 (as amended).  For keyframe interval 24 and 50 frames, the keyframes
    are frames 0, 24 and 48.  The next keyframe index of frame 36 is 48,
    which is below 50 and is not taken back: the output of frame 36 is the
    blend of the keyframes 24 and 48 with [t = 12/24], which as a float is
    exactly one half, as is [1 - t]; every sample of it lies within
    [1/2 + 1/512] of the mean of the two keyframe samples.  Frame 49, whose
    next keyframe index 72 is taken back to 48, is written with [t = 0] and
    equals keyframe 48 exactly. *)
Theorem interval_24_of_50_frames {IM : Imaging} (outpaint : generator)
  (ext ext' : AIImageExtender) (v : Video) (out : list (branch * Image)) :
  List.length (frame_data v) = 50%nat ->
  process_video_keyframes outpaint ext v 24 = (Ok out, ext') ->
  (forall i b f, List.nth_error out i = Some (b, f) ->
                 (b = Keyframe <-> i = 0%nat \/ i = 24%nat \/ i = 48%nat))
  /\ exists k24 k48 f36 f49,
       List.nth_error out 24 = Some (Keyframe, k24)
       /\ List.nth_error out 48 = Some (Keyframe, k48)
       /\ List.nth_error out 36 = Some (Blended, f36)
       /\ cv2.addWeighted k24 (float.sub 1 (float.truediv 12 24))
                          k48 (float.truediv 12 24) 0%Q = Ok f36
       /\ (forall x y,
             getpixel f36 x y
             = cv2.blend_pixel (getpixel k24 x y)
                               (float.sub 1 (float.truediv 12 24))
                               (getpixel k48 x y) (float.truediv 12 24) 0%Q)
       /\ float.truediv 12 24 = (1 # 2)%Q
       /\ float.sub 1 (float.truediv 12 24) = (1 # 2)%Q
       /\ (12 # 24 == 1 # 2)%Q
       /\ (forall x y sel,
             In sel [np.chan0; np.chan1; np.chan2] ->
             (Qabs (inject_Z (u8_val (sel (getpixel f36 x y)))
                    - ((1 - (12 # 24))
                       * inject_Z (u8_val (sel (getpixel k24 x y)))
                       + (12 # 24)
                         * inject_Z (u8_val (sel (getpixel k48 x y)))))
              <= (1 # 2) + (1 # 512))%Q)
       /\ List.nth_error out 49 = Some (Blended, f49)
       /\ width f49 = width k48 /\ height f49 = height k48
       /\ forall x y, getpixel f49 x y = getpixel k48 x y.
Proof.
  intros Hlen Hrun.
  destruct (keyframe_run outpaint ext ext' v 24 out ltac:(lia) Hrun)
    as (kf & Hkeys & Hsized & Hrs).
  cbv zeta in Hkeys, Hrs. rewrite Hlen in Hkeys, Hrs.
  change (Z.of_nat 50) with 50 in Hkeys, Hrs.
  set (w := frame_width v) in *. set (h := target_height_of w) in *.
  assert (Hk : 0 < 24) by lia.
  split.
  - intros i b f Hnth.
    assert (Hi : (i < 50)%nat).
    { apply Forall2_length_eq in Hrs. rewrite range_length in Hrs.
      assert (nth_error out i <> None) by congruence.
      apply nth_error_Some in H. simpl in Hrs. lia. }
    destruct (written_frame_at kf 24 50 out (Z.of_nat i) Hrs ltac:(lia))
      as (r & Hr & Ho).
    rewrite Nat2Z.id in Hr. rewrite Hnth in Hr. injection Hr as <-.
    destruct (Z.eq_dec (Z.of_nat i mod 24) 0) as [Hm|Hm].
    + destruct (output_frame_keyframe kf 24 50 w h Hkeys Hsized
                  (Z.of_nat i) ltac:(lia) Hm) as (f' & _ & Ho').
      rewrite Ho in Ho'. injection Ho' as -> ->.
      split; [intros _|reflexivity].
      apply Z.mod_divide in Hm; [|lia]. destruct Hm as (q & Hq). lia.
    + destruct (output_frame_blended kf 24 50 w h Hk Hkeys Hsized
                  (Z.of_nat i) ltac:(lia) Hm)
        as (kp & kn & f' & _ & _ & _ & Ho').
      rewrite Ho in Ho'. injection Ho' as -> ->.
      split; [discriminate|].
      intros [-> | [-> | ->]]; exfalso; apply Hm; reflexivity.
  - destruct (output_frame_blended kf 24 50 w h Hk Hkeys Hsized 36
                ltac:(lia) ltac:(discriminate))
      as (k24 & k48 & f36 & Hg24 & Hg48 & Hadd36 & Ho36).
    destruct (output_frame_blended kf 24 50 w h Hk Hkeys Hsized 49
                ltac:(lia) ltac:(discriminate))
      as (k48' & k48'' & f49 & Hg48' & Hg48'' & Hadd49 & Ho49).
    cbv zeta in Hg24, Hg48, Hadd36, Hg48', Hg48'', Hadd49.
    change (prev_keyframe_idx 36 24) with 24 in Hg24, Hadd36.
    change (next_keyframe_idx 36 24 50) with 48 in Hg48, Hadd36.
    change (blend_factor 36 24 48) with (float.truediv 12 24) in Hadd36.
    change (prev_keyframe_idx 49 24) with 48 in Hg48', Hadd49.
    change (next_keyframe_idx 49 24 50) with 48 in Hg48'', Hadd49.
    change (blend_factor 49 48 48) with 0%Q in Hadd49.
    assert (k48' = k48) by congruence. assert (k48'' = k48) by congruence.
    subst k48' k48''.
    destruct (output_frame_keyframe kf 24 50 w h Hkeys Hsized 24
                ltac:(lia) eq_refl) as (a & Ha & Ho24).
    destruct (output_frame_keyframe kf 24 50 w h Hkeys Hsized 48
                ltac:(lia) eq_refl) as (c & Hc & Ho48).
    assert (a = k24) by congruence. assert (c = k48) by congruence.
    subst a c.
    destruct (written_frame_at kf 24 50 out 24 Hrs ltac:(lia))
      as (r24 & Hr24 & Ho24').
    destruct (written_frame_at kf 24 50 out 48 Hrs ltac:(lia))
      as (r48 & Hr48 & Ho48').
    destruct (written_frame_at kf 24 50 out 36 Hrs ltac:(lia))
      as (r36 & Hr36 & Ho36').
    destruct (written_frame_at kf 24 50 out 49 Hrs ltac:(lia))
      as (r49 & Hr49 & Ho49').
    assert (r24 = (Keyframe, k24)) by congruence.
    assert (r48 = (Keyframe, k48)) by congruence.
    assert (r36 = (Blended, f36)) by congruence.
    assert (r49 = (Blended, f49)) by congruence.
    subst r24 r48 r36 r49.
    exists k24, k48, f36, f49.
    destruct (Hsized _ _ Hg24) as [Ew24 Eh24].
    destruct (Hsized _ _ Hg48) as [Ew48 Eh48].
    split; [exact Hr24|]. split; [exact Hr48|]. split; [exact Hr36|].
    split; [exact Hadd36|].
    rewrite addWeighted_ok in Hadd36 by congruence.
    rewrite addWeighted_ok in Hadd49 by congruence.
    injection Hadd36 as <-. injection Hadd49 as <-.
    split; [reflexivity|]. split; [reflexivity|]. split; [reflexivity|].
    split; [reflexivity|]. split.
    { intros x y sel Hsel. cbn [getpixel].
      apply (blend_pixel_close (getpixel k24 x y) (getpixel k48 x y)
               (inject_Z 12 / inject_Z 24)%Q sel);
        [split; discriminate|exact Hsel]. }
    split; [exact Hr49|]. split; [reflexivity|]. split; [reflexivity|].
    intros x y. cbn [getpixel]. apply blend_pixel_identity.
Qed.

Lemma interval_24_of_50_frames_witness :
  let r := process_video_keyframes (IM := Fixtures.plain_imaging)
             Fixtures.failing_generator (__init__ None)
             Fixtures.fifty_frames 24 in
  List.length (frame_data Fixtures.fifty_frames) = 50%nat
  /\ is_ok (fst r) = true
  /\ exists out k48 f49,
       fst r = Ok out
       /\ List.nth_error out 48 = Some (Keyframe, k48)
       /\ List.nth_error out 49 = Some (Blended, f49)
       /\ getpixel f49 0 6 = getpixel k48 0 6.
Proof.
  cbv zeta.
  assert (Hok : is_ok (fst (process_video_keyframes
                              (IM := Fixtures.plain_imaging)
                              Fixtures.failing_generator (__init__ None)
                              Fixtures.fifty_frames 24)) = true)
    by (vm_compute; reflexivity).
  split; [reflexivity|]. split; [exact Hok|].
  destruct (process_video_keyframes (IM := Fixtures.plain_imaging)
              Fixtures.failing_generator (__init__ None)
              Fixtures.fifty_frames 24) as [[out|e] ext'] eqn:Hrun;
    [|discriminate Hok].
  destruct (interval_24_of_50_frames (IM := Fixtures.plain_imaging)
              Fixtures.failing_generator (__init__ None) ext'
              Fixtures.fifty_frames out eq_refl Hrun)
    as (_ & k24 & k48 & f36 & f49 & _ & H48 & _ & _ & _ & _ & _ & _ & _
        & H49 & _ & _ & Hpx).
  exists out, k48, f49.
  split; [reflexivity|]. split; [exact H48|]. split; [exact H49|]. apply Hpx.
Defined.

(** The claim as written fails: on fifty flat 9 by 3 frames, frame [j] of
    sample value [j], frames 24 and 48 are written as keyframes and frame 36
    as a blend; at column 0 of row 6, a source row, keyframe 24 has samples
    24, keyframe 48 has samples 48 and the output of frame 36 has samples
    36. *)
Lemma frame_36_is_not_keyframe_24 :
  let r := fst (process_video_keyframes (IM := Fixtures.plain_imaging)
                  Fixtures.failing_generator (__init__ None)
                  Fixtures.fifty_frames 24) in
  Fixtures.pixel_at r 24 0 6 = Some (Keyframe, (x18, x18, x18))
  /\ Fixtures.pixel_at r 48 0 6 = Some (Keyframe, (x30, x30, x30))
  /\ Fixtures.pixel_at r 36 0 6 = Some (Blended, (x24, x24, x24))
  /\ Fixtures.pixel_at r 36 0 6 <> Fixtures.pixel_at r 24 0 6.
Proof.
  cbv zeta. repeat split; try (vm_compute; reflexivity).
  vm_compute. discriminate.
Qed.

(* ================================================================= *)
(** ** Further properties of the extender *)

(** X1.  [_stable_diffusion_outpaint] never returns an image, whatever the
    network does.  Without a token it raises the exception "No API token
    provided"; with one, when the model call and the download succeed, with
    a URL object or with a non-empty list of URLs, it raises [NameError],
    because [io] is not a name of the module; and on any other output it
    raises "No output from Stable Diffusion". *)
Theorem hosted_generator_always_raises {IM : Imaging} (net : Network)
  (token_ok : bool) (n : nat) (image : Image) (pos : position) (w eh : Z) :
  let call := _stable_diffusion_outpaint net token_ok n image pos w eh in
  let prompt := _generate_prompt_from_image image pos in
  (exists e, call = Raise e)
  /\ (token_ok = false -> call = Raise (Exception_ "No API token provided"))
  /\ (token_ok = true ->
      forall url content,
        (replicate_run net n prompt = Ok (FileOutput url)
         \/ exists rest, replicate_run net n prompt = Ok (UrlList (url :: rest))) ->
        requests_get net url = Ok content ->
        call = Raise NameError)
  /\ (token_ok = true ->
      (replicate_run net n prompt = Ok OtherOutput
       \/ replicate_run net n prompt = Ok (UrlList [])) ->
      call = Raise (Exception_ "No output from Stable Diffusion")).
Proof.
  cbv zeta. split; [apply stable_diffusion_outpaint_never_returns|].
  unfold _stable_diffusion_outpaint. split; [intros ->; reflexivity|]. split.
  - intros -> url content [Hrun|(rest & Hrun)] Hget; cbn [negb];
      rewrite Hrun; cbn [Py.bind]; rewrite Hget; reflexivity.
  - intros -> [Hrun|Hrun]; cbn [negb]; rewrite Hrun; reflexivity.
Qed.

Lemma hosted_generator_always_raises_witness :
  token_set (__init__ (Some "token"%string)) = true
  /\ replicate_run Fixtures.friendly_network 0
       (_generate_prompt_from_image (Fixtures.flat 16 9 x80) bottom)
     = Ok (FileOutput "https://example.invalid/out.png")
  /\ _stable_diffusion_outpaint (IM := Fixtures.plain_imaging)
       Fixtures.friendly_network true 0 (Fixtures.flat 16 9 x80) bottom 16 9
     = Raise NameError.
Proof.
  split; [reflexivity|]. split; [reflexivity|].
  destruct (hosted_generator_always_raises (IM := Fixtures.plain_imaging)
              Fixtures.friendly_network true 0 (Fixtures.flat 16 9 x80)
              bottom 16 9) as (_ & _ & H & _).
  apply (H eq_refl "https://example.invalid/out.png"%string
           [x89; x50; x4e; x47]).
  - left. reflexivity.
  - reflexivity.
Defined.

(** *** The cache under any generator *)

Lemma dict_del_length {V} (k : string) (d : list (string * V)) :
  (List.length (Dict.del String.eqb k d) <= List.length d)%nat.
Proof.
  induction d as [|[k' v'] d IH]; simpl; [lia|].
  destruct (String.eqb k k'); simpl; lia.
Qed.

Lemma dict_set_length {V} (k : string) (v : V) (d : list (string * V)) :
  (List.length (Dict.set String.eqb k v d) <= S (List.length d))%nat.
Proof.
  induction d as [|[k' v'] d IH]; simpl; [lia|].
  destruct (String.eqb k k'); simpl; lia.
Qed.

Lemma cache_put_length (key : string) (v : Image) (c : list (string * Image)) :
  Dict.len (cache_put key v c) <= Dict.len c + 1.
Proof.
  unfold cache_put, limit_cache_size, Dict.len.
  pose proof (dict_set_length key v c) as Hs.
  destruct (50 <? _); [|lia].
  assert (G : forall ks (d : list (string * Image)),
            (List.length
               (List.fold_left (fun d0 k0 => Dict.del String.eqb k0 d0) ks d)
             <= List.length d)%nat).
  { induction ks as [|k0 ks IH]; intros d; simpl; [lia|].
    etransitivity; [apply IH|apply dict_del_length]. }
  specialize (G (List.firstn 10 (Dict.keys (Dict.set String.eqb key v c)))
                (Dict.set String.eqb key v c)).
  lia.
Qed.

Lemma dict_get_skipn_Some (k : string) (x : Image) (n : nat)
  (c : list (string * Image)) :
  NoDup (Dict.keys c) ->
  Dict.get String.eqb k (List.skipn n c) = Some x ->
  Dict.get String.eqb k c = Some x.
Proof.
  revert c. induction n as [|n IH]; intros c Hnd H; [exact H|].
  destruct c as [|[k' v'] c]; [discriminate|]. simpl in H |- *.
  inversion Hnd as [|? ? Hni Hnd']; subst.
  specialize (IH c Hnd' H).
  destruct (String.eqb_spec k k') as [->|_]; [|exact IH].
  exfalso. apply Hni.
  assert (Dict.get String.eqb k' c <> None) by congruence.
  destruct (in_dec string_dec k' (Dict.keys c)) as [I|I]; [exact I|].
  apply (dict_get_None String.eqb String.eqb_spec) in I. contradiction.
Qed.

(** What [cache_put] under a new key holds was there before, or is the new
    entry. *)
Lemma cache_put_get_inv (key k : string) (v x : Image)
  (c : list (string * Image)) :
  NoDup (Dict.keys c) -> Dict.get String.eqb key c = None ->
  Dict.get String.eqb k (cache_put key v c) = Some x ->
  (k = key /\ x = v) \/ Dict.get String.eqb k c = Some x.
Proof.
  intros Hnd Hget H. rewrite cache_put_new in H by assumption.
  assert (Hnd' : NoDup (Dict.keys (c ++ [(key, v)])))
    by now apply NoDup_keys_snoc.
  assert (H' : Dict.get String.eqb k (c ++ [(key, v)]) = Some x).
  { destruct (50 <? Dict.len c + 1); [|exact H].
    eapply dict_get_skipn_Some; eauto. }
  rewrite <- (dict_set_absent String.eqb String.eqb_spec) in H' by assumption.
  destruct (string_dec k key) as [->|Hne].
  - rewrite (dict_get_set_same String.eqb String.eqb_spec) in H'.
    left. split; congruence.
  - rewrite (dict_get_set_other String.eqb String.eqb_spec) in H' by assumption.
    now right.
Qed.

(** The conditions under which a request goes past line 117. *)
Lemma positive_request_dims (w eh : Z) :
  (eh <=? 0) || (w <=? 0) = false -> 0 < w /\ 0 < eh.
Proof.
  destruct (Z.leb_spec eh 0), (Z.leb_spec w 0); simpl; intros; try discriminate.
  lia.
Qed.

(** X4.  The cache holds generated patches only: after any run of requests
    from a fresh extender, every patch in the cache was returned by an
    earlier call of the generator for a request of positive size with that
    key.  A fallback patch is never in the cache. *)
Theorem cached_patches_come_from_the_generator {IM : Imaging}
  (outpaint : generator) (token : option string) (rs : list request) :
  let final := serve outpaint (__init__ token) rs in
  forall key patch,
    Dict.get String.eqb key (extension_cache final) = Some patch ->
    exists n image pos w eh,
      (n < generation_calls final)%nat
      /\ 0 < w /\ 0 < eh
      /\ request_key image pos w eh = Ok key
      /\ outpaint n image pos w eh = Ok patch.
Proof.
  cbv zeta.
  set (sound := fun self : AIImageExtender =>
    cache_inv (extension_cache self)
    /\ forall key patch,
         Dict.get String.eqb key (extension_cache self) = Some patch ->
         exists n image pos w eh,
           (n < generation_calls self)%nat
           /\ 0 < w /\ 0 < eh
           /\ request_key image pos w eh = Ok key
           /\ outpaint n image pos w eh = Ok patch).
  assert (Hstep : forall self image pos w eh,
            sound self ->
            sound (snd (_generate_ai_extension outpaint self image pos w eh))).
  { intros self image pos w eh [Hinv Hs]. unfold _generate_ai_extension.
    destruct ((eh <=? 0) || (w <=? 0)) eqn:Hdeg; [split; assumption|].
    apply positive_request_dims in Hdeg. destruct Hdeg as [Hw Heh].
    destruct (request_key image pos w eh) as [key|e] eqn:Hkey;
      [|split; assumption].
    destruct (Dict.get String.eqb key (extension_cache self)) eqn:Hget;
      [split; assumption|].
    destruct (negb (token_set (count_miss self))); [split; assumption|].
    destruct (outpaint _ image pos w eh) as [extension|e] eqn:Hgen;
      cbn [snd].
    - split; [apply cache_put_inv; exact Hinv|].
      cbn [extension_cache with_cache generation_calls count_generation
           count_miss].
      intros k x Hk.
      destruct (cache_put_get_inv key k extension x (extension_cache self)
                  (proj1 Hinv) Hget Hk) as [[-> ->]|Hold].
      + exists (generation_calls self), image, pos, w, eh.
        repeat split; auto.
      + destruct (Hs k x Hold) as (n & im & p & w' & eh' & Hn & Hr).
        exists n, im, p, w', eh'. split; [lia|exact Hr].
    - split; [exact Hinv|].
      cbn [extension_cache generation_calls count_generation count_miss].
      intros k x Hk.
      destruct (Hs k x Hk) as (n & im & p & w' & eh' & Hn & Hr).
      exists n, im, p, w', eh'. split; [lia|exact Hr]. }
  assert (Hrun : forall rs self, sound self -> sound (serve outpaint self rs)).
  { induction rs0 as [|r rs0 IH]; intros self Hs; [exact Hs|].
    rewrite serve_cons. apply IH. apply Hstep. exact Hs. }
  apply Hrun. split; [apply cache_inv_empty|]. intros key patch H. discriminate.
Qed.

(** X3.  The counters account for the requests.  After any run of requests
    on well-formed images from a fresh extender, hits plus misses is the
    number of requests of positive size; the generator was called at most
    once per miss; the cache holds at most as many entries as the generator
    was called; and no hit is counted before the generator was called. *)
Theorem counters_account_for_requests {IM : Imaging} (outpaint : generator)
  (token : option string) (rs : list request) :
  Forall (fun r => 0 <= height (req_image r)) rs ->
  let final := serve outpaint (__init__ token) rs in
  cache_hits final + cache_misses final
  = Z.of_nat (List.length (List.filter positive_request rs))
  /\ 0 <= cache_hits final
  /\ Z.of_nat (generation_calls final) <= cache_misses final
  /\ Dict.len (extension_cache final) <= Z.of_nat (generation_calls final)
  /\ (generation_calls final = 0%nat -> cache_hits final = 0).
Proof.
  intros Hwf. cbv zeta.
  set (inv := fun (self : AIImageExtender) (served : Z) =>
    cache_hits self + cache_misses self = served
    /\ 0 <= cache_hits self
    /\ Z.of_nat (generation_calls self) <= cache_misses self
    /\ Dict.len (extension_cache self) <= Z.of_nat (generation_calls self)
    /\ (generation_calls self = 0%nat -> cache_hits self = 0)).
  assert (G : forall rs self served,
            Forall (fun r => 0 <= height (req_image r)) rs ->
            inv self served ->
            inv (serve outpaint self rs)
                (served
                 + Z.of_nat (List.length (List.filter positive_request rs)))).
  { clear. induction rs as [|r rs IH]; intros self served Hwf Hinv.
    - simpl. now rewrite Z.add_0_r.
    - inversion Hwf as [|? ? Hr Hrs]; subst. rewrite serve_cons.
      unfold serve_one. simpl List.filter. unfold positive_request at 1.
      destruct Hinv as (I1 & I2 & I3 & I4 & I5).
      destruct (Z.ltb_spec 0 (req_width r)) as [Hw|Hw];
        [destruct (Z.ltb_spec 0 (req_height r)) as [Hh|Hh]|]; cbn [andb].
      + destruct (request_key_ok (req_image r) (req_position r)
                    (req_width r) (req_height r)) as (key & Hkey);
          [lia|exact Hr|].
        cbn [List.length].
        replace (served + Z.of_nat (S (List.length
                   (List.filter positive_request rs))))
          with ((served + 1)
                + Z.of_nat (List.length (List.filter positive_request rs)))
          by lia.
        apply IH; [exact Hrs|].
        destruct (Dict.get String.eqb key (extension_cache self))
          as [cached|] eqn:Hget.
        * rewrite (generate_hit outpaint self _ _ _ _ key Hw Hh Hkey cached)
            by exact Hget.
          cbn [snd]. unfold inv. cbn.
          assert (extension_cache self <> []) by (intros E; rewrite E in Hget;
                                                   discriminate).
          assert (0 < Dict.len (extension_cache self)).
          { unfold Dict.len. destruct (extension_cache self);
              [congruence|simpl; lia]. }
          repeat split; lia.
        * destruct (token_set self) eqn:Htok.
          -- destruct (outpaint (generation_calls self) (req_image r)
                         (req_position r) (req_width r) (req_height r))
               as [g|e] eqn:Hgen.
             ++ rewrite (generate_miss_generated outpaint self _ _ _ _ key
                           Hw Hh Hkey g Hget Htok Hgen).
                cbn [snd]. unfold inv. cbn.
                pose proof (cache_put_length key g (extension_cache self)).
                repeat split; lia.
             ++ rewrite (generate_miss_failed outpaint self _ _ _ _ key
                           Hw Hh Hkey e Hget Htok Hgen).
                cbn [snd]. unfold inv. cbn. repeat split; lia.
          -- rewrite (generate_miss_no_token outpaint self _ _ _ _ key
                        Hw Hh Hkey Hget Htok).
             cbn [snd]. unfold inv. cbn.
             repeat split; lia || (intros E; apply I5 in E; lia).
      + rewrite generate_degenerate by lia. cbn [snd].
        apply IH; [exact Hrs|]. unfold inv. repeat split; assumption.
      + rewrite generate_degenerate by lia. cbn [snd].
        apply IH; [exact Hrs|]. unfold inv. repeat split; assumption. }
  specialize (G rs (__init__ token) 0 Hwf).
  rewrite Z.add_0_l in G. apply G.
  unfold inv. simpl. unfold Dict.len. simpl. repeat split; lia.
Qed.

Lemma counters_account_for_requests_witness :
  let rs := Fixtures.fifty_requests
            ++ [mkRequest (Fixtures.flat 4 3 x80) bottom 4 7;
                mkRequest (Fixtures.flat 4 3 x80) bottom 0 7] in
  let final := serve (IM := Fixtures.plain_imaging) Fixtures.stub_generator
                 (__init__ (Some "token"%string)) rs in
  Forall (fun r => 0 <= height (req_image r)) rs
  /\ cache_hits final = 1
  /\ cache_hits final + cache_misses final = 51.
Proof.
  cbv zeta.
  assert (Hwf : Forall (fun r => 0 <= height (req_image r))
                  (Fixtures.fifty_requests
                   ++ [mkRequest (Fixtures.flat 4 3 x80) bottom 4 7;
                       mkRequest (Fixtures.flat 4 3 x80) bottom 0 7])).
  { apply Forall_forall. intros r Hin. apply in_app_or in Hin.
    destruct Hin as [Hin|[<-|[<-|[]]]]; try (simpl; lia).
    unfold Fixtures.fifty_requests in Hin. apply in_map_iff in Hin.
    destruct Hin as (k & <- & _). simpl. lia. }
  split; [exact Hwf|]. split; [vm_compute; reflexivity|].
  exact (proj1 (counters_account_for_requests (IM := Fixtures.plain_imaging)
                  Fixtures.stub_generator (Some "token"%string) _ Hwf)).
Defined.

(** X2.  With the generator of the repository the cache is never filled.
    On an extender with a token, whatever the network does, after any run of
    requests on well-formed images the cache is empty and no hit was
    counted; every request of positive size counted a miss and called the
    generator once; and the next request of positive size returns what the
    fallback returns. *)
Theorem repository_generator_never_fills_cache {IM : Imaging} (net : Network)
  (token : option string) (rs : list request) :
  token_set (__init__ token) = true ->
  Forall (fun r => 0 <= height (req_image r)) rs ->
  let final := serve (repository_generator net) (__init__ token) rs in
  extension_cache final = []
  /\ cache_hits final = 0
  /\ cache_misses final
     = Z.of_nat (List.length (List.filter positive_request rs))
  /\ generation_calls final
     = List.length (List.filter positive_request rs)
  /\ forall image pos w eh,
       0 < w -> 0 < eh -> 0 <= height image ->
       fst (_generate_ai_extension (repository_generator net) final
              image pos w eh)
       = _fallback_extension image pos w eh.
Proof.
  intros Htok Hwf. cbv zeta.
  assert (Hone : forall self image pos w eh,
            token_set self = true -> extension_cache self = [] ->
            0 < w -> 0 < eh -> 0 <= height image ->
            _generate_ai_extension (repository_generator net) self
              image pos w eh
            = (_fallback_extension image pos w eh,
               count_generation (count_miss self))).
  { intros self image pos w eh Ht Hc Hw Heh Hh.
    destruct (request_key_ok image pos w eh) as (key & Hkey); [lia|exact Hh|].
    destruct (stable_diffusion_outpaint_never_returns net true
                (generation_calls self) image pos w eh) as (e & He).
    apply (generate_miss_failed (repository_generator net) self image pos
             w eh key Hw Heh Hkey e); [now rewrite Hc|exact Ht|exact He]. }
  assert (G : forall rs self,
            Forall (fun r => 0 <= height (req_image r)) rs ->
            token_set self = true -> extension_cache self = [] ->
            let final := serve (repository_generator net) self rs in
            token_set final = true
            /\ extension_cache final = []
            /\ cache_hits final = cache_hits self
            /\ cache_misses final
               = cache_misses self
                 + Z.of_nat (List.length (List.filter positive_request rs))
            /\ generation_calls final
               = (generation_calls self
                  + List.length (List.filter positive_request rs))%nat).
  { clear - Hone. induction rs as [|r rs IH]; intros self Hwf Ht Hc; cbv zeta.
    - simpl. repeat split; auto; lia.
    - inversion Hwf as [|? ? Hr Hrs]; subst. rewrite serve_cons.
      unfold serve_one. simpl List.filter.
      destruct (positive_request r) eqn:Hp; unfold positive_request in Hp.
      + apply andb_prop in Hp. destruct Hp as [Hw Hh].
        apply Z.ltb_lt in Hw, Hh.
        rewrite Hone by assumption. cbn [snd].
        destruct (IH (count_generation (count_miss self)) Hrs Ht Hc)
          as (A & B & C & D & E).
        cbv zeta in A, B, C, D, E. rewrite B, C, D, E.
        cbn [cache_hits cache_misses generation_calls count_miss
             count_generation List.length].
        repeat split; auto; lia.
      + rewrite generate_degenerate.
        2:{ apply andb_false_iff in Hp. destruct Hp as [Hp|Hp];
              apply Z.ltb_ge in Hp; auto. }
        cbn [snd].
        destruct (IH self Hrs Ht Hc) as (A & B & C & D & E).
        repeat split; auto. }
  destruct (G rs (__init__ token) Hwf Htok eq_refl) as (A & B & C & D & E).
  cbv zeta in A, B, C, D, E.
  split; [exact B|]. split; [exact C|]. split; [exact D|].
  split; [exact E|].
  intros image pos w eh Hw Heh Hh. now rewrite Hone.
Qed.

Lemma repository_generator_never_fills_cache_witness :
  let rs := [mkRequest (Fixtures.flat 16 9 x80) bottom 16 9;
             mkRequest (Fixtures.flat 16 9 x80) bottom 16 9] in
  let final := serve (IM := Fixtures.plain_imaging)
                 (repository_generator (IM := Fixtures.plain_imaging)
                    Fixtures.friendly_network)
                 (__init__ (Some "token"%string)) rs in
  token_set (__init__ (Some "token"%string)) = true
  /\ Forall (fun r => 0 <= height (req_image r)) rs
  /\ extension_cache final = []
  /\ generation_calls final = 2%nat.
Proof.
  cbv zeta.
  assert (Hwf : Forall (fun r => 0 <= height (req_image r))
                  [mkRequest (Fixtures.flat 16 9 x80) bottom 16 9;
                   mkRequest (Fixtures.flat 16 9 x80) bottom 16 9])
    by (repeat constructor; simpl; lia).
  split; [reflexivity|]. split; [exact Hwf|].
  destruct (repository_generator_never_fills_cache
              (IM := Fixtures.plain_imaging) Fixtures.friendly_network
              (Some "token"%string) _ eq_refl Hwf) as (A & _ & _ & D & _).
  split; [exact A|exact D].
Defined.

(** *** The cache key *)

Lemma string_of_uint_chars (d : Decimal.uint) (c : ascii) :
  In c (list_ascii_of_string (NilEmpty.string_of_uint d)) -> c <> "_"%char.
Proof.
  induction d; simpl; try tauto;
    (intros [<-|H]; [discriminate|auto]).
Qed.

Lemma str_chars (n : Z) (c : ascii) :
  In c (list_ascii_of_string (str n)) -> c <> "_"%char.
Proof.
  unfold str, NilZero.string_of_int, NilZero.string_of_uint.
  destruct (Z.to_int n) as [d|d]; destruct d; simpl;
    repeat (intros [<-|H]; [discriminate|revert H]);
    try tauto; apply string_of_uint_chars.
Qed.

Lemma str_inj (n m : Z) : str n = str m -> n = m.
Proof.
  unfold str. intros H. apply DecimalZ.to_int_inj.
  assert (Hn : forall z, Z.to_int z <> Decimal.Pos Decimal.Nil
                         /\ Z.to_int z <> Decimal.Neg Decimal.Nil).
  { intros [|p|p]; simpl; split; try discriminate;
      intros [= E]; now apply Unsigned.to_uint_nonnil in E. }
  pose proof (NilZero.isi (Z.to_int n) (proj1 (Hn n)) (proj2 (Hn n))) as E1.
  pose proof (NilZero.isi (Z.to_int m) (proj1 (Hn m)) (proj2 (Hn m))) as E2.
  rewrite H in E1. congruence.
Qed.

(** Two strings cut at their first underscore. *)
Lemma first_underscore_unique (a a' r r' : string) :
  (forall c, In c (list_ascii_of_string a) -> c <> "_"%char) ->
  (forall c, In c (list_ascii_of_string a') -> c <> "_"%char) ->
  (a ++ String "_" r)%string = (a' ++ String "_" r')%string ->
  a = a' /\ r = r'.
Proof.
  revert a'. induction a as [|x a IH]; intros [|x' a'] Ha Ha' E; simpl in E.
  - injection E as ->. now split.
  - injection E as E _. exfalso. apply (Ha' x'); [now left|congruence].
  - injection E as E _. exfalso. apply (Ha x); [now left|congruence].
  - injection E as -> E.
    destruct (IH a') as [-> ->]; auto.
    + intros c Hc. apply Ha. now right.
    + intros c Hc. apply Ha'. now right.
Qed.

(** X5.  The cache key determines the geometry and the fingerprint: two
    requests have the same key only if they have the same position, the same
    width, the same extension height and the same sum of edge samples.  Two
    different frames can share a patch only through equal edge sums. *)
Theorem cache_key_is_injective (p p' : position) (w w' eh eh' s s' : Z) :
  cache_key_of p w eh s = cache_key_of p' w' eh' s' ->
  p = p' /\ w = w' /\ eh = eh' /\ s = s'.
Proof.
  unfold cache_key_of. intros E.
  change ("_" ++ ?x)%string with (String "_" x) in E.
  assert (Hp : forall q c, In c (list_ascii_of_string (position_str q)) ->
                           c <> "_"%char).
  { intros [|] c; simpl;
      repeat (intros [<-|H]; [discriminate|revert H]); tauto. }
  apply first_underscore_unique in E; [|apply Hp|apply Hp].
  destruct E as [Ep E].
  apply first_underscore_unique in E; [|apply str_chars|apply str_chars].
  destruct E as [Ew E].
  apply first_underscore_unique in E; [|apply str_chars|apply str_chars].
  destruct E as [Eh Es].
  apply str_inj in Ew, Eh, Es.
  repeat split; auto.
  destruct p, p'; auto; discriminate.
Qed.

Lemma cache_key_is_injective_witness :
  cache_key_of bottom 16 9 55296 = "bottom_16_9_55296"%string
  /\ (16 = 16 /\ 9 = 9 /\ 55296 = 55296)
  /\ cache_key_of top 1 23 4 <> cache_key_of top 12 3 4.
Proof.
  split; [reflexivity|]. split.
  - exact (proj2 (cache_key_is_injective bottom bottom 16 16 9 9 55296 55296
                    eq_refl)).
  - intros E. apply cache_key_is_injective in E.
    destruct E as (_ & E & _). discriminate E.
Defined.

Lemma flat_map_ext_in {A B} (f g : A -> list B) (l : list A) :
  (forall a, In a l -> f a = g a) -> List.flat_map f l = List.flat_map g l.
Proof.
  induction l as [|a l IH]; intros H; [reflexivity|]. simpl.
  rewrite (H a) by now left. rewrite IH; [reflexivity|].
  intros b Hb. apply H. now right.
Qed.

(** Two images of one size that agree inside it have the same pixels. *)
Lemma reshape_pixels_ext (a b : Image) :
  width a = width b -> height a = height b ->
  (forall x y, 0 <= x < width a -> 0 <= y < height a ->
               getpixel a x y = getpixel b x y) ->
  np.reshape_pixels a = np.reshape_pixels b.
Proof.
  intros Hw Hh Hpx. unfold np.reshape_pixels. rewrite <- Hw, <- Hh.
  apply flat_map_ext_in. intros y Hy. apply range_In in Hy.
  apply map_ext_in. intros x Hx. apply range_In in Hx. auto.
Qed.

(** X6.  The cache key of a request reads the frame only through its edge
    strip: two frames of the same size that agree on the columns below the
    requested width of the last 20 rows (for a bottom request) or of the
    first 20 rows (for a top request) have the same key, whatever the rest
    of the frames shows. *)
Theorem request_key_reads_the_edge_strip (image image2 : Image)
  (pos : position) (w eh : Z) :
  width image = width image2 -> height image = height image2 ->
  (forall x y,
     0 <= x < w ->
     (match pos with
      | bottom => Z.max 0 (height image - 20) <= y < height image
      | top => 0 <= y < Z.min 20 (height image)
      end) ->
     getpixel image x y = getpixel image2 x y) ->
  request_key image pos w eh = request_key image2 pos w eh.
Proof.
  intros Hw Hh Hpx. unfold request_key, edge_region_of, PIL.crop.
  rewrite <- Hw, <- Hh.
  destruct pos.
  - destruct ((w <? 0) || (Z.min 20 (height image) <? 0)); [reflexivity|].
    cbn [Py.bind]. do 2 f_equal. unfold np.sum. f_equal.
    apply reshape_pixels_ext; [reflexivity|reflexivity|].
    cbn [width height getpixel]. intros x y Hx Hy.
    rewrite !Z.add_0_r. destruct (inside _ _ x y); [|reflexivity].
    apply Hpx; lia.
  - destruct ((w <? 0) || (height image <? Z.max 0 (height image - 20)));
      [reflexivity|].
    cbn [Py.bind]. do 2 f_equal. unfold np.sum. f_equal.
    apply reshape_pixels_ext; [reflexivity|reflexivity|].
    cbn [width height getpixel]. intros x y Hx Hy.
    rewrite !Z.add_0_r. destruct (inside _ _ x _); [|reflexivity].
    apply Hpx; lia.
Qed.

Lemma request_key_reads_the_edge_strip_witness :
  let image := Fixtures.flat 16 30 x80 in
  let image2 := mkImage 16 30
                  (fun _ y => if y <? 5 then (xff, xff, xff)
                              else (x80, x80, x80)) in
  getpixel image 0 0 <> getpixel image2 0 0
  /\ request_key image bottom 16 9 = Ok "bottom_16_9_122880"%string
  /\ request_key image2 bottom 16 9 = Ok "bottom_16_9_122880"%string.
Proof.
  cbv zeta. split; [discriminate|].
  assert (E : request_key (Fixtures.flat 16 30 x80) bottom 16 9
              = Ok "bottom_16_9_122880"%string)
    by (vm_compute; reflexivity).
  split; [exact E|]. rewrite <- E. symmetry.
  apply request_key_reads_the_edge_strip; [reflexivity|reflexivity|].
  intros x y Hx Hy. simpl in Hy |- *.
  destruct (Z.ltb_spec y 5); [lia|reflexivity].
Defined.

(* ================================================================= *)
(** ** Frames that need no extension, or one row *)

(** X7.  A frame at least as high as the target height is cropped, not
    extended: [analyze_frame_and_extend] returns without touching the cache,
    the counters or the generator; the result has the target size, its rows
    from 1 on are the rows of the source starting at row
    [-floor((target - H)/2)] (the vertical centre), and its row 0 is black,
    overwritten by the one-row placeholder that stands for the top
    extension. *)
Theorem tall_frame_is_centre_cropped {IM : Imaging} (outpaint : generator)
  (self : AIImageExtender) (image : Image) :
  let W := width image in
  let H := height image in
  let target := target_height_of W in
  let top_h := (target - H) / 2 in
  0 < W -> target <= H ->
  exists out,
    analyze_frame_and_extend outpaint self image = (Ok out, self)
    /\ width out = W /\ height out = target
    /\ (forall x, 0 <= x < W -> getpixel out x 0 = black)
    /\ (forall x y, 0 <= x < W -> 1 <= y < target ->
          0 <= y - top_h < H
          /\ getpixel out x y = getpixel image x (y - top_h)).
Proof.
  intros W H target top_h HW Htall.
  assert (Ht : 1 <= target)
    by (unfold target; rewrite target_height_floor by lia;
        apply Z.div_le_lower_bound; lia).
  assert (Htop : top_h <= 0 /\ (target - H) - top_h <= 0
                 /\ - top_h <= H - target).
  { unfold top_h.
    pose proof (Z.div_mod (target - H) 2 ltac:(lia)).
    pose proof (Z.mod_pos_bound (target - H) 2 ltac:(lia)). lia. }
  destruct Htop as (Htop & Hbot & Hoff).
  unfold analyze_frame_and_extend. fold W H. fold target. fold top_h.
  rewrite PIL_new_ok by lia.
  rewrite generate_degenerate by (left; lia).
  rewrite PIL_new_ok by lia.
  rewrite generate_degenerate by (left; lia).
  rewrite PIL_new_ok by lia.
  eexists. split; [reflexivity|].
  split; [reflexivity|]. split; [reflexivity|].
  unfold PIL.paste, inside. cbn [width height getpixel]. split.
  - intros x Hx.
    replace (Z.max 1 top_h) with 1 by lia.
    replace (Z.max 1 (target - H - top_h)) with 1 by lia.
    destruct (Z.leb_spec 0 (0 - (top_h + H))); [lia|].
    rewrite !andb_false_r.
    destruct (Z.leb_spec 0 (x - 0)); [|lia].
    destruct (Z.ltb_spec (x - 0) W); [|lia]. reflexivity.
  - intros x y Hx Hy. split; [lia|].
    replace (Z.max 1 top_h) with 1 by lia.
    replace (Z.max 1 (target - H - top_h)) with 1 by lia.
    destruct (Z.leb_spec 0 (y - (top_h + H))); [lia|].
    rewrite !andb_false_r.
    destruct (Z.ltb_spec (y - 0) 1); [lia|].
    rewrite !andb_false_r.
    fold W H.
    destruct (Z.leb_spec 0 (x - 0)); [|lia].
    destruct (Z.ltb_spec (x - 0) W); [|lia].
    destruct (Z.leb_spec 0 (y - top_h)); [|lia].
    destruct (Z.ltb_spec (y - top_h) H); [|lia].
    cbn [andb]. f_equal. lia.
Qed.

Lemma tall_frame_is_centre_cropped_witness :
  let image := mkImage 9 20 (fun _ y => (saturate_u8 y, x00, x00)) in
  0 < width image
  /\ target_height_of (width image) <= height image
  /\ exists out self',
       analyze_frame_and_extend (IM := Fixtures.plain_imaging)
         Fixtures.stub_generator (__init__ (Some "token"%string)) image
       = (Ok out, self')
       /\ generation_calls self' = 0%nat
       /\ height out = 16
       /\ getpixel out 0 0 = black
       /\ getpixel out 0 1 = getpixel image 0 3.
Proof.
  cbv zeta.
  destruct (tall_frame_is_centre_cropped (IM := Fixtures.plain_imaging)
              Fixtures.stub_generator (__init__ (Some "token"%string))
              (mkImage 9 20 (fun _ y => (saturate_u8 y, x00, x00))))
    as (out & Hrun & _ & Hh & H0 & Hrows);
    [simpl; lia|vm_compute; discriminate|].
  split; [simpl; lia|]. split; [vm_compute; discriminate|].
  exists out, (__init__ (Some "token"%string)).
  split; [exact Hrun|]. split; [reflexivity|]. split; [exact Hh|].
  split; [apply H0; simpl; lia|].
  apply (Hrows 0 1); [simpl; lia|vm_compute; split; congruence].
Defined.

(** X8.  A frame exactly one row short of the target height loses its first
    row.  The top extension height is then 0, the one-row black placeholder
    returned for it is pasted at row 0 over the source, which was pasted at
    row 0 too: in any frame returned, row 0 is black and the rows from 1 to
    [H - 1] are the rows of the source.  A frame is returned when the source
    has three rows or more. *)
Theorem one_row_short_frame_loses_first_row {IM : Imaging}
  (outpaint : generator) (self : AIImageExtender) (image : Image) :
  let W := width image in
  let H := height image in
  0 < W -> 0 < H -> target_height_of W - H = 1 ->
  (forall out self',
     analyze_frame_and_extend outpaint self image = (Ok out, self') ->
     (forall x, 0 <= x < W -> getpixel out x 0 = black)
     /\ (forall x y, 0 <= x < W -> 1 <= y < H ->
           getpixel out x y = getpixel image x y))
  /\ (3 <= H ->
      exists out self',
        analyze_frame_and_extend outpaint self image = (Ok out, self')).
Proof.
  intros W H HW HH Hone. split; [|intros H3; apply analyze_total; fold W H; lia].
  intros out self' Hrun. apply analyze_returns in Hrun. cbv zeta in Hrun.
  fold W H in Hrun. rewrite Hone in Hrun.
  change (1 / 2) with 0 in Hrun. change (1 - 0) with 1 in Hrun.
  destruct Hrun as (t & b & s1 & _ & Ht0 & Htop & Hbot & ->).
  rewrite generate_degenerate in Htop by (left; lia).
  rewrite PIL_new_ok in Htop by lia. injection Htop as <- <-.
  unfold PIL.paste, inside. cbn [width height getpixel]. fold W H. split.
  - intros x Hx.
    destruct (Z.leb_spec 0 (0 - (0 + H))); [lia|].
    rewrite !andb_false_r.
    destruct (Z.leb_spec 0 (x - 0)); [|lia].
    destruct (Z.ltb_spec (x - 0) W); [|lia]. reflexivity.
  - intros x y Hx Hy.
    destruct (Z.leb_spec 0 (y - (0 + H))); [lia|].
    rewrite !andb_false_r.
    destruct (Z.ltb_spec (y - 0) (Z.max 1 0)); [lia|].
    rewrite !andb_false_r.
    destruct (Z.leb_spec 0 (x - 0)); [|lia].
    destruct (Z.ltb_spec (x - 0) W); [|lia].
    destruct (Z.leb_spec 0 (y - 0)); [|lia].
    destruct (Z.ltb_spec (y - 0) H); [|lia].
    cbn [andb]. f_equal; lia.
Qed.

Lemma one_row_short_frame_loses_first_row_witness :
  let image := Fixtures.flat 9 15 x80 in
  let r := analyze_frame_and_extend (IM := Fixtures.plain_imaging)
             Fixtures.failing_generator (__init__ None) image in
  0 < width image /\ 0 < height image
  /\ target_height_of (width image) - height image = 1
  /\ is_ok (fst r) = true
  /\ exists out, fst r = Ok out
                 /\ getpixel out 0 0 = black
                 /\ getpixel out 0 1 = (x80, x80, x80).
Proof.
  cbv zeta. split; [simpl; lia|]. split; [simpl; lia|].
  split; [reflexivity|].
  assert (Hok : is_ok (fst (analyze_frame_and_extend
                              (IM := Fixtures.plain_imaging)
                              Fixtures.failing_generator (__init__ None)
                              (Fixtures.flat 9 15 x80))) = true)
    by (vm_compute; reflexivity).
  split; [exact Hok|].
  destruct (analyze_frame_and_extend (IM := Fixtures.plain_imaging)
              Fixtures.failing_generator (__init__ None)
              (Fixtures.flat 9 15 x80)) as [[out|e] self'] eqn:Hrun;
    [|discriminate Hok].
  destruct (one_row_short_frame_loses_first_row (IM := Fixtures.plain_imaging)
              Fixtures.failing_generator (__init__ None)
              (Fixtures.flat 9 15 x80)) as [Hall _];
    [simpl; lia|simpl; lia|reflexivity|].
  destruct (Hall out self' Hrun) as [H0 Hrows].
  exists out. split; [reflexivity|].
  split; [apply H0; simpl; lia|].
  rewrite Hrows by (simpl; lia). reflexivity.
Defined.

(* ================================================================= *)
(** ** The fallback patch *)

Section GradientMask.
Variables (w eh : Z).

(** One row of the loop of lines 257-260. *)
Lemma gradient_row_values (y : Z) (v : u8) (xs : list Z) :
  0 <= y < eh ->
  forall m,
    (forall x, In x xs -> 0 <= x < w) ->
    band_width m = w -> band_height m = eh ->
    exists m',
      List.fold_left
        (fun acc' x => Py.bind acc' (fun m0 => PIL.putpixel_L m0 x y v))
        xs (Ok m) = Ok m'
      /\ band_width m' = w /\ band_height m' = eh
      /\ forall x' y',
           (In x' xs /\ y' = y -> band_get m' x' y' = v)
           /\ (~ (In x' xs /\ y' = y) ->
               band_get m' x' y' = band_get m x' y').
Proof.
  intros Hy. induction xs as [|x xs' IH]; intros m Hxs Hbw Hbh.
  - exists m. repeat split; auto. intros [[] _].
  - cbn [List.fold_left Py.bind]. unfold PIL.putpixel_L at 2. unfold inside.
    rewrite Hbw, Hbh.
    pose proof (Hxs x (or_introl eq_refl)) as Hx.
    destruct (Z.leb_spec 0 x); [|lia]. destruct (Z.ltb_spec x w); [|lia].
    destruct (Z.leb_spec 0 y); [|lia]. destruct (Z.ltb_spec y eh); [|lia].
    cbn [andb].
    destruct (IH (mkBand w eh
                    (fun x' y' => if (x' =? x) && (y' =? y) then v
                                  else band_get m x' y')))
      as (m' & Hfold & Hw' & Hh' & Hval);
      [intros; apply Hxs; now right|reflexivity|reflexivity|].
    exists m'. split; [exact Hfold|]. split; [exact Hw'|]. split; [exact Hh'|].
    intros x' y'. destruct (Hval x' y') as [Hin Hout]. split.
    + intros [[<-|Hin'] ->].
      * destruct (in_dec Z.eq_dec x xs') as [I|I]; [now apply Hin|].
        rewrite Hout by tauto. cbn [band_get]. now rewrite !Z.eqb_refl.
      * now apply Hin.
    + intros Hno. rewrite Hout by (intros [I E]; apply Hno; split; auto;
                                    now right).
      cbn [band_get].
      destruct (Z.eqb_spec x' x) as [->|]; [|reflexivity].
      destruct (Z.eqb_spec y' y) as [->|]; [|reflexivity].
      exfalso. apply Hno. split; [now left|reflexivity].
Qed.

End GradientMask.

Lemma gradient_rows_values (w eh : Z) (ys : list Z) :
  forall m,
    (forall y, In y ys -> 0 <= y < eh) ->
    band_width m = w -> band_height m = eh ->
    exists m',
      List.fold_left
        (fun acc y =>
           List.fold_left
             (fun acc' x =>
                Py.bind acc' (fun m0 =>
                  PIL.putpixel_L m0 x y (saturate_u8 (gradient_alpha y eh))))
             (range w) acc)
        ys (Ok m) = Ok m'
      /\ band_width m' = w /\ band_height m' = eh
      /\ forall x' y',
           (0 <= x' < w /\ In y' ys ->
            band_get m' x' y' = saturate_u8 (gradient_alpha y' eh))
           /\ (~ (0 <= x' < w /\ In y' ys) ->
               band_get m' x' y' = band_get m x' y').
Proof.
  induction ys as [|y ys' IH]; intros m Hys Hbw Hbh.
  - exists m. repeat split; auto. intros [_ []].
  - cbn [List.fold_left].
    destruct (gradient_row_values w eh y (saturate_u8 (gradient_alpha y eh))
                (range w) (Hys y (or_introl eq_refl)) m)
      as (m1 & -> & Hw1 & Hh1 & Hv1);
      [intros x; apply range_In|exact Hbw|exact Hbh|].
    destruct (IH m1) as (m' & Hfold & Hw' & Hh' & Hval);
      [intros; apply Hys; now right|exact Hw1|exact Hh1|].
    exists m'. split; [exact Hfold|]. split; [exact Hw'|]. split; [exact Hh'|].
    intros x' y'. destruct (Hval x' y') as [Hin Hout].
    destruct (Hv1 x' y') as [Hin1 Hout1]. split.
    + intros [Hx [<-|Hy']].
      * destruct (in_dec Z.eq_dec y ys') as [I|I]; [now apply Hin|].
        rewrite Hout by tauto. apply Hin1. split; [|reflexivity].
        now apply range_In.
      * now apply Hin.
    + intros Hno.
      rewrite Hout by (intros [Hx I]; apply Hno; split; auto; now right).
      apply Hout1. intros [Hx ->]. apply Hno. apply range_In in Hx.
      split; [exact Hx|now left].
Qed.

(** The alpha of a row, [int(255 * (1 - y / edge_height))] in floats. *)
Section GradientAlpha.
Variables (h : Z).
Hypothesis Hh : 0 < h.
Local Open Scope Q_scope.

Lemma row_quotient (y : Z) :
  (0 <= y < h)%Z -> 0 <= inject_Z y / inject_Z h <= 1.
Proof.
  intros Hy.
  assert (Hd : 0 < inject_Z h) by (rewrite <- (Zlt_Qlt 0); exact Hh).
  split.
  - apply Qle_shift_div_l; [exact Hd|]. rewrite Qmult_0_l.
    rewrite <- (Zle_Qle 0). lia.
  - apply Qle_shift_div_r; [exact Hd|]. rewrite Qmult_1_l.
    rewrite <- Zle_Qle. lia.
Qed.

Lemma row_weight (y : Z) :
  (0 <= y < h)%Z -> 0 <= float.sub 1 (float.truediv y h) <= 1.
Proof.
  intros Hy. pose proof (round_unit _ (row_quotient y Hy)) as Ht.
  apply round_unit. unfold float.truediv. lra.
Qed.

Lemma row_product (y : Z) :
  (0 <= y < h)%Z ->
  0 <= float.mul 255 (float.sub 1 (float.truediv y h)) <= 255.
Proof.
  intros Hy. pose proof (row_weight y Hy) as Hs.
  unfold float.mul. split.
  - apply round_nonneg. lra.
  - apply Qle_trans with (float.round 255); [apply round_mono; lra|].
    rewrite round_255. lra.
Qed.

Lemma gradient_alpha_range (y : Z) :
  (0 <= y < h)%Z -> (0 <= gradient_alpha y h <= 255)%Z.
Proof.
  intros Hy. pose proof (row_product y Hy) as [M0 M1].
  unfold gradient_alpha. rewrite int_nonneg by exact M0. split.
  - rewrite <- (Qfloor_Z 0). now apply Qfloor_resp_le.
  - rewrite <- (Qfloor_Z 255). now apply Qfloor_resp_le.
Qed.

Lemma gradient_alpha_first : gradient_alpha 0 h = 255%Z.
Proof.
  unfold gradient_alpha, float.truediv.
  rewrite (round_0 (inject_Z 0 / inject_Z h))
    by (change (inject_Z 0) with 0; unfold Qdiv; ring).
  reflexivity.
Qed.

Lemma gradient_alpha_mono (y y' : Z) :
  (0 <= y <= y')%Z -> (y' < h)%Z ->
  (gradient_alpha y' h <= gradient_alpha y h)%Z.
Proof.
  intros Hy Hy'.
  pose proof (row_quotient y ltac:(lia)) as Q1.
  pose proof (row_quotient y' ltac:(lia)) as Q2.
  pose proof (round_unit _ Q1) as T1. pose proof (round_unit _ Q2) as T2.
  pose proof (row_weight y ltac:(lia)) as S1.
  pose proof (row_weight y' ltac:(lia)) as S2.
  pose proof (row_product y ltac:(lia)) as [M1 _].
  pose proof (row_product y' ltac:(lia)) as [M2 _].
  assert (Hd : 0 < inject_Z h) by (rewrite <- (Zlt_Qlt 0); exact Hh).
  assert (Hq : inject_Z y / inject_Z h <= inject_Z y' / inject_Z h).
  { apply Qmult_le_compat_r; [rewrite <- Zle_Qle; lia|].
    apply Qinv_le_0_compat. lra. }
  assert (Ht : float.truediv y h <= float.truediv y' h)
    by (apply round_mono; [apply Q1|exact Hq]).
  assert (Hs : float.sub 1 (float.truediv y' h)
               <= float.sub 1 (float.truediv y h)).
  { apply round_mono; unfold float.truediv in *; lra. }
  assert (Hm : float.mul 255 (float.sub 1 (float.truediv y' h))
               <= float.mul 255 (float.sub 1 (float.truediv y h))).
  { apply round_mono; lra. }
  unfold gradient_alpha. rewrite !int_nonneg by assumption.
  now apply Qfloor_resp_le.
Qed.

End GradientAlpha.

(** X9.  The alpha mask of the fallback, lines 256-260.  For a width that is
    not negative and a positive strip height the mask is built without an
    error and has the size of the strip; every row has one sample value in
    all its columns; row 0 is 255, fully opaque; and the samples do not
    increase from one row to the next.  The values are those of the float
    expression [int(255 * (1 - y / edge_height))]: 50, not 51, for row 4 of
    5. *)
Theorem gradient_mask_fades_downwards (w edge_height : Z) :
  0 <= w -> 0 < edge_height ->
  exists m,
    gradient_mask w edge_height = Ok m
    /\ band_width m = w /\ band_height m = edge_height
    /\ (forall x x' y, 0 <= x < w -> 0 <= x' < w -> 0 <= y < edge_height ->
          band_get m x y = band_get m x' y)
    /\ (forall x, 0 <= x < w -> band_get m x 0 = xff)
    /\ (forall x y y', 0 <= x < w -> 0 <= y <= y' -> y' < edge_height ->
          u8_val (band_get m x y') <= u8_val (band_get m x y)).
Proof.
  intros Hw Heh. unfold gradient_mask, PIL.new_L.
  destruct (Z.ltb_spec w 0); [lia|].
  destruct (Z.ltb_spec edge_height 0); [lia|]. cbn [orb Py.bind].
  destruct (gradient_rows_values w edge_height (range edge_height)
              (mkBand w edge_height (fun _ _ => x00)))
    as (m & Hfold & Hbw & Hbh & Hval);
    [intros y; apply range_In|reflexivity|reflexivity|].
  exists m. split; [exact Hfold|]. split; [exact Hbw|]. split; [exact Hbh|].
  assert (Hg : forall x y, 0 <= x < w -> 0 <= y < edge_height ->
            band_get m x y = saturate_u8 (gradient_alpha y edge_height)).
  { intros x y Hx Hy. destruct (Hval x y) as [Hin _].
    apply Hin. split; [exact Hx|now apply range_In]. }
  assert (Hv : forall x y, 0 <= x < w -> 0 <= y < edge_height ->
            u8_val (band_get m x y) = gradient_alpha y edge_height).
  { intros x y Hx Hy. rewrite Hg by assumption.
    apply u8_val_saturate. now apply gradient_alpha_range. }
  split; [|split].
  - intros x x' y Hx Hx' Hy. now rewrite !Hg.
  - intros x Hx. rewrite Hg by lia.
    rewrite gradient_alpha_first by exact Heh. reflexivity.
  - intros x y y' Hx Hy Hy'. rewrite !Hv by lia.
    now apply gradient_alpha_mono.
Qed.

Lemma gradient_mask_fades_downwards_witness :
  0 <= 4 /\ 0 < 5
  /\ gradient_alpha 4 5 = 50
  /\ exists m,
       gradient_mask 4 5 = Ok m
       /\ band_get m 1 0 = xff
       /\ u8_val (band_get m 3 4) <= u8_val (band_get m 3 1).
Proof.
  split; [lia|]. split; [lia|]. split; [vm_compute; reflexivity|].
  destruct (gradient_mask_fades_downwards 4 5)
    as (m & Hm & _ & _ & _ & H0 & Hmono); [lia|lia|].
  exists m. split; [exact Hm|]. split; [apply H0; lia|apply Hmono; lia].
Defined.

Lemma channel_sum_bounds (sel : pixel -> u8) (ps : list pixel) :
  0 <= np.channel_sum sel ps <= 255 * Z.of_nat (List.length ps).
Proof.
  induction ps as [|p ps IH]; simpl; [lia|].
  pose proof (u8_val_range (sel p)). lia.
Qed.

(** X10.  The fallback patch around its mirrored band.  On a frame of three
    rows or more, for a positive size, when the mirrored strip of
    [edge_height = min(2*extension_height, H // 3)] rows is lower than the
    patch, the patch has exactly the requested size, the strip is pasted in
    the rows from [y_offset = (extension_height - edge_height) // 2] on,
    which lie inside the patch, and every pixel above and below those rows
    has one colour: the mean of the samples of the strip, channel by
    channel, rounded down. *)
Theorem fallback_patch_is_mean_colour_outside_band {IM : Imaging}
  (image : Image) (pos : position) (w eh : Z) :
  let H := height image in
  let edge_height := Z.min (eh * 2) (H / 3) in
  let y_offset := (eh - edge_height) / 2 in
  0 < w -> 0 < eh -> 3 <= H -> edge_height < eh ->
  exists ext edge c0 c1 c2,
    _fallback_extension image pos w eh = Ok ext
    /\ width ext = w /\ height ext = eh
    /\ (match pos with
        | bottom => PIL.crop image 0 (H - edge_height) w H
        | top => PIL.crop image 0 0 w edge_height
        end) = Ok edge
    /\ np.int_mean_axis0 (np.reshape_pixels edge) = Ok (c0, c1, c2)
    /\ 0 <= c0 <= 255 /\ 0 <= c1 <= 255 /\ 0 <= c2 <= 255
    /\ 0 <= y_offset /\ y_offset + edge_height <= eh
    /\ forall x y,
         0 <= x < w -> 0 <= y < eh ->
         y < y_offset \/ y_offset + edge_height <= y ->
         getpixel ext x y = (saturate_u8 c0, saturate_u8 c1, saturate_u8 c2).
Proof.
  intros H edge_height y_offset Hw Heh Hh Hlow.
  unfold _fallback_extension. fold H. fold edge_height.
  destruct (fallback_edge_ok image pos w eh) as (edge & Hedge & Hew & Heh' & Hpos);
    [lia|lia|fold H; lia|].
  fold H in Hedge, Heh', Hpos. fold edge_height in Hedge, Heh', Hpos.
  rewrite Hedge.
  assert (1 <= edge_height).
  { assert (1 <= H / 3) by (apply Z.div_le_lower_bound; lia).
    unfold edge_height. lia. }
  cbn [Py.bind].
  destruct (gradient_mask_ok w edge_height) as (m & -> & Hmw & Hmh); [lia|lia|].
  cbn [Py.bind].
  rewrite putalpha_ok by (simpl; congruence).
  cbn [Py.bind].
  unfold np.int_mean_axis0. rewrite reshape_pixels_length, Hew, Heh'.
  set (n := Z.of_nat (Z.to_nat edge_height * Z.to_nat w)).
  assert (Hn : 0 < n) by (unfold n; nia).
  destruct (Z.eqb_spec n 0) as [E|_]; [lia|].
  cbn [Py.bind]. rewrite PIL_new_ok by lia. cbn [Py.bind].
  destruct (Z.ltb_spec edge_height eh); [|lia]. fold y_offset.
  unfold paste_mask, PIL.getchannel_A, filter_GaussianBlur,
    PIL.transpose_FLIP_TOP_BOTTOM.
  cbn [rgb alpha width height]. rewrite Hmw, Hmh, Hew, Heh', !Z.eqb_refl.
  cbn [andb].
  assert (Hyo : 0 <= y_offset /\ y_offset + edge_height <= eh).
  { unfold y_offset.
    pose proof (Z.div_mod (eh - edge_height) 2 ltac:(lia)).
    pose proof (Z.mod_pos_bound (eh - edge_height) 2 ltac:(lia)). lia. }
  assert (Hmean : forall sel,
            0 <= Z.quot (np.channel_sum sel (np.reshape_pixels edge)) n <= 255).
  { intros sel.
    pose proof (channel_sum_bounds sel (np.reshape_pixels edge)) as B.
    rewrite reshape_pixels_length, Hew, Heh' in B. fold n in B.
    rewrite Z.quot_div_nonneg by lia. split; [apply Z.div_pos; lia|].
    apply Z.div_le_upper_bound; lia. }
  assert (Hm0 : np.int_mean_axis0 (np.reshape_pixels edge)
                = Ok (Z.quot (np.channel_sum np.chan0 (np.reshape_pixels edge)) n,
                      Z.quot (np.channel_sum np.chan1 (np.reshape_pixels edge)) n,
                      Z.quot (np.channel_sum np.chan2 (np.reshape_pixels edge)) n)).
  { unfold np.int_mean_axis0. rewrite reshape_pixels_length, Hew, Heh'.
    fold n. destruct (Z.eqb_spec n 0); [lia|reflexivity]. }
  eexists. exists edge.
  exists (Z.quot (np.channel_sum np.chan0 (np.reshape_pixels edge)) n),
         (Z.quot (np.channel_sum np.chan1 (np.reshape_pixels edge)) n),
         (Z.quot (np.channel_sum np.chan2 (np.reshape_pixels edge)) n).
  split; [reflexivity|]. split; [reflexivity|]. split; [reflexivity|].
  split; [reflexivity|]. split; [exact Hm0|].
  split; [apply Hmean|]. split; [apply Hmean|]. split; [apply Hmean|].
  split; [apply Hyo|]. split; [apply Hyo|].
  intros x y Hx Hy Hout. cbn [getpixel]. unfold inside.
  destruct Hout as [Hab|Hbe].
  - destruct (Z.leb_spec 0 (y - y_offset)); [lia|].
    now rewrite !andb_false_r.
  - destruct (Z.ltb_spec (y - y_offset) edge_height); [lia|].
    now rewrite !andb_false_r.
Qed.

Lemma fallback_patch_is_mean_colour_outside_band_witness :
  let image := Fixtures.flat 16 9 x80 in
  0 < 16 /\ 0 < 9 /\ 3 <= height image
  /\ Z.min (9 * 2) (height image / 3) < 9
  /\ exists ext,
       _fallback_extension (IM := Fixtures.plain_imaging) image bottom 16 9
       = Ok ext
       /\ getpixel ext 5 0 = getpixel ext 11 8.
Proof.
  cbv zeta. split; [lia|]. split; [lia|]. split; [simpl; lia|].
  split; [reflexivity|].
  destruct (fallback_patch_is_mean_colour_outside_band
              (IM := Fixtures.plain_imaging) (Fixtures.flat 16 9 x80)
              bottom 16 9)
    as (ext & edge & c0 & c1 & c2 & Hf & _ & _ & _ & _ & _ & _ & _
        & _ & _ & Hpx);
    [lia|lia|simpl; lia|reflexivity|].
  exists ext. split; [exact Hf|].
  rewrite (Hpx 5 0); [|lia|lia|left; reflexivity].
  rewrite (Hpx 11 8); [|lia|lia|right; vm_compute; discriminate].
  reflexivity.
Defined.

(* ================================================================= *)
(** ** Further properties of the video processor *)

Lemma combine_range_cons (f0 : Image) (fs : list Image) :
  exists rest,
    List.combine (range (Z.of_nat (List.length (f0 :: fs)))) (f0 :: fs)
    = (0, f0) :: rest.
Proof.
  unfold range. rewrite Nat2Z.id. cbn [List.length List.seq List.map
                                        List.combine].
  eauto.
Qed.

(** X12.  [process_video] and the sample rate 0.  On a video with at least
    one frame a sample rate of 0 raises [ZeroDivisionError] at the first
    frame, before the extender is used: its cache and counters are as they
    were.  On a video without frames any sample rate, 0 too, gives an empty
    output. *)
Theorem sample_rate_zero_raises {IM : Imaging} (outpaint : generator)
  (ext : AIImageExtender) (v : Video) :
  (frame_data v <> [] ->
   process_video outpaint ext v 0 = (Raise ZeroDivisionError, ext))
  /\ (frame_data v = [] ->
      forall sample_rate,
        process_video outpaint ext v sample_rate = (Ok [], ext)).
Proof.
  unfold process_video, original_frames. split.
  - destruct (frame_data v) as [|d ds]; [congruence|]. intros _.
    cbn [List.map].
    destruct (combine_range_cons
                (mkImage (frame_width v) (frame_height v) d)
                (List.map (mkImage (frame_width v) (frame_height v)) ds))
      as (rest & ->).
    reflexivity.
  - intros -> sample_rate. reflexivity.
Qed.

Lemma sample_rate_zero_raises_witness :
  frame_data Fixtures.five_frames <> []
  /\ process_video (IM := Fixtures.plain_imaging) Fixtures.stub_generator
       (__init__ (Some "token"%string)) Fixtures.five_frames 0
     = (Raise ZeroDivisionError, __init__ (Some "token"%string)).
Proof.
  assert (H : frame_data Fixtures.five_frames <> []) by discriminate.
  split; [exact H|].
  exact (proj1 (sample_rate_zero_raises (IM := Fixtures.plain_imaging)
                  Fixtures.stub_generator (__init__ (Some "token"%string))
                  Fixtures.five_frames) H).
Defined.

Lemma negative_interval_run {IM : Imaging} (outpaint : generator)
  (ext : AIImageExtender) (v : Video) (keyframe_interval : Z) :
  keyframe_interval < 0 ->
  process_video_keyframes outpaint ext v keyframe_interval
  = match frame_data v with
    | [] => (Ok [], ext)
    | _ :: _ => (Raise KeyError, ext)
    end.
Proof.
  intros Hk.
  assert (Hneg : range3 0 (Z.of_nat (List.length (original_frames v)))
                        keyframe_interval = Ok []).
  { unfold range3.
    destruct (Z.eqb_spec keyframe_interval 0) as [|_]; [lia|].
    destruct (Z.ltb_spec 0 keyframe_interval) as [|_]; [lia|].
    set (cnt := List.length (original_frames v)).
    assert (Hc : Z.to_nat ((0 - Z.of_nat cnt - keyframe_interval - 1)
                           / - keyframe_interval) = 0%nat).
    { assert ((0 - Z.of_nat cnt - keyframe_interval - 1)
              / - keyframe_interval <= 0); [|lia].
      destruct cnt as [|c'].
      - rewrite Z.div_small; lia.
      - apply Z.lt_succ_r. apply Z.div_lt_upper_bound; lia. }
    rewrite Hc. reflexivity. }
  unfold process_video_keyframes. rewrite Hneg.
  cbn [process_keyframes]. unfold original_frames.
  destruct (frame_data v) as [|d ds]; [reflexivity|].
  cbn [List.map List.length]. unfold range. rewrite Nat2Z.id.
  cbn [List.seq List.map write_frames].
  unfold output_frame, floordiv. cbn [Dict.mem Dict.get].
  destruct (Z.eqb_spec keyframe_interval 0) as [|_]; [lia|].
  reflexivity.
Qed.

(** X13.  [process_video_keyframes] and an interval that is not positive.
    The interval 0 raises [ValueError] (the step of [range]) on every video,
    before any frame is extended.  A negative interval selects no keyframe:
    on a video with at least one frame the second pass raises [KeyError] at
    frame 0, in the branch that falls back to the nearest keyframe, and on a
    video without frames the output is empty.  The extender is as it was in
    all three cases. *)
Theorem non_positive_interval_raises {IM : Imaging} (outpaint : generator)
  (ext : AIImageExtender) (v : Video) (keyframe_interval : Z) :
  (keyframe_interval = 0 ->
   process_video_keyframes outpaint ext v keyframe_interval
   = (Raise ValueError, ext))
  /\ (keyframe_interval < 0 -> frame_data v <> [] ->
      process_video_keyframes outpaint ext v keyframe_interval
      = (Raise KeyError, ext))
  /\ (keyframe_interval < 0 -> frame_data v = [] ->
      process_video_keyframes outpaint ext v keyframe_interval
      = (Ok [], ext)).
Proof.
  split; [intros ->; reflexivity|].
  split; intros Hk Hv; rewrite negative_interval_run by exact Hk.
  - destruct (frame_data v); [congruence|reflexivity].
  - now rewrite Hv.
Qed.

Lemma non_positive_interval_raises_witness :
  -24 < 0 /\ frame_data Fixtures.five_frames <> []
  /\ process_video_keyframes (IM := Fixtures.plain_imaging)
       Fixtures.stub_generator (__init__ (Some "token"%string))
       Fixtures.five_frames (-24)
     = (Raise KeyError, __init__ (Some "token"%string)).
Proof.
  assert (H : frame_data Fixtures.five_frames <> []) by discriminate.
  split; [lia|]. split; [exact H|].
  exact (proj1 (proj2 (non_positive_interval_raises
                         (IM := Fixtures.plain_imaging)
                         Fixtures.stub_generator
                         (__init__ (Some "token"%string))
                         Fixtures.five_frames (-24))) ltac:(lia) H).
Defined.



(** *** Blending stays between the keyframes *)

(** X16.  In keyframe mode with a positive interval, a run that returns has
    written, at every index [i] that is not a multiple of the interval, a
    frame whose every channel sample lies between the samples, at the same
    pixel and channel, of the two keyframes written at the previous and the
    next keyframe index: interpolation never leaves the range spanned by
    its two keyframes, and wherever the two keyframes carry the same pixel
    the interpolated frame carries it unchanged. *)
Theorem interpolated_samples_between_keyframes {IM : Imaging}
  (outpaint : generator) (ext ext' : AIImageExtender) (v : Video)
  (interval : Z) (out : list (branch * Image)) (i : Z) :
  0 < interval ->
  process_video_keyframes outpaint ext v interval = (Ok out, ext') ->
  0 <= i < Z.of_nat (List.length (frame_data v)) ->
  i mod interval <> 0 ->
  exists kprev knext f,
    List.nth_error out (Z.to_nat (prev_keyframe_idx i interval))
    = Some (Keyframe, kprev)
    /\ List.nth_error out
         (Z.to_nat (next_keyframe_idx i interval
                      (Z.of_nat (List.length (frame_data v)))))
       = Some (Keyframe, knext)
    /\ List.nth_error out (Z.to_nat i) = Some (Blended, f)
    /\ (forall x y sel, In sel [np.chan0; np.chan1; np.chan2] ->
          Z.min (u8_val (sel (getpixel kprev x y)))
                (u8_val (sel (getpixel knext x y)))
          <= u8_val (sel (getpixel f x y))
          <= Z.max (u8_val (sel (getpixel kprev x y)))
                   (u8_val (sel (getpixel knext x y))))
    /\ (forall x y, getpixel kprev x y = getpixel knext x y ->
                    getpixel f x y = getpixel kprev x y).
Proof.
  intros Hk Hrun Hi Hm.
  set (total := Z.of_nat (List.length (frame_data v))) in *.
  destruct (keyframe_run outpaint ext ext' v interval out Hk Hrun)
    as (keyframes & Hkeys & Hsized & Hrs).
  fold total in Hkeys, Hrs.
  destruct (prev_keyframe_bounds i interval Hk ltac:(lia)) as (Hp & Hlt & Hpm).
  destruct (next_keyframe_is_multiple i interval total Hk Hi) as (Hn & Hnm).
  pose proof (next_keyframe_cases i interval total Hk Hi) as Hcases.
  cbv zeta in Hcases.
  set (prev := prev_keyframe_idx i interval) in *.
  set (next := next_keyframe_idx i interval total) in *.
  destruct (blend_factor_round i prev next ltac:(lia) ltac:(lia))
    as (Ht & Ht0 & Ht1).
  cbv zeta in Ht.
  assert (Hu : (0 <= (if next >? prev
                      then inject_Z (i - prev) / inject_Z (next - prev)
                      else 0) <= 1)%Q)
    by (split; [exact Ht0|apply Qlt_le_weak; exact Ht1]).
  destruct (output_frame_blended keyframes interval total
              (frame_width v) (target_height_of (frame_width v))
              Hk Hkeys Hsized i Hi Hm)
    as (kprev & knext & f & Hgp & Hgn & Hadd & Hout).
  cbv zeta in Hgp, Hgn, Hadd, Hout. fold prev next in Hgp, Hgn, Hadd.
  rewrite Ht in Hadd.
  exists kprev, knext, f.
  destruct (written_frame_at _ _ _ _ prev Hrs ltac:(lia)) as (rp & Hrp & Hop).
  destruct (output_frame_keyframe keyframes interval total
              (frame_width v) (target_height_of (frame_width v))
              Hkeys Hsized prev ltac:(lia) Hpm) as (fp & Hfp & Hofp).
  destruct (written_frame_at _ _ _ _ next Hrs Hn) as (rn & Hrn & Hon).
  destruct (output_frame_keyframe keyframes interval total
              (frame_width v) (target_height_of (frame_width v))
              Hkeys Hsized next Hn Hnm) as (fn & Hfn & Hofn).
  destruct (written_frame_at _ _ _ _ i Hrs Hi) as (ri & Hri & Hoi).
  assert (rp = (Keyframe, kprev)) by congruence.
  assert (rn = (Keyframe, knext)) by congruence.
  assert (ri = (Blended, f)) by congruence.
  subst rp rn ri.
  split; [exact Hrp|]. split; [exact Hrn|]. split; [exact Hri|].
  destruct (Hsized _ _ Hgp) as [Ew Eh]. destruct (Hsized _ _ Hgn) as [Ew' Eh'].
  rewrite addWeighted_ok in Hadd by congruence.
  injection Hadd as <-. cbn [width height getpixel]. split.
  - intros x y sel Hsel. now apply blend_pixel_between.
  - intros x y E. rewrite <- E. now apply blend_pixel_same.
Qed.

Lemma interpolated_samples_between_keyframes_witness :
  let r := process_video_keyframes (IM := Fixtures.plain_imaging)
             Fixtures.failing_generator (__init__ None)
             Fixtures.five_frames 3 in
  0 < 3
  /\ is_ok (fst r) = true
  /\ 0 <= 1 < Z.of_nat (List.length (frame_data Fixtures.five_frames))
  /\ 1 mod 3 <> 0
  /\ exists out kprev knext f,
       fst r = Ok out
       /\ List.nth_error out 0 = Some (Keyframe, kprev)
       /\ List.nth_error out 3 = Some (Keyframe, knext)
       /\ List.nth_error out 1 = Some (Blended, f)
       /\ Z.min (u8_val (np.chan0 (getpixel kprev 0 6)))
                (u8_val (np.chan0 (getpixel knext 0 6)))
          <= u8_val (np.chan0 (getpixel f 0 6))
          <= Z.max (u8_val (np.chan0 (getpixel kprev 0 6)))
                   (u8_val (np.chan0 (getpixel knext 0 6))).
Proof.
  cbv zeta.
  assert (Hok : is_ok (fst (process_video_keyframes
                              (IM := Fixtures.plain_imaging)
                              Fixtures.failing_generator (__init__ None)
                              Fixtures.five_frames 3)) = true)
    by (vm_compute; reflexivity).
  split; [lia|]. split; [exact Hok|]. split; [simpl; lia|].
  split; [discriminate|].
  destruct (process_video_keyframes (IM := Fixtures.plain_imaging)
              Fixtures.failing_generator (__init__ None)
              Fixtures.five_frames 3) as [[out|e] ext'] eqn:Hrun;
    [|discriminate Hok].
  destruct (interpolated_samples_between_keyframes
              (IM := Fixtures.plain_imaging)
              Fixtures.failing_generator (__init__ None) ext'
              Fixtures.five_frames 3 out 1 ltac:(lia) Hrun
              ltac:(simpl; lia) ltac:(discriminate))
    as (kprev & knext & f & H0 & H3 & H1 & Hbt & _).
  exists out, kprev, knext, f.
  split; [reflexivity|]. split; [exact H0|]. split; [exact H3|].
  split; [exact H1|]. apply Hbt. left. reflexivity.
Defined.

(* ================================================================= *)
(** ** Uniform sampling: the skipped frames *)

Lemma mod_abs_zero (j s : Z) : s <> 0 -> (j mod s = 0 <-> j mod Z.abs s = 0).
Proof.
  intros Hs. rewrite (Z.mod_divide j s) by assumption.
  rewrite (Z.mod_divide j (Z.abs s)) by lia.
  symmetry. apply Z.divide_abs_l.
Qed.

Lemma last_sampled_step (k m : Z) :
  0 < m -> k mod m <> 0 -> k - k mod m = (k - 1) - (k - 1) mod m.
Proof.
  intros Hm Hk.
  pose proof (Z.mod_pos_bound k m Hm) as Hb.
  pose proof (Z.div_mod k m ltac:(lia)) as Hd.
  assert (E : k mod m - 1 = (k - 1) mod m).
  { apply Z.mod_unique with (q := k / m); lia. }
  lia.
Qed.

Lemma last_sampled_bounds (j m : Z) :
  0 < m -> 0 <= j -> 0 <= j - j mod m <= j /\ (j - j mod m) mod m = 0.
Proof.
  intros Hm Hj.
  pose proof (Z.mod_pos_bound j m Hm) as Hb.
  pose proof (Z.div_mod j m ltac:(lia)) as Hd.
  assert (0 <= j / m) by (apply Z.div_pos; lia).
  split; [nia|].
  replace (j - j mod m) with (j / m * m) by lia. apply Z.mod_mul. lia.
Qed.

Lemma last_of_seq (k : nat) :
  List.last (List.map Some (List.map Z.of_nat (List.seq 0 (S k)))) None
  = Some (Z.of_nat k).
Proof.
  rewrite seq_S, !map_app. simpl. apply last_last.
Qed.

Section SamplingFacts.
Context {IM : Imaging}.
Variable outpaint : generator.
Variable s : Z.
Hypothesis Hs : s <> 0.

(** After [k] frames the paths are the indices below [k], and the file of
    every index holds what the file of the last sampled index at or before
    it holds. *)
Lemma process_frames_sampled (frames : list Image) :
  forall (k : nat) processed files ext out_paths out_files ext',
    processed = List.map Z.of_nat (List.seq 0 k) ->
    (forall j, 0 <= j < Z.of_nat k ->
       exists c, Dict.get Z.eqb j files = Some c
                 /\ Dict.get Z.eqb (j - j mod Z.abs s) files = Some c) ->
    process_frames outpaint s
      (List.combine (List.map Z.of_nat (List.seq k (List.length frames)))
                    frames)
      processed files ext
    = (Ok (out_paths, out_files), ext') ->
    out_paths = List.map Z.of_nat (List.seq 0 (k + List.length frames))
    /\ (forall j, 0 <= j < Z.of_nat (k + List.length frames) ->
          exists c, Dict.get Z.eqb j out_files = Some c
                    /\ Dict.get Z.eqb (j - j mod Z.abs s) out_files = Some c).
Proof.
  assert (Hm : 0 < Z.abs s) by lia.
  induction frames as [|frame frames IH];
    intros k processed files ext out_paths out_files ext' Hp Hf Hrun.
  - simpl in Hrun. injection Hrun as <- <- <-.
    rewrite Nat.add_0_r. split; [exact Hp|]. exact Hf.
  - cbn [List.length List.seq List.map List.combine process_frames] in Hrun.
    unfold mod_ in Hrun. destruct (Z.eqb_spec s 0) as [|_]; [contradiction|].
    replace (k + List.length (frame :: frames))%nat
      with (S k + List.length frames)%nat by (simpl; lia).
    destruct (Z.eqb_spec (Z.of_nat k mod s) 0) as [Hz|Hz].
    + destruct (analyze_frame_and_extend outpaint ext (cv2.cvtColor frame))
        as [[extended|e] ext1]; [|discriminate].
      apply IH in Hrun; [exact Hrun|now rewrite seq_S, map_app, Hp|].
      intros j Hj.
      apply (mod_abs_zero _ _ Hs) in Hz.
      destruct (Z.eq_dec j (Z.of_nat k)) as [->|Hne].
      * rewrite Hz, Z.sub_0_r.
        rewrite (dict_get_set_same Z.eqb Z.eqb_spec). eauto.
      * destruct (Hf j ltac:(lia)) as (c & Hc1 & Hc2).
        pose proof (last_sampled_bounds j (Z.abs s) Hm ltac:(lia)) as [Hb _].
        exists c.
        rewrite !(dict_get_set_other Z.eqb Z.eqb_spec) by lia. now split.
    + assert (Hzm : Z.of_nat k mod Z.abs s <> 0)
        by (rewrite <- (mod_abs_zero _ _ Hs); exact Hz).
      destruct k as [|k'].
      { exfalso. apply Hz. apply Z.mod_0_l. exact Hs. }
      rewrite Hp, last_of_seq in Hrun.
      destruct (Hf (Z.of_nat k') ltac:(lia)) as (c & Hc1 & Hc2).
      rewrite Hc1 in Hrun.
      apply IH in Hrun;
        [exact Hrun|rewrite (seq_S (S k')), map_app; reflexivity|].
      intros j Hj.
      destruct (Z.eq_dec j (Z.of_nat (S k'))) as [->|Hne].
      * exists c. rewrite (dict_get_set_same Z.eqb Z.eqb_spec).
        split; [reflexivity|].
        rewrite (last_sampled_step _ _ Hm Hzm).
        replace (Z.of_nat (S k') - 1) with (Z.of_nat k') by lia.
        pose proof (last_sampled_bounds (Z.of_nat k') (Z.abs s) Hm ltac:(lia))
          as [Hb _].
        rewrite (dict_get_set_other Z.eqb Z.eqb_spec) by lia. exact Hc2.
      * destruct (Hf j ltac:(lia)) as (c' & Hc1' & Hc2').
        pose proof (last_sampled_bounds j (Z.abs s) Hm ltac:(lia)) as [Hb _].
        exists c'.
        rewrite !(dict_get_set_other Z.eqb Z.eqb_spec) by lia. now split.
Qed.

End SamplingFacts.

Lemma frames_to_video_nth {IM : Imaging} (ps : list Z)
  (files : list (Z * Image)) (w h : Z) :
  files_cover ps files ->
  forall i p, List.nth_error ps i = Some p ->
    List.nth_error (_frames_to_video ps files w h) i
    = List.nth_error (_frames_to_video [p] files w h) 0.
Proof.
  induction 1 as [|p0 ps Hp0 Hps IH]; intros i p Hi.
  - destruct i; discriminate.
  - destruct i as [|i].
    + injection Hi as <-. simpl.
      destruct (Dict.get Z.eqb p0 files); [reflexivity|congruence].
    + simpl in Hi. cbn [_frames_to_video].
      destruct (Dict.get Z.eqb p0 files) as [c|]; [|congruence].
      cbv zeta. cbn [List.nth_error]. now apply IH.
Qed.

(** X11.  With a non-zero sample rate, a run of [process_video] that returns
    has written, at every frame index, the very frame it has written at the
    last sampled index at or before it (the largest multiple of the sample
    rate not above the index): the frames between two sampled ones are
    copies of the earlier one, never of a later one and never a blend. *)
Theorem skipped_frames_repeat_last_sampled {IM : Imaging}
  (outpaint : generator) (ext ext' : AIImageExtender) (v : Video)
  (sample_rate : Z) (out : list Image) (i : Z) :
  sample_rate <> 0 ->
  process_video outpaint ext v sample_rate = (Ok out, ext') ->
  0 <= i < Z.of_nat (List.length (frame_data v)) ->
  exists f,
    List.nth_error out (Z.to_nat i) = Some f
    /\ List.nth_error out (Z.to_nat (i - i mod Z.abs sample_rate)) = Some f.
Proof.
  intros Hs Hrun Hi. unfold process_video in Hrun.
  destruct (process_frames outpaint sample_rate _ [] [] ext)
    as [[[paths files]|e] ext1] eqn:Hloop; [|discriminate].
  injection Hrun as <- <-.
  unfold range in Hloop. rewrite Nat2Z.id in Hloop.
  apply (process_frames_sampled outpaint sample_rate Hs (original_frames v) 0)
    in Hloop; [|reflexivity|intros j Hj; simpl in Hj; lia].
  destruct Hloop as [-> Hfiles]. cbn [Nat.add] in Hfiles |- *.
  rewrite original_frames_length in Hfiles |- *.
  set (n := List.length (frame_data v)) in *.
  assert (Hcover : files_cover (List.map Z.of_nat (List.seq 0 n)) files).
  { apply Forall_forall. intros p Hp. apply in_map_iff in Hp.
    destruct Hp as (q & <- & Hq). apply in_seq in Hq.
    destruct (Hfiles (Z.of_nat q) ltac:(lia)) as (c & Hc & _). congruence. }
  assert (Hm : 0 < Z.abs sample_rate) by lia.
  pose proof (last_sampled_bounds i (Z.abs sample_rate) Hm ltac:(lia))
    as [Hb _].
  assert (Hnth : forall j, 0 <= j < Z.of_nat n ->
            List.nth_error (List.map Z.of_nat (List.seq 0 n)) (Z.to_nat j)
            = Some j).
  { intros j Hj. rewrite nth_error_map, nth_error_seq.
    destruct (Nat.ltb_spec (Z.to_nat j) n); [|lia]. simpl. f_equal. lia. }
  rewrite (frames_to_video_nth _ _ _ _ Hcover _ _ (Hnth i Hi)).
  rewrite (frames_to_video_nth _ _ _ _ Hcover _ _
             (Hnth (i - i mod Z.abs sample_rate) ltac:(lia))).
  destruct (Hfiles i Hi) as (c & Hc1 & Hc2).
  cbn [_frames_to_video]. rewrite Hc1, Hc2. cbv zeta. cbn [List.nth_error].
  eauto.
Qed.

Lemma skipped_frames_repeat_last_sampled_witness :
  let r := process_video (IM := Fixtures.plain_imaging)
             Fixtures.failing_generator (__init__ None)
             Fixtures.five_frames 3 in
  3 <> 0
  /\ is_ok (fst r) = true
  /\ 0 <= 2 < Z.of_nat (List.length (frame_data Fixtures.five_frames))
  /\ exists out f,
       fst r = Ok out
       /\ List.nth_error out 2 = Some f
       /\ List.nth_error out 0 = Some f.
Proof.
  cbv zeta.
  assert (Hok : is_ok (fst (process_video (IM := Fixtures.plain_imaging)
                              Fixtures.failing_generator (__init__ None)
                              Fixtures.five_frames 3)) = true)
    by (vm_compute; reflexivity).
  split; [lia|]. split; [exact Hok|]. split; [simpl; lia|].
  destruct (process_video (IM := Fixtures.plain_imaging)
              Fixtures.failing_generator (__init__ None)
              Fixtures.five_frames 3) as [[out|e] ext'] eqn:Hrun;
    [|discriminate Hok].
  destruct (skipped_frames_repeat_last_sampled (IM := Fixtures.plain_imaging)
              Fixtures.failing_generator (__init__ None) ext'
              Fixtures.five_frames 3 out 2 ltac:(lia) Hrun
              ltac:(simpl; lia))
    as (f & H2 & H0).
  exists out, f. split; [reflexivity|]. split; [exact H2|exact H0].
Defined.

(* ================================================================= *)
(** ** The three regions of an extended frame *)

(** A request of positive size on an extender with an empty cache, with no
    token or with a generator that raises: the fallback is what the request
    returns or raises, and the cache stays empty. *)
Lemma generate_in_fallback_mode {IM : Imaging} (outpaint : generator)
  (self : AIImageExtender) (image : Image) (pos : position) (w eh : Z) :
  0 < w -> 0 < eh -> 0 <= height image ->
  extension_cache self = [] ->
  (token_set self = false
   \/ forall n im p w' h', exists e, outpaint n im p w' h' = Raise e) ->
  exists self',
    _generate_ai_extension outpaint self image pos w eh
    = (_fallback_extension image pos w eh, self')
    /\ extension_cache self' = []
    /\ token_set self' = token_set self.
Proof.
  intros Hw Heh Hh Hc Hmode.
  destruct (request_key_ok image pos w eh) as (key & Hkey); [lia|lia|].
  assert (Hget : Dict.get String.eqb key (extension_cache self) = None)
    by (rewrite Hc; reflexivity).
  destruct (token_set self) eqn:Htok.
  - destruct Hmode as [Hm|Hm]; [discriminate|].
    destruct (Hm (generation_calls self) image pos w eh) as (e & He).
    rewrite (generate_miss_failed outpaint self image pos w eh key Hw Heh Hkey
               e Hget Htok He).
    eexists. split; [reflexivity|]. split; [exact Hc|exact Htok].
  - rewrite (generate_miss_no_token outpaint self image pos w eh key Hw Heh
               Hkey Hget Htok).
    eexists. split; [reflexivity|]. split; [exact Hc|exact Htok].
Qed.

(** X17.  The three regions of an extended frame.  On an extender with an
    empty cache, without a token or with a generator that raises at every
    call (as the generator of the repository does), a frame of positive
    width, of three rows or more and at least two rows short of the target
    height is extended into a frame made of exactly three stacked regions:
    the rows above the top extension height are the fallback patch of the
    top, the next rows are the source frame, row for row and unchanged, and
    the remaining rows are the fallback patch of the bottom; no patch
    overwrites a source pixel, and the cache is still empty afterwards. *)
Theorem extended_frame_has_three_regions {IM : Imaging} (outpaint : generator)
  (self : AIImageExtender) (image : Image) :
  let W := width image in
  let H := height image in
  let top_h := (target_height_of W - H) / 2 in
  let bottom_h := (target_height_of W - H) - top_h in
  0 < W -> 3 <= H -> H + 2 <= target_height_of W ->
  extension_cache self = [] ->
  (token_set self = false
   \/ forall n im p w' h', exists e, outpaint n im p w' h' = Raise e) ->
  exists top_ext bottom_ext out self',
    _fallback_extension image top W top_h = Ok top_ext
    /\ _fallback_extension image bottom W bottom_h = Ok bottom_ext
    /\ analyze_frame_and_extend outpaint self image = (Ok out, self')
    /\ extension_cache self' = []
    /\ forall x, 0 <= x < W ->
         (forall y, 0 <= y < top_h ->
            getpixel out x y = getpixel top_ext x y)
         /\ (forall y, 0 <= y < H ->
               getpixel out x (top_h + y) = getpixel image x y)
         /\ (forall y, 0 <= y < bottom_h ->
               getpixel out x (top_h + H + y) = getpixel bottom_ext x y).
Proof.
  intros W H top_h bottom_h HW HH Hshort Hc Hmode.
  assert (Htop : 1 <= top_h).
  { unfold top_h. apply Z.div_le_lower_bound; lia. }
  assert (Hbot : top_h <= bottom_h).
  { unfold bottom_h, top_h.
    pose proof (Z.div_mod (target_height_of W - H) 2 ltac:(lia)).
    pose proof (Z.mod_pos_bound (target_height_of W - H) 2 ltac:(lia)). lia. }
  destruct (fallback_ok image top W top_h) as (t & Ht & Htw & Hth);
    [lia|lia|exact HH|].
  destruct (fallback_ok image bottom W bottom_h) as (b & Hb & Hbw & Hbh);
    [lia|lia|exact HH|].
  destruct (generate_in_fallback_mode outpaint self image top W top_h)
    as (s1 & Hg1 & Hc1 & Ht1); [lia|lia|fold H; lia|exact Hc|exact Hmode|].
  destruct (generate_in_fallback_mode outpaint s1 image bottom W bottom_h)
    as (s2 & Hg2 & Hc2 & Ht2);
    [lia|lia|fold H; lia|exact Hc1|
     destruct Hmode as [Hm|Hm]; [left; congruence|right; exact Hm]|].
  rewrite Ht in Hg1. rewrite Hb in Hg2.
  exists t, b.
  exists (PIL.paste
            (PIL.paste
               (PIL.paste (mkImage W (target_height_of W) (fun _ _ => black))
                          image 0 top_h)
               t 0 0)
            b 0 (top_h + H)), s2.
  split; [exact Ht|]. split; [exact Hb|]. split.
  { unfold analyze_frame_and_extend. cbv zeta. fold W H. fold top_h.
    fold bottom_h. rewrite PIL_new_ok by lia. rewrite Hg1, Hg2. reflexivity. }
  split; [exact Hc2|].
  intros x Hx. unfold PIL.paste, inside. cbn [width height getpixel].
  rewrite Htw, Hth, Hbw, Hbh. fold W H.
  split; [|split]; intros y Hy.
  - destruct (Z.leb_spec 0 (y - (top_h + H))); [lia|].
    rewrite !andb_false_r. cbn [andb].
    destruct (Z.leb_spec 0 (x - 0)); [|lia].
    destruct (Z.ltb_spec (x - 0) W); [|lia].
    destruct (Z.leb_spec 0 (y - 0)); [|lia].
    destruct (Z.ltb_spec (y - 0) top_h); [|lia].
    cbn [andb]. now rewrite !Z.sub_0_r.
  - destruct (Z.leb_spec 0 (top_h + y - (top_h + H))); [lia|].
    rewrite !andb_false_r. cbn [andb].
    destruct (Z.ltb_spec (top_h + y - 0) top_h); [lia|].
    rewrite !andb_false_r.
    replace (top_h + y - top_h) with y by lia.
    destruct (Z.leb_spec 0 (x - 0)); [|lia].
    destruct (Z.ltb_spec (x - 0) W); [|lia].
    destruct (Z.leb_spec 0 y); [|lia].
    destruct (Z.ltb_spec y H); [|lia].
    cbn [andb]. now rewrite !Z.sub_0_r.
  - replace (top_h + H + y - (top_h + H)) with y by lia.
    destruct (Z.leb_spec 0 (x - 0)); [|lia].
    destruct (Z.ltb_spec (x - 0) W); [|lia].
    destruct (Z.leb_spec 0 y); [|lia].
    destruct (Z.ltb_spec y bottom_h); [|lia].
    cbn [andb]. now rewrite !Z.sub_0_r.
Qed.

Lemma extended_frame_has_three_regions_witness :
  let image := Fixtures.flat 9 3 x80 in
  0 < width image /\ 3 <= height image
  /\ height image + 2 <= target_height_of (width image)
  /\ exists out self',
       analyze_frame_and_extend (IM := Fixtures.plain_imaging)
         Fixtures.failing_generator (__init__ None) image = (Ok out, self')
       /\ getpixel out 4 (6 + 1) = getpixel image 4 1.
Proof.
  cbv zeta. split; [simpl; lia|]. split; [simpl; lia|].
  split; [vm_compute; discriminate|].
  destruct (extended_frame_has_three_regions (IM := Fixtures.plain_imaging)
              Fixtures.failing_generator (__init__ None)
              (Fixtures.flat 9 3 x80))
    as (t & b & out & self' & _ & _ & Hrun & _ & Hpx);
    [simpl; lia|simpl; lia|vm_compute; discriminate|reflexivity|
     left; reflexivity|].
  exists out, self'. split; [exact Hrun|].
  destruct (Hpx 4 ltac:(simpl; lia)) as (_ & Hsrc & _).
  apply (Hsrc 1). simpl. lia.
Defined.

(* ================================================================= *)
(** ** The upload filter *)

Lemma rsplit_once_none (sep : ascii) (s : string) :
  main.rsplit_once sep s = None <-> main.contains sep s = false.
Proof.
  induction s as [|a s IH]; simpl; [tauto|].
  destruct (main.rsplit_once sep s) as [[b c]|].
  - split; [discriminate|]. intros H. apply orb_false_elim in H.
    destruct H as [_ H]. apply IH in H. discriminate.
  - assert (Hc : main.contains sep s = false) by (now apply IH).
    rewrite Hc, orb_false_r. destruct (Ascii.eqb a sep); split; congruence.
Qed.

Lemma rsplit_once_some (sep : ascii) (s before after : string) :
  main.rsplit_once sep s = Some (before, after) ->
  s = String.append before (String sep after)
  /\ main.contains sep after = false.
Proof.
  revert before. induction s as [|a s IH]; intros before H; simpl in H;
    [discriminate|].
  destruct (main.rsplit_once sep s) as [[b c]|] eqn:E.
  - injection H as <- <-. destruct (IH b eq_refl) as [-> Hc].
    split; [reflexivity|exact Hc].
  - destruct (Ascii.eqb_spec a sep) as [->|]; [|discriminate].
    injection H as <- <-. split; [reflexivity|]. now apply rsplit_once_none.
Qed.

Lemma rsplit_once_append (sep : ascii) (before after : string) :
  main.contains sep after = false ->
  main.rsplit_once sep (String.append before (String sep after))
  = Some (before, after).
Proof.
  intros Hc. apply rsplit_once_none in Hc.
  induction before as [|a b IH]; simpl.
  - now rewrite Hc, Ascii.eqb_refl.
  - now rewrite IH.
Qed.

Lemma contains_append (sep : ascii) (before after : string) :
  main.contains sep (String.append before (String sep after)) = true.
Proof.
  induction before as [|a b IH]; simpl.
  - now rewrite Ascii.eqb_refl.
  - rewrite IH. apply orb_true_r.
Qed.

Lemma lower_char_dot (c : ascii) :
  Ascii.eqb (main.lower_char c) "."%char = Ascii.eqb c "."%char.
Proof.
  destruct c as [[] [] [] [] [] [] [] []]; reflexivity.
Qed.

Lemma contains_dot_lower (s : string) :
  main.contains "."%char (main.lower s) = main.contains "."%char s.
Proof.
  induction s as [|a s IH]; [reflexivity|]. simpl.
  now rewrite lower_char_dot, IH.
Qed.

Lemma allowed_extension_has_no_dot (ext : string) :
  In (main.lower ext) main.ALLOWED_EXTENSIONS ->
  main.contains "."%char ext = false.
Proof.
  intros Hin. rewrite <- contains_dot_lower.
  destruct Hin as [<- | [<- | [<- | [<- | []]]]]; reflexivity.
Qed.

(** X18.  [allowed_file] never raises, and it accepts a file name exactly
    when the name is some stem, a dot and an extension whose lower-case form
    is one of mp4, mov, avi and webm: only what follows the last dot counts,
    upper and lower case are not told apart, the stem may be empty and may
    itself contain dots. *)
Theorem allowed_file_decides_by_last_extension (filename : string) :
  exists b,
    main.allowed_file filename = Ok b
    /\ (b = true <->
        exists stem ext,
          filename = String.append stem (String "."%char ext)
          /\ In (main.lower ext) main.ALLOWED_EXTENSIONS).
Proof.
  unfold main.allowed_file, main.rsplit.
  destruct (main.contains "."%char filename) eqn:Hdot.
  - destruct (main.rsplit_once "."%char filename) as [[before after]|] eqn:E.
    + cbn [main.getitem List.nth_error Py.bind].
      eexists. split; [reflexivity|].
      destruct (rsplit_once_some _ _ _ _ E) as [Hname Hafter].
      rewrite existsb_exists. split.
      * intros (x & Hin & Heq). apply String.eqb_eq in Heq. subst x.
        exists before, after. now split.
      * intros (stem & ext & Hname' & Hin).
        pose proof (allowed_extension_has_no_dot ext Hin) as Hext.
        pose proof (rsplit_once_append "."%char stem ext Hext) as E'.
        rewrite <- Hname', E in E'. injection E' as -> ->.
        exists (main.lower ext). split; [exact Hin|apply String.eqb_refl].
    + apply rsplit_once_none in E. congruence.
  - exists false. split; [reflexivity|]. split; [discriminate|].
    intros (stem & ext & -> & _). rewrite contains_append in Hdot.
    discriminate.
Qed.

(* ================================================================= *)
(** ** The two modes extend the same frames *)


Section ModeFacts.
Context {IM : Imaging}.
Variable outpaint : generator.
Variable r : Z.
Hypothesis Hr : r <> 0.


End ModeFacts.



(* ================================================================= *)
(** ** The frames after the last keyframe *)

(** X19.  In keyframe mode with a positive interval, the frames that follow
    the last keyframe are copies of it: for an index that is not a multiple
    of the interval and whose next multiple is not below the frame count,
    the frame written is, pixel for pixel, the keyframe written at the
    previous multiple.  The end of the output shows a still picture. *)
Theorem frames_after_last_keyframe_repeat_it {IM : Imaging}
  (outpaint : generator) (ext ext' : AIImageExtender) (v : Video)
  (interval : Z) (out : list (branch * Image)) (i : Z) :
  0 < interval ->
  process_video_keyframes outpaint ext v interval = (Ok out, ext') ->
  0 <= i < Z.of_nat (List.length (frame_data v)) ->
  i mod interval <> 0 ->
  Z.of_nat (List.length (frame_data v))
  <= prev_keyframe_idx i interval + interval ->
  exists kprev f,
    List.nth_error out (Z.to_nat (prev_keyframe_idx i interval))
    = Some (Keyframe, kprev)
    /\ List.nth_error out (Z.to_nat i) = Some (Blended, f)
    /\ width f = width kprev /\ height f = height kprev
    /\ forall x y, getpixel f x y = getpixel kprev x y.
Proof.
  intros Hk Hrun Hi Hm Hlast.
  set (total := Z.of_nat (List.length (frame_data v))) in *.
  destruct (keyframe_run outpaint ext ext' v interval out Hk Hrun)
    as (keyframes & Hkeys & Hsized & Hrs).
  fold total in Hkeys, Hrs.
  destruct (prev_keyframe_bounds i interval Hk ltac:(lia)) as (Hp & Hlt & Hpm).
  assert (Enext : next_keyframe_idx i interval total
                  = prev_keyframe_idx i interval).
  { unfold next_keyframe_idx.
    destruct (Z.geb_spec (prev_keyframe_idx i interval + interval) total);
      [reflexivity|lia]. }
  destruct (output_frame_blended keyframes interval total
              (frame_width v) (target_height_of (frame_width v))
              Hk Hkeys Hsized i Hi Hm)
    as (kprev & knext & f & Hgp & Hgn & Hadd & Hout).
  cbv zeta in Hgp, Hgn, Hadd, Hout. rewrite Enext in Hgn, Hadd.
  assert (knext = kprev) by congruence. subst knext.
  assert (Et : blend_factor i (prev_keyframe_idx i interval)
                 (prev_keyframe_idx i interval) = 0%Q).
  { unfold blend_factor.
    destruct (Z.gtb_spec (prev_keyframe_idx i interval)
                (prev_keyframe_idx i interval)); [lia|reflexivity]. }
  rewrite Et in Hadd.
  destruct (written_frame_at _ _ _ _ (prev_keyframe_idx i interval) Hrs
              ltac:(lia)) as (rp & Hrp & Hop).
  destruct (output_frame_keyframe keyframes interval total
              (frame_width v) (target_height_of (frame_width v))
              Hkeys Hsized (prev_keyframe_idx i interval) ltac:(lia) Hpm)
    as (fp & Hfp & Hofp).
  destruct (written_frame_at _ _ _ _ i Hrs Hi) as (ri & Hri & Hoi).
  assert (rp = (Keyframe, kprev)) by congruence.
  assert (ri = (Blended, f)) by congruence.
  subst rp ri. exists kprev, f.
  split; [exact Hrp|]. split; [exact Hri|].
  rewrite addWeighted_ok in Hadd by reflexivity.
  injection Hadd as <-. cbn [width height getpixel].
  split; [reflexivity|]. split; [reflexivity|].
  intros x y. apply blend_pixel_identity.
Qed.

Lemma frames_after_last_keyframe_repeat_it_witness :
  let r := process_video_keyframes (IM := Fixtures.plain_imaging)
             Fixtures.failing_generator (__init__ None)
             Fixtures.five_frames 3 in
  0 < 3
  /\ is_ok (fst r) = true
  /\ 0 <= 4 < Z.of_nat (List.length (frame_data Fixtures.five_frames))
  /\ 4 mod 3 <> 0
  /\ Z.of_nat (List.length (frame_data Fixtures.five_frames))
     <= prev_keyframe_idx 4 3 + 3
  /\ exists out kprev f,
       fst r = Ok out
       /\ List.nth_error out 3 = Some (Keyframe, kprev)
       /\ List.nth_error out 4 = Some (Blended, f)
       /\ getpixel f 0 6 = getpixel kprev 0 6.
Proof.
  cbv zeta.
  assert (Hok : is_ok (fst (process_video_keyframes
                              (IM := Fixtures.plain_imaging)
                              Fixtures.failing_generator (__init__ None)
                              Fixtures.five_frames 3)) = true)
    by (vm_compute; reflexivity).
  split; [lia|]. split; [exact Hok|]. split; [simpl; lia|].
  split; [discriminate|]. split; [vm_compute; discriminate|].
  destruct (process_video_keyframes (IM := Fixtures.plain_imaging)
              Fixtures.failing_generator (__init__ None)
              Fixtures.five_frames 3) as [[out|e] ext'] eqn:Hrun;
    [|discriminate Hok].
  destruct (frames_after_last_keyframe_repeat_it
              (IM := Fixtures.plain_imaging)
              Fixtures.failing_generator (__init__ None) ext'
              Fixtures.five_frames 3 out 4 ltac:(lia) Hrun
              ltac:(simpl; lia) ltac:(discriminate)
              ltac:(vm_compute; discriminate))
    as (kprev & f & H3 & H4 & _ & _ & Hpx).
  exists out, kprev, f.
  split; [reflexivity|]. split; [exact H3|]. split; [exact H4|]. apply Hpx.
Defined.

(* ================================================================= *)
(** ** A generated patch in the cache *)

Lemma cached_patches_come_from_the_generator_witness :
  let final :=
    serve (IM := Fixtures.plain_imaging) Fixtures.stub_generator
          (__init__ (Some "token"%string))
          [mkRequest (Fixtures.flat 16 9 x80) bottom 16 9] in
  exists patch,
    Dict.get String.eqb "bottom_16_9_55296"%string (extension_cache final)
    = Some patch
    /\ exists n image pos w eh,
         (n < generation_calls final)%nat
         /\ 0 < w /\ 0 < eh
         /\ request_key image pos w eh = Ok "bottom_16_9_55296"%string
         /\ Fixtures.stub_generator n image pos w eh = Ok patch.
Proof.
  cbv zeta.
  destruct (Dict.get String.eqb "bottom_16_9_55296"%string
              (extension_cache
                 (serve (IM := Fixtures.plain_imaging) Fixtures.stub_generator
                    (__init__ (Some "token"%string))
                    [mkRequest (Fixtures.flat 16 9 x80) bottom 16 9])))
    as [patch|] eqn:Hget; [|vm_compute in Hget; discriminate Hget].
  exists patch. split; [reflexivity|].
  exact (cached_patches_come_from_the_generator
           (IM := Fixtures.plain_imaging) Fixtures.stub_generator
           (Some "token"%string)
           [mkRequest (Fixtures.flat 16 9 x80) bottom 16 9]
           "bottom_16_9_55296"%string patch Hget).
Defined.

Lemma allowed_file_decides_by_last_extension_witness :
  main.allowed_file "clip.v2.MP4"%string = Ok true
  /\ main.allowed_file "clip.mp4.txt"%string = Ok false.
Proof.
  split.
  - destruct (allowed_file_decides_by_last_extension "clip.v2.MP4"%string)
      as (b & Hb & Hiff).
    rewrite Hb. f_equal. apply Hiff.
    exists "clip.v2"%string, "MP4"%string.
    split; [reflexivity|left; reflexivity].
  - reflexivity.
Defined.
